(** * Stepper core of the Driveboard firmware (firmware/src/stepper.c)

    A shallow embedding of the step-pulse generator: the stepper interrupt
    (Bresenham line tracer, trapezoid speed profile, raster intensity), the
    step-timer configuration, the stop supervisor and the homing loop,
    followed by the properties established about them.

    The target is an 8-bit AVR compiled with avr-gcc: [int] is 16 bits wide,
    [long] and the [uint32_t]/[int32_t] statics are 32 bits wide.  Every
    store into a C variable is followed by the wrap-around of its type. *)

From Stdlib Require Import ZArith List Bool Lia.
Import ListNotations.
Local Open Scope Z_scope.

(** ** Machine integers *)

Definition wrap_unsigned (w z : Z) : Z := z mod 2 ^ w.
Definition wrap_signed (w z : Z) : Z := (z + 2 ^ (w - 1)) mod 2 ^ w - 2 ^ (w - 1).

Definition uint8 : Z -> Z := wrap_unsigned 8.
Definition uint16 : Z -> Z := wrap_unsigned 16.
Definition uint32 : Z -> Z := wrap_unsigned 32.
Definition int16 : Z -> Z := wrap_signed 16.
Definition int32 : Z -> Z := wrap_signed 32.

Definition INT32_MAX : Z := 2147483647.
Definition UINT32_MAX : Z := 4294967295.

(** [_BV(bit)] of avr-libc. *)
Definition _BV (bit : Z) : Z := Z.shiftl 1 bit.

(** Register bit numbers of the ATmega timers (avr/io.h of the toolchain). *)
Definition CS00 : Z := 0.
Definition CS01 : Z := 1.
Definition CS02 : Z := 2.
Definition CS10 : Z := 0.
Definition CS21 : Z := 1.
Definition OCIE1A : Z := 1.

(** ** Compile-time configuration (config.h, stepper.h)

    The headers are not part of the sources at hand; their macros are taken
    as parameters.  [beam_dynamics] stands for the floating-point expression
    of [adjust_beam_dynamics] (nominal intensity, nominal rate, steps per
    minute), whose value is only ever passed to [control_laser_intensity]. *)

Record config : Type := {
  F_CPU : Z;
  ACCELERATION_TICKS_PER_SECOND : Z;
  MINIMUM_STEPS_PER_MINUTE : Z;
  CONFIG_PULSE_MICROSECONDS : Z;
  CONFIG_BEAMDYNAMICS_EVERY : Z;
  X_STEP_BIT : Z;
  Y_STEP_BIT : Z;
  Z_STEP_BIT : Z;
  X_DIRECTION_BIT : Z;
  Y_DIRECTION_BIT : Z;
  Z_DIRECTION_BIT : Z;
  STEPPING_MASK : Z;
  DIRECTION_MASK : Z;
  INVERT_MASK : Z;
  LASER_PWM_BIT : Z;
  X1_LIMIT_BIT : Z;
  Y1_LIMIT_BIT : Z;
  Z1_LIMIT_BIT : Z;
  LIMIT_MASK : Z;
  ENABLE_LASER_INTERLOCKS : bool;
  ENABLE_3AXES : option Z;
  STATIC_PWM_FREQ : bool;
  DRIVEBOARD_USB : bool;
  STOPERROR_OK : Z;
  STOPERROR_LIMIT_HIT_X1 : Z;
  STOPERROR_LIMIT_HIT_X2 : Z;
  STOPERROR_LIMIT_HIT_Y1 : Z;
  STOPERROR_LIMIT_HIT_Y2 : Z;
  STOPERROR_LIMIT_HIT_Z1 : Z;
  STOPERROR_LIMIT_HIT_Z2 : Z;
  beam_dynamics : Z -> Z -> Z -> Z
}.

(** ** Blocks (planner.h) *)

Inductive block_type : Type :=
| TYPE_LINE
| TYPE_RASTER_LINE
| TYPE_AIR_ASSIST_ENABLE
| TYPE_AIR_ASSIST_DISABLE
| TYPE_AUX1_ASSIST_ENABLE
| TYPE_AUX1_ASSIST_DISABLE
| TYPE_AUX2_ASSIST_ENABLE
| TYPE_AUX2_ASSIST_DISABLE.

(** Modelled from the spec: the declaration of [block_t] (planner.h) is not
    among the sources.  The fields are the ones the stepper reads; each holds
    an integer; the properties state the range they need of it. *)
Record block : Type := {
  type : block_type;
  steps_x : Z;
  steps_y : Z;
  steps_z : Z;
  direction_bits : Z;
  step_event_count : Z;
  initial_rate : Z;
  nominal_rate : Z;
  final_rate : Z;
  rate_delta : Z;
  accelerate_until : Z;
  decelerate_after : Z;
  nominal_laser_intensity : Z;
  pixel_steps : Z
}.

Definition is_motion (b : block) : bool :=
  match type b with
  | TYPE_LINE | TYPE_RASTER_LINE => true
  | _ => false
  end.

(** Sense inputs sampled by one run of the stepper interrupt
    (the [SENSE_*] macros of sense_control.h). *)
Record sense : Type := {
  SENSE_DOOR_OPEN : bool;
  SENSE_CHILLER_OFF : bool;
  SENSE_X1_LIMIT : bool;
  SENSE_X2_LIMIT : bool;
  SENSE_Y1_LIMIT : bool;
  SENSE_Y2_LIMIT : bool;
  SENSE_Z1_LIMIT : bool;
  SENSE_Z2_LIMIT : bool
}.

(** ** Machine state

    The statics of stepper.c, the hardware registers the stepper writes, and
    the state of the collaborators it calls (planner queue, laser intensity,
    serial raster stream, assist outputs). *)

Record state : Type := {
  (* statics of stepper.c *)
  position_x : Z;
  position_y : Z;
  position_z : Z;
  current_block : option block;
  out_bits : Z;
  counter_x : Z;
  counter_y : Z;
  counter_z : Z;
  step_events_completed : Z;
  busy : bool;
  cycles_per_step_event : Z;
  acceleration_tick_counter : Z;
  adjusted_rate : Z;
  processing_flag : bool;
  stop_requested : bool;
  stop_status : Z;
  pwm_counter : Z;
  (* registers *)
  STEPPING_PORT : Z;
  ASSIST_PORT : Z;
  TCCR0B : Z;
  TCNT0 : Z;
  TCCR1B : Z;
  OCR1A : Z;
  TIMSK1 : Z;
  TCNT2 : Z;
  TCCR2B : Z;
  (* collaborators *)
  planner_queue : list block;
  laser_intensity : Z;
  raster_stream : list Z;
  serial_stopped : bool;
  air_assist : bool;
  aux1_assist : bool;
  aux2_assist : bool
}.

Definition eta_state (s : state) : state :=
  Build_state (position_x s) (position_y s) (position_z s) (current_block s)
    (out_bits s) (counter_x s) (counter_y s) (counter_z s)
    (step_events_completed s) (busy s) (cycles_per_step_event s)
    (acceleration_tick_counter s) (adjusted_rate s) (processing_flag s)
    (stop_requested s) (stop_status s) (pwm_counter s)
    (STEPPING_PORT s) (ASSIST_PORT s) (TCCR0B s) (TCNT0 s) (TCCR1B s)
    (OCR1A s) (TIMSK1 s) (TCNT2 s) (TCCR2B s)
    (planner_queue s) (laser_intensity s) (raster_stream s)
    (serial_stopped s) (air_assist s) (aux1_assist s) (aux2_assist s).

(** [assign f] builds the assignment to field [f]: the record rebuilt with
    every other field copied. *)
Ltac assign proj :=
  let v := fresh "v" in
  let s := fresh "s" in
  intros v s;
  let body := eval cbv beta delta [eta_state] in (eta_state s) in
  let abstracted := eval pattern (proj s) in body in
  lazymatch abstracted with
  | ?f _ => let r := eval cbv beta in (f v) in exact r
  end.

Definition set_position_x : Z -> state -> state := ltac:(assign position_x).
Definition set_position_y : Z -> state -> state := ltac:(assign position_y).
Definition set_position_z : Z -> state -> state := ltac:(assign position_z).
Definition set_current_block : option block -> state -> state := ltac:(assign current_block).
Definition set_out_bits : Z -> state -> state := ltac:(assign out_bits).
Definition set_counter_x : Z -> state -> state := ltac:(assign counter_x).
Definition set_counter_y : Z -> state -> state := ltac:(assign counter_y).
Definition set_counter_z : Z -> state -> state := ltac:(assign counter_z).
Definition set_step_events_completed : Z -> state -> state := ltac:(assign step_events_completed).
Definition set_busy : bool -> state -> state := ltac:(assign busy).
Definition set_cycles_per_step_event : Z -> state -> state := ltac:(assign cycles_per_step_event).
Definition set_acceleration_tick_counter : Z -> state -> state := ltac:(assign acceleration_tick_counter).
Definition set_adjusted_rate : Z -> state -> state := ltac:(assign adjusted_rate).
Definition set_processing_flag : bool -> state -> state := ltac:(assign processing_flag).
Definition set_stop_requested : bool -> state -> state := ltac:(assign stop_requested).
Definition set_stop_status : Z -> state -> state := ltac:(assign stop_status).
Definition set_pwm_counter : Z -> state -> state := ltac:(assign pwm_counter).
Definition set_STEPPING_PORT : Z -> state -> state := ltac:(assign STEPPING_PORT).
Definition set_ASSIST_PORT : Z -> state -> state := ltac:(assign ASSIST_PORT).
Definition set_TCCR0B : Z -> state -> state := ltac:(assign TCCR0B).
Definition set_TCNT0 : Z -> state -> state := ltac:(assign TCNT0).
Definition set_TCCR1B : Z -> state -> state := ltac:(assign TCCR1B).
Definition set_OCR1A : Z -> state -> state := ltac:(assign OCR1A).
Definition set_TIMSK1 : Z -> state -> state := ltac:(assign TIMSK1).
Definition set_TCNT2 : Z -> state -> state := ltac:(assign TCNT2).
Definition set_TCCR2B : Z -> state -> state := ltac:(assign TCCR2B).
Definition set_planner_queue : list block -> state -> state := ltac:(assign planner_queue).
Definition set_laser_intensity : Z -> state -> state := ltac:(assign laser_intensity).
Definition set_raster_stream : list Z -> state -> state := ltac:(assign raster_stream).
Definition set_serial_stopped : bool -> state -> state := ltac:(assign serial_stopped).
Definition set_air_assist : bool -> state -> state := ltac:(assign air_assist).
Definition set_aux1_assist : bool -> state -> state := ltac:(assign aux1_assist).
Definition set_aux2_assist : bool -> state -> state := ltac:(assign aux2_assist).


Section Stepper.

Variable cfg : config.

Definition CYCLES_PER_MINUTE : Z := uint32 (60 * F_CPU cfg).
Definition CYCLES_PER_MICROSECOND : Z := F_CPU cfg / 1000000.
Definition CYCLES_PER_ACCELERATION_TICK : Z :=
  F_CPU cfg / ACCELERATION_TICKS_PER_SECOND cfg.

(** ** Collaborators

    Modelled from the spec: the planner, sense/control and serial modules are
    not among the sources.  The planner queue is a list whose head is the
    current block; [control_laser_intensity] stores an 8-bit duty;
    [serial_raster_read] consumes one byte of the raster stream of the current
    block and [serial_consume_data] drains what is left of it; [serial_stop]
    makes the transport stop receiving. *)

Definition planner_get_current_block (st : state) : option block :=
  hd_error (planner_queue st).

Definition planner_discard_current_block (st : state) : state :=
  set_planner_queue (tl (planner_queue st)) st.

Definition planner_reset_block_buffer (st : state) : state :=
  set_planner_queue [] st.

Definition control_laser_intensity (intensity : Z) (st : state) : state :=
  set_laser_intensity (uint8 intensity) st.

Definition control_get_intensity (st : state) : Z := laser_intensity st.

Definition control_air_assist (on : bool) (st : state) : state := set_air_assist on st.
Definition control_aux1_assist (on : bool) (st : state) : state := set_aux1_assist on st.
Definition control_aux2_assist (on : bool) (st : state) : state := set_aux2_assist on st.

Definition serial_raster_read (st : state) : Z * state :=
  (hd 0 (raster_stream st), set_raster_stream (tl (raster_stream st)) st).

Definition serial_consume_data (st : state) : state := set_raster_stream [] st.

Definition serial_stop (st : state) : state := set_serial_stopped true st.

(** ** Start, stop and the stop supervisor *)

Definition stepper_start_processing (st : state) : state :=
  if negb (processing_flag st) then
    let st := set_processing_flag true st in
    let st := set_out_bits (uint8 (INVERT_MASK cfg)) st in
    set_TIMSK1 (uint8 (Z.lor (TIMSK1 st) (Z.shiftl 1 OCIE1A))) st
  else st.

Definition stepper_stop_processing (st : state) : state :=
  let st := set_processing_flag false st in
  let st := set_current_block None st in
  let st := set_TIMSK1 (uint8 (Z.land (TIMSK1 st) (Z.lnot (Z.shiftl 1 OCIE1A)))) st in
  control_laser_intensity 0 st.

Definition stepper_processing (st : state) : bool := processing_flag st.

Definition stepper_request_stop (status : Z) (st : state) : state :=
  if negb (stop_requested st) then
    let st := set_stop_status status st in
    let st := set_stop_requested true st in
    serial_stop st
  else st.

Definition stepper_stop_status (st : state) : Z := stop_status st.

Definition stepper_stop_requested (st : state) : bool := stop_requested st.

Definition stepper_stop_resume (st : state) : state :=
  let st := set_stop_status (STOPERROR_OK cfg) st in
  set_stop_requested false st.

(** The step-event interrupt is enabled when OCIE1A is set in TIMSK1. *)
Definition step_interrupt_enabled (st : state) : bool :=
  Z.testbit (TIMSK1 st) OCIE1A.

(** ** Step timer *)

(** Ceiling, prescaler index and returned cycle count of [config_step_timer].
    [ceiling * 8L] is a [long] product; the last branch multiplies two
    [int]-ranked operands, [0xffff] (an [unsigned int]) and [1024], so the
    product is taken modulo 2^16 before it is stored. *)
Definition step_timer_setting (cycles : Z) : Z * Z * Z :=
  if cycles <=? 65535 then
    let ceiling := uint16 cycles in
    (ceiling, 0, uint32 ceiling)
  else if cycles <=? 524287 then
    let ceiling := uint16 (Z.shiftr cycles 3) in
    (ceiling, 1, uint32 (int32 (ceiling * 8)))
  else if cycles <=? 4194303 then
    let ceiling := uint16 (Z.shiftr cycles 6) in
    (ceiling, 2, uint32 (int32 (ceiling * 64)))
  else if cycles <=? 16777215 then
    let ceiling := uint16 (Z.shiftr cycles 8) in
    (ceiling, 3, uint32 (int32 (ceiling * 256)))
  else if cycles <=? 67108863 then
    let ceiling := uint16 (Z.shiftr cycles 10) in
    (ceiling, 4, uint32 (int32 (ceiling * 1024)))
  else
    (65535, 4, uint32 (uint16 (65535 * 1024))).

Definition config_step_timer (cycles : Z) (st : state) : Z * state :=
  let '(ceiling, prescaler, actual_cycles) := step_timer_setting cycles in
  let st := set_TCCR1B (uint8 (Z.lor (Z.land (TCCR1B st) (Z.lnot (Z.shiftl 7 CS10)))
                                     (Z.shiftl (prescaler + 1) CS10))) st in
  let st := set_OCR1A ceiling st in
  (actual_cycles, st).

Definition adjust_speed (steps_per_minute : Z) (st : state) : state :=
  let steps_per_minute :=
    if steps_per_minute <? MINIMUM_STEPS_PER_MINUTE cfg
    then MINIMUM_STEPS_PER_MINUTE cfg else steps_per_minute in
  let '(actual_cycles, st) := config_step_timer (CYCLES_PER_MINUTE / steps_per_minute) st in
  set_cycles_per_step_event actual_cycles st.

Definition adjust_beam_dynamics (b : block) (steps_per_minute : Z) (st : state) : state :=
  control_laser_intensity
    (beam_dynamics cfg (nominal_laser_intensity b) (nominal_rate b) steps_per_minute) st.

Definition acceleration_tick (st : state) : bool * state :=
  let st := set_acceleration_tick_counter
              (uint32 (acceleration_tick_counter st + cycles_per_step_event st)) st in
  if CYCLES_PER_ACCELERATION_TICK <? acceleration_tick_counter st then
    (true, set_acceleration_tick_counter
             (uint32 (acceleration_tick_counter st - CYCLES_PER_ACCELERATION_TICK)) st)
  else (false, st).

(** ** The stepper interrupt, TIMER1_COMPA *)

(** The limit switch that stops the program, in the order the interrupt
    tests them; [None] without interlocks or when no limit is asserted. *)
Definition limit_hit (i : sense) : option Z :=
  if negb (ENABLE_LASER_INTERLOCKS cfg) then None
  else if SENSE_X1_LIMIT i then Some (STOPERROR_LIMIT_HIT_X1 cfg)
  else if SENSE_X2_LIMIT i then Some (STOPERROR_LIMIT_HIT_X2 cfg)
  else if SENSE_Y1_LIMIT i then Some (STOPERROR_LIMIT_HIT_Y1 cfg)
  else if SENSE_Y2_LIMIT i then Some (STOPERROR_LIMIT_HIT_Y2 cfg)
  else match ENABLE_3AXES cfg with
       | Some enabled =>
           if SENSE_Z1_LIMIT i && negb (enabled =? 0)
           then Some (STOPERROR_LIMIT_HIT_Z1 cfg)
           else if SENSE_Z2_LIMIT i && negb (enabled =? 0)
           then Some (STOPERROR_LIMIT_HIT_Z2 cfg)
           else None
       | None => None
       end.

(** Door and chiller interlocks: laser off, no stop. *)
Definition honor_interlocks (i : sense) (st : state) : state :=
  if ENABLE_LASER_INTERLOCKS cfg && (SENSE_DOOR_OPEN i || SENSE_CHILLER_OFF i)
  then control_laser_intensity 0 st
  else st.

(** Timer 0 count and prescaler bits for a laser pulse of [cycles] cycles. *)
Definition laser_timer_setting (cycles : Z) : Z * Z :=
  if cycles <? 256 then (cycles, _BV CS00)
  else let cycles := Z.shiftr cycles 3 in
  if cycles <? 256 then (cycles, _BV CS01)
  else let cycles := Z.shiftr cycles 3 in
  if cycles <? 256 then (cycles, Z.lor (_BV CS01) (_BV CS00))
  else let cycles := Z.shiftr cycles 2 in
  if cycles <? 256 then (cycles, _BV CS02)
  else let cycles := Z.shiftr cycles 2 in
  if cycles <? 256 then (cycles, Z.lor (_BV CS02) (_BV CS00))
  else (255, Z.lor (_BV CS02) (_BV CS00)).

Definition pulse_laser (st : state) : state :=
  if STATIC_PWM_FREQ cfg then st
  else
    let duty := control_get_intensity st in
    if pwm_counter st <? CONFIG_BEAMDYNAMICS_EVERY cfg then
      set_pwm_counter (uint8 (pwm_counter st + 1)) st
    else
      let st :=
        if duty =? 0 then
          set_ASSIST_PORT (uint8 (Z.land (ASSIST_PORT st) (Z.lnot (_BV (LASER_PWM_BIT cfg))))) st
        else
          let st := set_TCCR0B 0 st in
          let st := set_ASSIST_PORT (uint8 (Z.lor (ASSIST_PORT st) (_BV (LASER_PWM_BIT cfg)))) st in
          if duty <? 242 then
            let cycles := uint32 (int16 (CONFIG_BEAMDYNAMICS_EVERY cfg * duty)
                                  * Z.shiftr (cycles_per_step_event st) 8) in
            let '(cycles, prescaler) := laser_timer_setting cycles in
            let st := set_TCNT0 (uint8 (256 - cycles)) st in
            set_TCCR0B prescaler st
          else st in
      set_pwm_counter 1 st.

Definition pulse_steppers (st : state) : state :=
  let st := set_STEPPING_PORT
              (uint8 (Z.lor (Z.land (STEPPING_PORT st) (Z.lnot (DIRECTION_MASK cfg)))
                            (Z.land (out_bits st) (DIRECTION_MASK cfg)))) st in
  let st := set_STEPPING_PORT
              (uint8 (Z.lor (Z.land (STEPPING_PORT st) (Z.lnot (STEPPING_MASK cfg)))
                            (out_bits st))) st in
  let st := set_TCNT2
              (uint8 (- Z.shiftr ((CONFIG_PULSE_MICROSECONDS cfg - 2) * CYCLES_PER_MICROSECOND) 3)) st in
  set_TCCR2B (_BV CS21) st.

(** Speed change shared by the three phases: reprogram the step timer, then
    zero the laser for a raster line or dim it with the speed otherwise. *)
Definition apply_rate (b : block) (st : state) : state :=
  let st := adjust_speed (adjusted_rate st) st in
  match type b with
  | TYPE_RASTER_LINE => control_laser_intensity 0 st
  | _ => adjust_beam_dynamics b (adjusted_rate st) st
  end.

(** Entering a new LINE or RASTER_LINE block. *)
Definition start_line_block (b : block) (st : state) : state :=
  let st := set_adjusted_rate (initial_rate b) st in
  let st := set_acceleration_tick_counter (CYCLES_PER_ACCELERATION_TICK / 2) st in
  let st := apply_rate b st in
  let st := set_counter_x (int32 (- Z.shiftr (step_event_count b) 1)) st in
  let st := set_counter_y (counter_x st) st in
  let st := set_counter_z (counter_x st) st in
  set_step_events_completed 0 st.

Definition direction_bit_set (bits bit : Z) : bool :=
  negb (Z.land (Z.shiftr bits bit) 1 =? 0).

Definition bresenham_x (b : block) (st : state) : state :=
  let st := set_counter_x (int32 (counter_x st + steps_x b)) st in
  if 0 <? counter_x st then
    let st := set_out_bits (uint8 (Z.lor (out_bits st) (Z.shiftl 1 (X_STEP_BIT cfg)))) st in
    let st := set_counter_x (int32 (counter_x st - step_event_count b)) st in
    if direction_bit_set (out_bits st) (X_DIRECTION_BIT cfg)
    then set_position_x (int32 (position_x st - 1)) st
    else set_position_x (int32 (position_x st + 1)) st
  else st.

Definition bresenham_y (b : block) (st : state) : state :=
  let st := set_counter_y (int32 (counter_y st + steps_y b)) st in
  if 0 <? counter_y st then
    let st := set_out_bits (uint8 (Z.lor (out_bits st) (Z.shiftl 1 (Y_STEP_BIT cfg)))) st in
    let st := set_counter_y (int32 (counter_y st - step_event_count b)) st in
    if direction_bit_set (out_bits st) (Y_DIRECTION_BIT cfg)
    then set_position_y (int32 (position_y st - 1)) st
    else set_position_y (int32 (position_y st + 1)) st
  else st.

Definition bresenham_z (b : block) (st : state) : state :=
  let st := set_counter_z (int32 (counter_z st + steps_z b)) st in
  if 0 <? counter_z st then
    let st := set_out_bits (uint8 (Z.lor (out_bits st) (Z.shiftl 1 (Z_STEP_BIT cfg)))) st in
    let st := set_counter_z (int32 (counter_z st - step_event_count b)) st in
    if direction_bit_set (out_bits st) (Z_DIRECTION_BIT cfg)
    then set_position_z (int32 (position_z st - 1)) st
    else set_position_z (int32 (position_z st + 1)) st
  else st.

(** The step displacement of one step event, up to the invert mask. *)
Definition bresenham (b : block) (st : state) : state :=
  let st := set_out_bits (uint8 (direction_bits b)) st in
  let st := bresenham_x b st in
  let st := bresenham_y b st in
  let st := bresenham_z b st in
  let st := set_step_events_completed (uint32 (step_events_completed st + 1)) st in
  set_out_bits (uint8 (Z.lxor (out_bits st) (INVERT_MASK cfg))) st.

(** Intensity of a raster byte: [(chr-128)*2*nominal_laser_intensity/255]
    in [int] arithmetic, truncating division. *)
Definition raster_intensity (chr nominal : Z) : Z :=
  Z.quot (int16 ((chr - 128) * 2 * nominal)) 255.

Definition accelerating (b : block) (st : state) : state :=
  let '(tick, st) := acceleration_tick st in
  if tick then
    let st := set_adjusted_rate (uint32 (adjusted_rate st + rate_delta b)) st in
    let st := if nominal_rate b <? adjusted_rate st
              then set_adjusted_rate (nominal_rate b) st else st in
    apply_rate b st
  else st.

Definition decelerating (b : block) (st : state) : state :=
  let '(tick, st) := acceleration_tick st in
  if tick then
    let st := if rate_delta b <? adjusted_rate st
              then set_adjusted_rate (uint32 (adjusted_rate st - rate_delta b)) st
              else set_adjusted_rate 0 st in
    let st := if adjusted_rate st <? final_rate b
              then set_adjusted_rate (final_rate b) st else st in
    apply_rate b st
  else st.

Definition cruising (b : block) (st : state) : state :=
  let st := if negb (adjusted_rate st =? nominal_rate b) then
              let st := set_adjusted_rate (nominal_rate b) st in
              apply_rate b st
            else st in
  match type b with
  | TYPE_RASTER_LINE =>
      if step_events_completed st mod pixel_steps b =? 0 then
        let '(chr, st) := serial_raster_read st in
        control_laser_intensity (raster_intensity chr (nominal_laser_intensity b)) st
      else st
  | _ => st
  end.

Definition speed_adjustment (b : block) (st : state) : state :=
  if step_events_completed st <? step_event_count b then
    if step_events_completed st <? accelerate_until b then accelerating b st
    else if step_events_completed st =? decelerate_after b then
      set_acceleration_tick_counter (CYCLES_PER_ACCELERATION_TICK / 2) st
    else if decelerate_after b <=? step_events_completed st then decelerating b st
    else cruising b st
  else
    let st := match type b with
              | TYPE_RASTER_LINE => serial_consume_data st
              | _ => st
              end in
    let st := set_current_block None st in
    planner_discard_current_block st.

Definition discard (st : state) : state :=
  planner_discard_current_block (set_current_block None st).

(** The [switch] on the block type. *)
Definition process_block (b : block) (st : state) : state :=
  match type b with
  | TYPE_LINE | TYPE_RASTER_LINE => speed_adjustment b (bresenham b st)
  | TYPE_AIR_ASSIST_ENABLE => discard (control_air_assist true st)
  | TYPE_AIR_ASSIST_DISABLE => discard (control_air_assist false st)
  | TYPE_AUX1_ASSIST_ENABLE =>
      if DRIVEBOARD_USB cfg then st else discard (control_aux1_assist true st)
  | TYPE_AUX1_ASSIST_DISABLE =>
      if DRIVEBOARD_USB cfg then st else discard (control_aux1_assist false st)
  | TYPE_AUX2_ASSIST_ENABLE =>
      if DRIVEBOARD_USB cfg then st else discard (control_aux2_assist true st)
  | TYPE_AUX2_ASSIST_DISABLE =>
      if DRIVEBOARD_USB cfg then st else discard (control_aux2_assist false st)
  end.

(** One run of the interrupt handler with the sense inputs [i].  Nested
    interrupts ([sei]/[cli]) are not part of the model: a run is atomic. *)
Definition ISR_TIMER1_COMPA (i : sense) (st : state) : state :=
  if busy st then st
  else
    let st := set_busy true st in
    if stop_requested st then
      let st := stepper_stop_processing st in
      let st := planner_reset_block_buffer st in
      set_busy false st
    else
      let st := honor_interlocks i st in
      match limit_hit i with
      | Some status =>
          let st := stepper_request_stop status st in
          set_busy false st
      | None =>
          let st := pulse_laser st in
          let st := pulse_steppers st in
          match current_block st with
          | Some b => set_busy false (process_block b st)
          | None =>
              match planner_get_current_block st with
              | None =>
                  let st := stepper_stop_processing st in
                  set_busy false st
              | Some b =>
                  let st := set_current_block (Some b) st in
                  let st := if is_motion b then start_line_block b st else st in
                  set_busy false (process_block b st)
              end
          end
      end.

(** Successive runs of the interrupt, one per sampled input. *)
Fixpoint run_isr (inputs : list sense) (st : state) : state :=
  match inputs with
  | [] => st
  | i :: rest => run_isr rest (ISR_TIMER1_COMPA i st)
  end.

(** The states the successive runs leave, in order. *)
Fixpoint trace_isr (inputs : list sense) (st : state) : list state :=
  match inputs with
  | [] => []
  | i :: rest => ISR_TIMER1_COMPA i st :: trace_isr rest (ISR_TIMER1_COMPA i st)
  end.

End Stepper.

(** ** The step timer, as specified *)

(** The timer period as the specification words it: the smallest prescaler
    among 1, 8, 64, 256 and 1024 (shifts 0, 3, 6, 8, 10) for which
    [cycles >> shift] fits 16 bits gives [(cycles >> shift) * prescaler];
    when none does, the period is clamped to [0xFFFF * 1024]. *)
Definition prescaler_shifts : list Z := [0; 3; 6; 8; 10].

Definition spec_step_timer_cycles (cycles : Z) : Z :=
  match find (fun shift => Z.shiftr cycles shift <=? 65535) prescaler_shifts with
  | Some shift => Z.shiftr cycles shift * 2 ^ shift
  | None => 65535 * 1024
  end.

(** ** Homing *)

Module Homing.

(** The locals of [homing_cycle], with the stepping port it drives. *)
Record locals : Type := {
  x_axis : bool;
  y_axis : bool;
  z_axis : bool;
  out_bits : Z;
  x_overshoot_count : Z;
  y_overshoot_count : Z;
  z_overshoot_count : Z;
  port : Z
}.

Section Cycle.

Variable cfg : config.
Variable reverse_direction : bool.

(** Up to the [for(;;)]: the step bits of the axes to home, the direction
    bits, the invert mask, and the direction pins. *)
Definition start (x y z : bool) (stepping_port : Z) : locals :=
  let out := uint8 (DIRECTION_MASK cfg) in
  let out := if x then uint8 (Z.lor out (Z.shiftl 1 (X_STEP_BIT cfg))) else out in
  let out := if y then uint8 (Z.lor out (Z.shiftl 1 (Y_STEP_BIT cfg))) else out in
  let out := if z then uint8 (Z.lor out (Z.shiftl 1 (Z_STEP_BIT cfg))) else out in
  let out := if reverse_direction then uint8 (Z.lxor out (DIRECTION_MASK cfg)) else out in
  let out := uint8 (Z.lxor out (INVERT_MASK cfg)) in
  {| x_axis := x; y_axis := y; z_axis := z; out_bits := out;
     x_overshoot_count := 6; y_overshoot_count := 6; z_overshoot_count := 6;
     port := uint8 (Z.lor (Z.land stepping_port (Z.lnot (DIRECTION_MASK cfg)))
                          (Z.land out (DIRECTION_MASK cfg))) |}.

(** [limit_bits] of an iteration that read [limit_pin]. *)
Definition limit_bits (limit_pin : Z) : Z :=
  if reverse_direction then uint8 (Z.lxor limit_pin (LIMIT_MASK cfg)) else uint8 limit_pin.

(** [sense_x1_limit] and its siblings: active high on the USB board,
    active low otherwise. *)
Definition sense_limit (limit_pin bit : Z) : bool :=
  let set := negb (Z.land (limit_bits limit_pin) (Z.shiftl 1 bit) =? 0) in
  if DRIVEBOARD_USB cfg then set else negb set.

Definition overshoot_x (limit_pin : Z) (l : locals) : locals :=
  if x_axis l && sense_limit limit_pin (X1_LIMIT_BIT cfg) then
    if x_overshoot_count l =? 0 then
      {| x_axis := false; y_axis := y_axis l; z_axis := z_axis l;
         out_bits := uint8 (Z.lxor (out_bits l) (Z.shiftl 1 (X_STEP_BIT cfg)));
         x_overshoot_count := x_overshoot_count l;
         y_overshoot_count := y_overshoot_count l;
         z_overshoot_count := z_overshoot_count l; port := port l |}
    else
      {| x_axis := x_axis l; y_axis := y_axis l; z_axis := z_axis l;
         out_bits := out_bits l;
         x_overshoot_count := uint8 (x_overshoot_count l - 1);
         y_overshoot_count := y_overshoot_count l;
         z_overshoot_count := z_overshoot_count l; port := port l |}
  else l.

Definition overshoot_y (limit_pin : Z) (l : locals) : locals :=
  if y_axis l && sense_limit limit_pin (Y1_LIMIT_BIT cfg) then
    if y_overshoot_count l =? 0 then
      {| x_axis := x_axis l; y_axis := false; z_axis := z_axis l;
         out_bits := uint8 (Z.lxor (out_bits l) (Z.shiftl 1 (Y_STEP_BIT cfg)));
         x_overshoot_count := x_overshoot_count l;
         y_overshoot_count := y_overshoot_count l;
         z_overshoot_count := z_overshoot_count l; port := port l |}
    else
      {| x_axis := x_axis l; y_axis := y_axis l; z_axis := z_axis l;
         out_bits := out_bits l;
         x_overshoot_count := x_overshoot_count l;
         y_overshoot_count := uint8 (y_overshoot_count l - 1);
         z_overshoot_count := z_overshoot_count l; port := port l |}
  else l.

Definition overshoot_z (limit_pin : Z) (l : locals) : locals :=
  match ENABLE_3AXES cfg with
  | None => l
  | Some _ =>
      if z_axis l && sense_limit limit_pin (Z1_LIMIT_BIT cfg) then
        if z_overshoot_count l =? 0 then
          {| x_axis := x_axis l; y_axis := y_axis l; z_axis := false;
             out_bits := uint8 (Z.lxor (out_bits l) (Z.shiftl 1 (Z_STEP_BIT cfg)));
             x_overshoot_count := x_overshoot_count l;
             y_overshoot_count := y_overshoot_count l;
             z_overshoot_count := z_overshoot_count l; port := port l |}
        else
          {| x_axis := x_axis l; y_axis := y_axis l; z_axis := z_axis l;
             out_bits := out_bits l;
             x_overshoot_count := x_overshoot_count l;
             y_overshoot_count := y_overshoot_count l;
             z_overshoot_count := uint8 (z_overshoot_count l - 1); port := port l |}
      else l
  end.

(** The bits an iteration pulses: [out_bits & STEPPING_MASK]. *)
Definition step_bits (l : locals) : Z := Z.land (out_bits l) (STEPPING_MASK cfg).

(** The first port write of a step, [STEPPING_PORT |= out_bits &
    STEPPING_MASK]: the value the port takes. *)
Definition raised (l : locals) : Z := uint8 (Z.lor (port l) (step_bits l)).

(** The two port writes of a step: the step bits raised, then toggled. *)
Definition step_all (l : locals) : locals :=
  {| x_axis := x_axis l; y_axis := y_axis l; z_axis := z_axis l;
     out_bits := out_bits l;
     x_overshoot_count := x_overshoot_count l;
     y_overshoot_count := y_overshoot_count l;
     z_overshoot_count := z_overshoot_count l;
     port := uint8 (Z.lxor (raised l) (step_bits l)) |}.

(** One iteration of the loop on the reading [limit_pin]: the locals it
    leaves and the values its two writes gave the stepping port, or [None]
    when it breaks. *)
Definition iteration (limit_pin : Z) (l : locals) : locals * option (Z * Z) :=
  let l := overshoot_x limit_pin l in
  let l := overshoot_y limit_pin l in
  let l := overshoot_z limit_pin l in
  if x_axis l || y_axis l || z_axis l
  then (step_all l, Some (raised l, port (step_all l)))
  else (l, None).

(** The loop from iteration [t] on, [LIMIT_PIN] reading [limit_pin t'] in
    iteration [t']: the two port values of each iteration that stepped, and
    the locals at the break when the loop ends within [fuel] iterations. *)
Fixpoint loop (fuel : nat) (limit_pin : nat -> Z) (t : nat) (l : locals)
  : list (Z * Z) * option locals :=
  match fuel with
  | O => ([], None)
  | S fuel' =>
      match iteration (limit_pin t) l with
      | (l', Some writes) =>
          let '(rest, final) := loop fuel' limit_pin (S t) l' in
          (writes :: rest, final)
      | (l', None) => ([], Some l')
      end
  end.

(** [homing_cycle] on the machine state: the port writes of the loop and,
    when it ends, the state with the position cleared. *)
Definition homing_cycle (fuel : nat) (x y z : bool) (limit_pin : nat -> Z) (st : state)
  : list (Z * Z) * option state :=
  let '(writes, final) := loop fuel limit_pin 0 (start x y z (STEPPING_PORT st)) in
  (writes,
   match final with
   | Some l =>
       Some (set_position_z 0 (set_position_y 0 (set_position_x 0
               (set_STEPPING_PORT (port l) st))))
   | None => None
   end).

End Cycle.

End Homing.

(** * Vocabulary of the properties *)

(** The line tracer's variables. *)
Definition same_tracer (s t : state) : Prop :=
  out_bits s = out_bits t /\
  counter_x s = counter_x t /\ counter_y s = counter_y t /\ counter_z s = counter_z t /\
  position_x s = position_x t /\ position_y s = position_y t /\ position_z s = position_z t /\
  step_events_completed s = step_events_completed t.

(** The supervisor's variables, the step interrupt enable included. *)
Definition same_supervisor (s t : state) : Prop :=
  stop_requested s = stop_requested t /\ stop_status s = stop_status t /\
  processing_flag s = processing_flag t /\ serial_stopped s = serial_stopped t /\
  TIMSK1 s = TIMSK1 t.

(** The block being traced and the planner queue. *)
Definition same_feed (s t : state) : Prop :=
  current_block s = current_block t /\ planner_queue s = planner_queue t.

(** The trapezoid generator's variables. *)
Definition same_profile (s t : state) : Prop :=
  adjusted_rate s = adjusted_rate t /\
  acceleration_tick_counter s = acceleration_tick_counter t /\
  cycles_per_step_event s = cycles_per_step_event t.

(** Everything but the tracer's variables. *)
Definition same_elsewhere (s t : state) : Prop :=
  same_supervisor s t /\ same_feed s t /\ same_profile s t /\
  busy s = busy t /\ laser_intensity s = laser_intensity t /\
  raster_stream s = raster_stream t.

(** Everything the speed profile leaves alone. *)
Definition same_motion (s t : state) : Prop :=
  same_tracer s t /\ same_supervisor s t /\ same_feed s t /\ busy s = busy t.

(** One axis of the line tracer, as functions of the counter: whether the
    step event pulses the axis, the counter it leaves, and the position. *)
Definition pulse (c steps : Z) : bool := 0 <? int32 (c + steps).

Definition next_counter (n steps c : Z) : Z :=
  if pulse c steps then int32 (int32 (c + steps) - n) else int32 (c + steps).

Definition next_position (backwards pulsed : bool) (p : Z) : Z :=
  if pulsed then (if backwards then int32 (p - 1) else int32 (p + 1)) else p.

(** The rate after an acceleration tick and after a deceleration tick. *)
Definition accelerated (b : block) (r : Z) : Z :=
  let r' := uint32 (r + rate_delta b) in
  if nominal_rate b <? r' then nominal_rate b else r'.

Definition decelerated (b : block) (r : Z) : Z :=
  let r' := if rate_delta b <? r then uint32 (r - rate_delta b) else 0 in
  if r' <? final_rate b then final_rate b else r'.

(** The axes, as they index [stepper_position]. *)
Inductive axis : Type := X_AXIS | Y_AXIS | Z_AXIS.

Definition stepper_position (st : state) (a : axis) : Z :=
  match a with
  | X_AXIS => position_x st
  | Y_AXIS => position_y st
  | Z_AXIS => position_z st
  end.

Definition counter_of (a : axis) (st : state) : Z :=
  match a with
  | X_AXIS => counter_x st
  | Y_AXIS => counter_y st
  | Z_AXIS => counter_z st
  end.

Definition steps_of (a : axis) (b : block) : Z :=
  match a with
  | X_AXIS => steps_x b
  | Y_AXIS => steps_y b
  | Z_AXIS => steps_z b
  end.

Definition STEP_BIT (cfg : config) (a : axis) : Z :=
  match a with
  | X_AXIS => X_STEP_BIT cfg
  | Y_AXIS => Y_STEP_BIT cfg
  | Z_AXIS => Z_STEP_BIT cfg
  end.

Definition DIRECTION_BIT (cfg : config) (a : axis) : Z :=
  match a with
  | X_AXIS => X_DIRECTION_BIT cfg
  | Y_AXIS => Y_DIRECTION_BIT cfg
  | Z_AXIS => Z_DIRECTION_BIT cfg
  end.

(** ** Arithmetic of the line tracer

    [counter_after n s c0 k] is the counter of an axis with [s] steps after
    [k] step events of a block of [n] step events, [pulses n s c0 k] the
    number of those events that pulsed the axis. *)

Fixpoint counter_after (n s c0 : Z) (k : nat) : Z :=
  match k with
  | O => c0
  | S k' => next_counter n s (counter_after n s c0 k')
  end.

Fixpoint pulses (n s c0 : Z) (k : nat) : Z :=
  match k with
  | O => 0
  | S k' => pulses n s c0 k' + (if pulse (counter_after n s c0 k') s then 1 else 0)
  end.

Section Vocabulary.

Variable cfg : config.

(** The part of the interrupt that runs before the current block is looked
    at, when no stop is requested and no limit is hit. *)
Definition prologue (i : sense) (st : state) : state :=
  pulse_steppers cfg (pulse_laser cfg (honor_interlocks cfg i (set_busy true st))).

(** The pin assignment is sound when the step and direction bits are bits of
    the 8-bit stepping port, the step bits distinct from each other and from
    the direction bits. *)
Definition pins_ok : Prop :=
  (0 <= X_STEP_BIT cfg < 8 /\ 0 <= Y_STEP_BIT cfg < 8 /\ 0 <= Z_STEP_BIT cfg < 8 /\
   0 <= X_DIRECTION_BIT cfg < 8 /\ 0 <= Y_DIRECTION_BIT cfg < 8 /\
   0 <= Z_DIRECTION_BIT cfg < 8) /\
  (X_STEP_BIT cfg <> Y_STEP_BIT cfg /\ X_STEP_BIT cfg <> Z_STEP_BIT cfg /\
   Y_STEP_BIT cfg <> Z_STEP_BIT cfg) /\
  (X_DIRECTION_BIT cfg <> X_STEP_BIT cfg /\ X_DIRECTION_BIT cfg <> Y_STEP_BIT cfg /\
   X_DIRECTION_BIT cfg <> Z_STEP_BIT cfg /\ Y_DIRECTION_BIT cfg <> X_STEP_BIT cfg /\
   Y_DIRECTION_BIT cfg <> Y_STEP_BIT cfg /\ Y_DIRECTION_BIT cfg <> Z_STEP_BIT cfg /\
   Z_DIRECTION_BIT cfg <> X_STEP_BIT cfg /\ Z_DIRECTION_BIT cfg <> Y_STEP_BIT cfg /\
   Z_DIRECTION_BIT cfg <> Z_STEP_BIT cfg).

(** The direction bits of a block are a byte with no step bit set. *)
Definition direction_only (b : block) : Prop :=
  0 <= direction_bits b < 256 /\
  Z.testbit (direction_bits b) (X_STEP_BIT cfg) = false /\
  Z.testbit (direction_bits b) (Y_STEP_BIT cfg) = false /\
  Z.testbit (direction_bits b) (Z_STEP_BIT cfg) = false.

(** The step bit [bit] as the tracer left it in [out_bits], the invert mask
    undone: the axis is pulsed when the port is next written. *)
Definition stepped (bit : Z) (st : state) : bool :=
  Z.testbit (Z.lxor (out_bits st) (INVERT_MASK cfg)) bit.

(** The state the line tracer starts a step event from: the current state
    past the prologue, initialised for the block when the block is new. *)
Definition entry (b : block) (i : sense) (st : state) : state :=
  match current_block st with
  | Some _ => prologue i st
  | None => start_line_block cfg b (set_current_block (Some b) (prologue i st))
  end.

(** The interrupt may trace [b]: it is idle with [b] at the head of the
    queue, or [b] is the current block. *)
Definition feeding (b : block) (q : list block) (st : state) : Prop :=
  busy st = false /\ stop_requested st = false /\ planner_queue st = b :: q /\
  (current_block st = None \/ current_block st = Some b).

(** No limit switch stops the program on input [i]. *)
Definition no_limit (i : sense) : Prop := limit_hit cfg i = None.

(** The interrupt is idle with the new block [b] at the head of the queue. *)
Definition waiting (b : block) (q : list block) (st : state) : Prop :=
  busy st = false /\ stop_requested st = false /\
  current_block st = None /\ planner_queue st = b :: q.

(** [k] step events of [b] are done: [b] is still the current block, or it
    has just been discarded. *)
Definition progress (b : block) (q : list block) (k : Z) (st : state) : Prop :=
  busy st = false /\ stop_requested st = false /\ step_events_completed st = k /\
  (if k <? step_event_count b
   then current_block st = Some b /\ planner_queue st = b :: q
   else current_block st = None /\ planner_queue st = q).

(** The number of runs in a trace that left the step bit of axis [a] set:
    the step pulses the tracer emitted on [a]. *)
Definition step_pulses (a : axis) (tr : list state) : Z :=
  Z.of_nat (length (filter (stepped (STEP_BIT cfg a)) tr)).

(** The unit step of a block on axis [a]. *)
Definition direction (b : block) (a : axis) : Z :=
  if Z.testbit (direction_bits b) (DIRECTION_BIT cfg a) then -1 else 1.

(** The rates of a block the planner filled in for a rate floor [lo]. *)
Definition rates_ok (lo : Z) (b : block) : Prop :=
  0 <= lo /\
  lo <= initial_rate b <= nominal_rate b /\
  lo <= final_rate b <= nominal_rate b /\
  0 <= rate_delta b /\ nominal_rate b + rate_delta b <= UINT32_MAX.

(** The idle state: not processing, no current block, the step-event
    interrupt disabled, the laser off. *)
Definition idle (st : state) : Prop :=
  processing_flag st = false /\ current_block st = None /\
  step_interrupt_enabled st = false /\ laser_intensity st = 0.

End Vocabulary.

(** Vocabulary of the homing cycle. *)
Section Homing_vocabulary.

Import Homing.

Variable cfg : config.
Variable reverse_direction : bool.

Definition axis_active (a : axis) (l : locals) : bool :=
  match a with
  | X_AXIS => x_axis l
  | Y_AXIS => y_axis l
  | Z_AXIS => z_axis l
  end.

Definition overshoot_count (a : axis) (l : locals) : Z :=
  match a with
  | X_AXIS => x_overshoot_count l
  | Y_AXIS => y_overshoot_count l
  | Z_AXIS => z_overshoot_count l
  end.

Definition LIMIT_BIT (a : axis) : Z :=
  match a with
  | X_AXIS => X1_LIMIT_BIT cfg
  | Y_AXIS => Y1_LIMIT_BIT cfg
  | Z_AXIS => Z1_LIMIT_BIT cfg
  end.

(** The end-stop of axis [a] is asserted in an iteration that read
    [limit_pin]. *)
Definition end_stop (a : axis) (limit_pin : Z) : bool :=
  sense_limit cfg reverse_direction limit_pin (LIMIT_BIT a).

(** The step line of axis [a] is inverted: its step bit is in
    [INVERT_MASK]. *)
Definition inverted (a : axis) : bool := Z.testbit (INVERT_MASK cfg) (STEP_BIT cfg a).

(** The two port writes [w] of an iteration made a pulse on the step pin of
    axis [a]: the pin was high after the first and low after the second. *)
Definition pulsed_on (a : axis) (w : Z * Z) : bool :=
  Z.testbit (fst w) (STEP_BIT cfg a) && negb (Z.testbit (snd w) (STEP_BIT cfg a)).

(** No port write. *)
Definition no_write : Z * Z := (0, 0).

(** Axis [a] is one of the axes [homing_cycle x y z] homes. *)
Definition homed (a : axis) (x y z : bool) : Prop :=
  match a with
  | X_AXIS => x = true
  | Y_AXIS => y = true
  | Z_AXIS => z = true /\ ENABLE_3AXES cfg <> None
  end.

(** The step bits are distinct bits of the port, all in [STEPPING_MASK] and
    none in [DIRECTION_MASK]. *)
Definition step_lines_ok : Prop :=
  (forall a, 0 <= STEP_BIT cfg a < 8) /\
  (forall a a', a <> a' -> STEP_BIT cfg a <> STEP_BIT cfg a') /\
  (forall a, Z.testbit (STEPPING_MASK cfg) (STEP_BIT cfg a) = true) /\
  (forall a, Z.testbit (DIRECTION_MASK cfg) (STEP_BIT cfg a) = false).

(** The step bits are distinct bits of the port, all in [STEPPING_MASK] and
    none in [DIRECTION_MASK] or [INVERT_MASK]. *)
Definition step_pins_ok : Prop :=
  (forall a, 0 <= STEP_BIT cfg a < 8) /\
  (forall a a', a <> a' -> STEP_BIT cfg a <> STEP_BIT cfg a') /\
  (forall a, Z.testbit (STEPPING_MASK cfg) (STEP_BIT cfg a) = true) /\
  (forall a, Z.testbit (DIRECTION_MASK cfg) (STEP_BIT cfg a) = false) /\
  (forall a, Z.testbit (INVERT_MASK cfg) (STEP_BIT cfg a) = false).

(** What the loop holds of one axis: whether it is still homing, its
    overshoot allowance, and its step bit in [out_bits]. *)
Definition seat (a : axis) (l : locals) : bool * Z * bool :=
  (axis_active a l, overshoot_count a l, Z.testbit (out_bits l) (STEP_BIT cfg a)).

Definition seat_next (asserted : bool) (s : bool * Z * bool) : bool * Z * bool :=
  let '(active, count, bit) := s in
  if active && asserted then
    if count =? 0 then (false, count, negb bit) else (true, uint8 (count - 1), bit)
  else s.

(** The seat of axis [a] at the start of iteration [t], when its end-stop
    asserts from iteration [N] on: the step bit of a homing axis is set in
    [out_bits] unless the invert mask cleared it. *)
Definition seated (a : axis) (N t : nat) (l : locals) : Prop :=
  if (t <=? N + 6)%nat
  then seat a l = (true, 6 - Z.of_nat (t - N), negb (inverted a))
  else axis_active a l = false /\ Z.testbit (out_bits l) (STEP_BIT cfg a) = inverted a.

End Homing_vocabulary.

(** ** A concrete configuration

    A 16 MHz board (the clock rate given in the comments of stepper.c) with
    the step bits below the direction bits; used to run the model. *)

(** The expression of [adjust_beam_dynamics] with
    [CONFIG_BEAMDYNAMICS_START] taken to be 0.05, evaluated exactly and
    rounded towards zero as the conversion to [uint8_t] does, where the code
    evaluates it in single precision: with
    [dimm = 0.05 + 0.95 * intensity / 255 = (255 + 19 * intensity) / 5100],
    the value [intensity * ((1 - dimm) + dimm * steps_per_minute / nominal_rate)]. *)
Definition dimmed (intensity nominal_rate steps_per_minute : Z) : Z :=
  let d := 255 + 19 * intensity in
  intensity * ((5100 - d) * nominal_rate + d * steps_per_minute) / (5100 * nominal_rate).

Definition board : config := {|
  F_CPU := 16000000;
  ACCELERATION_TICKS_PER_SECOND := 100;
  MINIMUM_STEPS_PER_MINUTE := 1600;
  CONFIG_PULSE_MICROSECONDS := 5;
  CONFIG_BEAMDYNAMICS_EVERY := 8;
  X_STEP_BIT := 0;
  Y_STEP_BIT := 1;
  Z_STEP_BIT := 2;
  X_DIRECTION_BIT := 3;
  Y_DIRECTION_BIT := 4;
  Z_DIRECTION_BIT := 5;
  STEPPING_MASK := 7;
  DIRECTION_MASK := 56;
  INVERT_MASK := 0;
  LASER_PWM_BIT := 6;
  X1_LIMIT_BIT := 0;
  Y1_LIMIT_BIT := 2;
  Z1_LIMIT_BIT := 4;
  LIMIT_MASK := 63;
  ENABLE_LASER_INTERLOCKS := true;
  ENABLE_3AXES := Some 1;
  STATIC_PWM_FREQ := false;
  DRIVEBOARD_USB := false;
  STOPERROR_OK := 0;
  STOPERROR_LIMIT_HIT_X1 := 1;
  STOPERROR_LIMIT_HIT_X2 := 2;
  STOPERROR_LIMIT_HIT_Y1 := 3;
  STOPERROR_LIMIT_HIT_Y2 := 4;
  STOPERROR_LIMIT_HIT_Z1 := 5;
  STOPERROR_LIMIT_HIT_Z2 := 6;
  beam_dynamics := dimmed
|}.

(** The state after [stepper_init] and [stepper_start_processing] with the
    blocks [q] queued and the raster bytes [raster] received, but for the
    clock-select bits of [TCCR1B], which every block sets anew. *)
Definition armed (q : list block) (raster : list Z) : state := {|
  position_x := 0; position_y := 0; position_z := 0;
  current_block := None;
  out_bits := 0;
  counter_x := 0; counter_y := 0; counter_z := 0;
  step_events_completed := 0;
  busy := false;
  cycles_per_step_event := 600000;
  acceleration_tick_counter := 0;
  adjusted_rate := 0;
  processing_flag := true;
  stop_requested := false;
  stop_status := 0;
  pwm_counter := 1;
  STEPPING_PORT := 0; ASSIST_PORT := 0; TCCR0B := 0; TCNT0 := 0;
  TCCR1B := 12; OCR1A := 9375; TIMSK1 := 2; TCNT2 := 0; TCCR2B := 0;
  planner_queue := q;
  laser_intensity := 0;
  raster_stream := raster;
  serial_stopped := false;
  air_assist := false; aux1_assist := false; aux2_assist := false
|}.

Definition quiet : sense := {|
  SENSE_DOOR_OPEN := false; SENSE_CHILLER_OFF := false;
  SENSE_X1_LIMIT := false; SENSE_X2_LIMIT := false;
  SENSE_Y1_LIMIT := false; SENSE_Y2_LIMIT := false;
  SENSE_Z1_LIMIT := false; SENSE_Z2_LIMIT := false
|}.

Definition diag34 : block := {|
  type := TYPE_LINE; steps_x := 3; steps_y := 4; steps_z := 0;
  direction_bits := 0; step_event_count := 4;
  initial_rate := 60000; nominal_rate := 60000; final_rate := 60000;
  rate_delta := 0; accelerate_until := 0; decelerate_after := 4;
  nominal_laser_intensity := 0; pixel_steps := 0 |}.

Definition raster100 : block := {|
  type := TYPE_RASTER_LINE; steps_x := 100; steps_y := 0; steps_z := 0;
  direction_bits := 0; step_event_count := 100;
  initial_rate := 60000; nominal_rate := 60000; final_rate := 60000;
  rate_delta := 0; accelerate_until := 0; decelerate_after := 100;
  nominal_laser_intensity := 200; pixel_steps := 10 |}.

(** A block of no step event. *)
Definition still : block := {|
  type := TYPE_LINE; steps_x := 0; steps_y := 0; steps_z := 0;
  direction_bits := 0; step_event_count := 0;
  initial_rate := 60000; nominal_rate := 60000; final_rate := 60000;
  rate_delta := 0; accelerate_until := 0; decelerate_after := 0;
  nominal_laser_intensity := 0; pixel_steps := 0 |}.

(** A trapezoid: four step events of acceleration, four of cruise, four of
    deceleration. *)
Definition ramp : block := {|
  type := TYPE_LINE; steps_x := 12; steps_y := 5; steps_z := 0;
  direction_bits := 8; step_event_count := 12;
  initial_rate := 6000; nominal_rate := 60000; final_rate := 6000;
  rate_delta := 3000; accelerate_until := 4; decelerate_after := 8;
  nominal_laser_intensity := 80; pixel_steps := 0 |}.

(** A block entered from standstill, and one that brakes to standstill. *)
Definition crawl : block := {|
  type := TYPE_LINE; steps_x := 4; steps_y := 0; steps_z := 0;
  direction_bits := 0; step_event_count := 4;
  initial_rate := 0; nominal_rate := 60000; final_rate := 0;
  rate_delta := 100; accelerate_until := 4; decelerate_after := 4;
  nominal_laser_intensity := 0; pixel_steps := 0 |}.

Definition halt : block := {|
  type := TYPE_LINE; steps_x := 12; steps_y := 0; steps_z := 0;
  direction_bits := 0; step_event_count := 12;
  initial_rate := 60000; nominal_rate := 60000; final_rate := 0;
  rate_delta := 59000; accelerate_until := 0; decelerate_after := 0;
  nominal_laser_intensity := 0; pixel_steps := 0 |}.

(** The X1 limit switch asserted, everything else quiet. *)
Definition x1_hit : sense := {|
  SENSE_DOOR_OPEN := false; SENSE_CHILLER_OFF := false;
  SENSE_X1_LIMIT := true; SENSE_X2_LIMIT := false;
  SENSE_Y1_LIMIT := false; SENSE_Y2_LIMIT := false;
  SENSE_Z1_LIMIT := false; SENSE_Z2_LIMIT := false
|}.

(** Raster bytes of three pixels. *)
Definition pixels : list Z := [128; 255; 192].

(** [LIMIT_PIN] of a homing run on [board] (switches active low): every
    switch released until iteration [N], the X1 switch asserted from then on. *)
Definition x1_seats_at (N : nat) (t : nat) : Z := if (t <? N)%nat then 63 else 62.


(** * The rest of stepper.c

    The reset interrupts of timers 0 and 2, [stepper_init] and
    [stepper_homing_cycle]. *)

(** Bit numbers of the timer registers [stepper_init] writes (avr/io.h). *)
Definition WGM10 : Z := 0.
Definition WGM11 : Z := 1.
Definition WGM12 : Z := 3.
Definition WGM13 : Z := 4.
Definition COM1A0 : Z := 6.
Definition COM1B0 : Z := 4.
Definition TOIE2 : Z := 0.

(** The registers [stepper_init] writes that the rest of stepper.c leaves
    alone. *)
Record setup_registers : Type := {
  STEPPING_DDR : Z;
  TCCR1A : Z;
  TCCR2A : Z;
  TIMSK2 : Z
}.

Section Stepper_rest.

Variable cfg : config.

(** The PWM reset interrupt, TIMER0_OVF: laser pin off, timer 0 stopped. *)
Definition ISR_TIMER0_OVF (st : state) : state :=
  let st := set_ASSIST_PORT
              (uint8 (Z.land (ASSIST_PORT st) (Z.lnot (Z.shiftl 1 (LASER_PWM_BIT cfg))))) st in
  set_TCCR0B 0 st.

(** The stepper reset interrupt, TIMER2_OVF: step pins back to their idle
    level, timer 2 stopped. *)
Definition ISR_TIMER2_OVF (st : state) : state :=
  let st := set_STEPPING_PORT
              (uint8 (Z.lor (Z.land (STEPPING_PORT st) (Z.lnot (STEPPING_MASK cfg)))
                            (Z.land (INVERT_MASK cfg) (STEPPING_MASK cfg)))) st in
  set_TCCR2B 0 st.

(** [stepper_set_position] rounds [x*CONFIG_X_STEPS_PER_MM] with [lround],
    in floating point; the model takes the rounded step counts [x], [y], [z]
    and stores them in the 32-bit positions. *)
Definition stepper_set_position (x y z : Z) (st : state) : state :=
  let st := set_position_x (int32 x) st in
  let st := set_position_y (int32 y) st in
  set_position_z (int32 z) st.

(** [stepper_init], the origin offsets given in steps. *)
Definition stepper_init (origin_x origin_y origin_z : Z)
    (io : setup_registers) (st : state) : setup_registers * state :=
  let pins := Z.lor (STEPPING_MASK cfg) (DIRECTION_MASK cfg) in
  let ddr := uint8 (Z.lor (STEPPING_DDR io) pins) in
  let st := set_STEPPING_PORT
              (uint8 (Z.lor (Z.land (STEPPING_PORT st) (Z.lnot pins)) (INVERT_MASK cfg))) st in
  let st := set_TCCR1B (uint8 (Z.land (TCCR1B st) (Z.lnot (Z.shiftl 1 WGM13)))) st in
  let st := set_TCCR1B (uint8 (Z.lor (TCCR1B st) (Z.shiftl 1 WGM12))) st in
  let tccr1a := uint8 (Z.land (TCCR1A io) (Z.lnot (Z.shiftl 1 WGM11))) in
  let tccr1a := uint8 (Z.land tccr1a (Z.lnot (Z.shiftl 1 WGM10))) in
  let tccr1a := uint8 (Z.land tccr1a (Z.lnot (Z.shiftl 3 COM1A0))) in
  let tccr1a := uint8 (Z.land tccr1a (Z.lnot (Z.shiftl 3 COM1B0))) in
  let st := set_TCCR2B 0 st in
  let timsk2 := uint8 (Z.lor (TIMSK2 io) (Z.shiftl 1 TOIE2)) in
  let st := adjust_speed cfg (MINIMUM_STEPS_PER_MINUTE cfg) st in
  let st := control_laser_intensity 0 st in
  let st := set_position_z 0 (set_position_y 0 (set_position_x 0 st)) in
  let st := stepper_set_position origin_x origin_y origin_z st in
  let st := set_acceleration_tick_counter 0 st in
  let st := set_current_block None st in
  let st := set_stop_requested false st in
  let st := set_stop_status (STOPERROR_OK cfg) st in
  let st := set_busy false st in
  ({| STEPPING_DDR := ddr; TCCR1A := tccr1a; TCCR2A := 0; TIMSK2 := timsk2 |},
   stepper_stop_processing st).

(** [stepper_homing_cycle]: approach the limit switches, then leave them.
    [approach] and [leave] are the readings of [LIMIT_PIN] in the two
    loops; the Z axis is homed when [ENABLE_3AXES] is defined. *)
Definition stepper_homing_cycle (fuel : nat) (approach leave : nat -> Z) (st : state)
  : list (Z * Z) * list (Z * Z) * option state :=
  let z := match ENABLE_3AXES cfg with Some _ => true | None => false end in
  match Homing.homing_cycle cfg false fuel true true z approach st with
  | (towards, Some st) =>
      let '(away, final) := Homing.homing_cycle cfg true fuel true true z leave st in
      (towards, away, final)
  | (towards, None) => (towards, [], None)
  end.

End Stepper_rest.


(** * Vocabulary of the further properties *)

(** The clock divider chosen by the clock-select bits of timer 0 and of
    timer 1, as the comments of the laser pulse and of [config_step_timer]
    give it: no prescale, /8, /64, /256, /1024. *)
Definition timer_prescale (cs : Z) : Z :=
  if cs =? 1 then 1
  else if cs =? 2 then 8
  else if cs =? 3 then 64
  else if cs =? 4 then 256
  else if cs =? 5 then 1024
  else 0.

(** The port and timer registers the pulses are made with. *)
Definition pins (st : state) : Z * Z * Z * Z * Z * Z * Z :=
  (STEPPING_PORT st, ASSIST_PORT st, TCCR0B st, TCNT0 st, TCNT2 st, TCCR2B st,
   pwm_counter st).

(** The step events of a list of blocks. *)
Fixpoint total_events (bs : list block) : Z :=
  match bs with
  | [] => 0
  | b :: rest => step_event_count b + total_events rest
  end.

Section Further_vocabulary.

Variable cfg : config.

(** A block the line tracer can trace: a line of at least one step event,
    no axis with more steps than step events, no step bit among its
    direction bits. *)
Definition traceable (b : block) : Prop :=
  is_motion b = true /\ 1 <= step_event_count b <= INT32_MAX /\
  (forall a, 0 <= steps_of a b <= step_event_count b) /\
  direction_only cfg b.

(** The steps a list of blocks moves axis [a] by, backwards counted
    negative. *)
Fixpoint displacement (a : axis) (bs : list block) : Z :=
  match bs with
  | [] => 0
  | b :: rest => direction cfg b a * steps_of a b + displacement a rest
  end.

(** The blocks that command the assist outputs. *)
Definition is_command (b : block) : bool := negb (is_motion b).

End Further_vocabulary.

Section Command_vocabulary.

Variable cfg : config.

(** The command blocks the [switch] of the interrupt has a case for: the
    air-assist commands, and the aux-assist commands unless
    [DRIVEBOARD_USB] is defined. *)
Definition has_case (b : block) : bool :=
  match type b with
  | TYPE_LINE | TYPE_RASTER_LINE => false
  | TYPE_AIR_ASSIST_ENABLE | TYPE_AIR_ASSIST_DISABLE => true
  | _ => negb (DRIVEBOARD_USB cfg)
  end.

End Command_vocabulary.

(** ** More concrete inputs *)

(** Command blocks. *)
Definition air_on : block := {|
  type := TYPE_AIR_ASSIST_ENABLE; steps_x := 0; steps_y := 0; steps_z := 0;
  direction_bits := 0; step_event_count := 0;
  initial_rate := 0; nominal_rate := 0; final_rate := 0;
  rate_delta := 0; accelerate_until := 0; decelerate_after := 0;
  nominal_laser_intensity := 0; pixel_steps := 0 |}.

Definition aux1_on : block := {|
  type := TYPE_AUX1_ASSIST_ENABLE; steps_x := 0; steps_y := 0; steps_z := 0;
  direction_bits := 0; step_event_count := 0;
  initial_rate := 0; nominal_rate := 0; final_rate := 0;
  rate_delta := 0; accelerate_until := 0; decelerate_after := 0;
  nominal_laser_intensity := 0; pixel_steps := 0 |}.

(** [board] with [DRIVEBOARD_USB] defined. *)
Definition usb_board : config := {|
  F_CPU := 16000000;
  ACCELERATION_TICKS_PER_SECOND := 100;
  MINIMUM_STEPS_PER_MINUTE := 1600;
  CONFIG_PULSE_MICROSECONDS := 5;
  CONFIG_BEAMDYNAMICS_EVERY := 8;
  X_STEP_BIT := 0;
  Y_STEP_BIT := 1;
  Z_STEP_BIT := 2;
  X_DIRECTION_BIT := 3;
  Y_DIRECTION_BIT := 4;
  Z_DIRECTION_BIT := 5;
  STEPPING_MASK := 7;
  DIRECTION_MASK := 56;
  INVERT_MASK := 0;
  LASER_PWM_BIT := 6;
  X1_LIMIT_BIT := 0;
  Y1_LIMIT_BIT := 2;
  Z1_LIMIT_BIT := 4;
  LIMIT_MASK := 63;
  ENABLE_LASER_INTERLOCKS := true;
  ENABLE_3AXES := Some 1;
  STATIC_PWM_FREQ := false;
  DRIVEBOARD_USB := true;
  STOPERROR_OK := 0;
  STOPERROR_LIMIT_HIT_X1 := 1;
  STOPERROR_LIMIT_HIT_X2 := 2;
  STOPERROR_LIMIT_HIT_Y1 := 3;
  STOPERROR_LIMIT_HIT_Y2 := 4;
  STOPERROR_LIMIT_HIT_Z1 := 5;
  STOPERROR_LIMIT_HIT_Z2 := 6;
  beam_dynamics := dimmed
|}.

(** The door open, no limit switch asserted. *)
Definition door_open : sense := {|
  SENSE_DOOR_OPEN := true; SENSE_CHILLER_OFF := false;
  SENSE_X1_LIMIT := false; SENSE_X2_LIMIT := false;
  SENSE_Y1_LIMIT := false; SENSE_Y2_LIMIT := false;
  SENSE_Z1_LIMIT := false; SENSE_Z2_LIMIT := false
|}.

(** The interrupt is between blocks, about to fetch from the planner
    buffer [q]. *)
Definition waiting_next (q : list block) (st : state) : Prop :=
  busy st = false /\ stop_requested st = false /\
  current_block st = None /\ planner_queue st = q.

(** A position that stayed or moved by one step, with the wrap-around of
    the 32-bit position. *)
Definition one_step (p p' : Z) : Prop :=
  p' = p \/ p' = int32 (p + 1) \/ p' = int32 (p - 1).

Section Profile_vocabulary.

Variable cfg : config.

(** The step timer is set for [adjusted_rate], raised to
    [MINIMUM_STEPS_PER_MINUTE] as [adjust_speed] raises it. *)
Definition timer_in_step (st : state) : Prop :=
  cycles_per_step_event st =
    snd (step_timer_setting
           (CYCLES_PER_MINUTE cfg /
            Z.max (adjusted_rate st) (MINIMUM_STEPS_PER_MINUTE cfg))).

(** The rate a run of the interrupt starts from on block [b]: the rate it
    finds, or the initial rate of the block when it fetches it. *)
Definition rate_before (b : block) (st : state) : Z :=
  match current_block st with
  | Some _ => adjusted_rate st
  | None => initial_rate b
  end.

End Profile_vocabulary.

(** Whether [homing_cycle x y z] homes axis [a]. *)
Definition selected (x y z : bool) (a : axis) : bool :=
  match a with
  | X_AXIS => x
  | Y_AXIS => y
  | Z_AXIS => z
  end.

(** The iterations a homing loop pulses in, when the end-stop of every
    homed axis [a] asserts from iteration [N a] on: six past the last of
    them. *)
Definition homing_pulses (N : axis -> nat) (x y z : bool) : nat :=
  Nat.max (if x then N X_AXIS + 6 else 0)
    (Nat.max (if y then N Y_AXIS + 6 else 0) (if z then N Z_AXIS + 6 else 0)).

(** [LIMIT_PIN] of a homing run on [board]: the X1, Y1 and Z1 switches
    asserted from the iterations [nx], [ny] and [nz] on; the switches are
    active low when approached and, their bits inverted, active high when
    left. *)
Definition seats_at (nx ny nz : nat) (leaving : bool) (t : nat) : Z :=
  let level (n : nat) (bit : Z) :=
    if xorb leaving (t <? n)%nat then Z.shiftl 1 bit else 0 in
  Z.lor (level nx 0) (Z.lor (level ny 2) (level nz 4)).

(** The iterations from which the switches of [seats_at nx ny nz] are
    asserted. *)
Definition seat_times (nx ny nz : nat) (a : axis) : nat :=
  match a with
  | X_AXIS => nx
  | Y_AXIS => ny
  | Z_AXIS => nz
  end.

(** The state before [stepper_init]: the statics zero-initialised
    ([pwm_counter] is initialised to 1), the registers cleared. *)
Definition power_on : state := {|
  position_x := 0; position_y := 0; position_z := 0;
  current_block := None;
  out_bits := 0;
  counter_x := 0; counter_y := 0; counter_z := 0;
  step_events_completed := 0;
  busy := false;
  cycles_per_step_event := 0;
  acceleration_tick_counter := 0;
  adjusted_rate := 0;
  processing_flag := false;
  stop_requested := false;
  stop_status := 0;
  pwm_counter := 1;
  STEPPING_PORT := 0; ASSIST_PORT := 0; TCCR0B := 0; TCNT0 := 0;
  TCCR1B := 0; OCR1A := 0; TIMSK1 := 0; TCNT2 := 0; TCCR2B := 0;
  planner_queue := [];
  laser_intensity := 0;
  raster_stream := [];
  serial_stopped := false;
  air_assist := false; aux1_assist := false; aux2_assist := false
|}.

Definition cleared : setup_registers :=
  {| STEPPING_DDR := 0; TCCR1A := 0; TCCR2A := 0; TIMSK2 := 0 |}.

Section Laser_vocabulary.

Variable cfg : config.

(** The laser intensity is the one [adjust_beam_dynamics] computes for
    [adjusted_rate] on block [b]. *)
Definition laser_in_step (b : block) (st : state) : Prop :=
  laser_intensity st =
    uint8 (beam_dynamics cfg (nominal_laser_intensity b) (nominal_rate b)
             (adjusted_rate st)).

(** A run that neither sees a limit switch nor trips the door or chiller
    interlock. *)
Definition calm (i : sense) : Prop :=
  limit_hit cfg i = None /\
  ENABLE_LASER_INTERLOCKS cfg && (SENSE_DOOR_OPEN i || SENSE_CHILLER_OFF i) = false.

End Laser_vocabulary.

(** A raster line with a ramp of five step events at each end. *)
Definition lead_in : block := {|
  type := TYPE_RASTER_LINE; steps_x := 100; steps_y := 0; steps_z := 0;
  direction_bits := 0; step_event_count := 100;
  initial_rate := 30000; nominal_rate := 60000; final_rate := 30000;
  rate_delta := 6000; accelerate_until := 5; decelerate_after := 95;
  nominal_laser_intensity := 200; pixel_steps := 10 |}.

(** [board] with the step and direction lines of X inverted. *)
Definition inverted_board : config := {|
  F_CPU := 16000000;
  ACCELERATION_TICKS_PER_SECOND := 100;
  MINIMUM_STEPS_PER_MINUTE := 1600;
  CONFIG_PULSE_MICROSECONDS := 5;
  CONFIG_BEAMDYNAMICS_EVERY := 8;
  X_STEP_BIT := 0;
  Y_STEP_BIT := 1;
  Z_STEP_BIT := 2;
  X_DIRECTION_BIT := 3;
  Y_DIRECTION_BIT := 4;
  Z_DIRECTION_BIT := 5;
  STEPPING_MASK := 7;
  DIRECTION_MASK := 56;
  INVERT_MASK := 9;
  LASER_PWM_BIT := 6;
  X1_LIMIT_BIT := 0;
  Y1_LIMIT_BIT := 2;
  Z1_LIMIT_BIT := 4;
  LIMIT_MASK := 63;
  ENABLE_LASER_INTERLOCKS := true;
  ENABLE_3AXES := Some 1;
  STATIC_PWM_FREQ := false;
  DRIVEBOARD_USB := false;
  STOPERROR_OK := 0;
  STOPERROR_LIMIT_HIT_X1 := 1;
  STOPERROR_LIMIT_HIT_X2 := 2;
  STOPERROR_LIMIT_HIT_Y1 := 3;
  STOPERROR_LIMIT_HIT_Y2 := 4;
  STOPERROR_LIMIT_HIT_Z1 := 5;
  STOPERROR_LIMIT_HIT_Z2 := 6;
  beam_dynamics := dimmed
|}.

(** * Properties *)

Arguments uint8 : simpl never.
Arguments uint16 : simpl never.
Arguments uint32 : simpl never.
Arguments int16 : simpl never.
Arguments int32 : simpl never.
Arguments Z.shiftl : simpl never.
Arguments Z.shiftr : simpl never.
Arguments Z.land : simpl never.
Arguments Z.lor : simpl never.
Arguments Z.lxor : simpl never.
Arguments Z.lnot : simpl never.
Arguments Z.testbit : simpl never.
Arguments Z.div : simpl never.
Arguments Z.modulo : simpl never.
Arguments Z.quot : simpl never.
Arguments Z.add : simpl never.
Arguments Z.sub : simpl never.
Arguments Z.mul : simpl never.
Arguments Z.opp : simpl never.
Arguments Z.ltb : simpl never.
Arguments Z.leb : simpl never.
Arguments Z.eqb : simpl never.

(** ** Machine integers within range *)

Lemma uint8_small z : 0 <= z < 256 -> uint8 z = z.
Proof. intros H. unfold uint8, wrap_unsigned. apply Z.mod_small. lia. Qed.

Lemma uint32_small z : 0 <= z <= UINT32_MAX -> uint32 z = z.
Proof. intros H. unfold uint32, wrap_unsigned, UINT32_MAX in *. apply Z.mod_small. lia. Qed.

Lemma int32_small z : - 2147483648 <= z <= INT32_MAX -> int32 z = z.
Proof.
  intros H. unfold int32, wrap_signed, INT32_MAX in *.
  rewrite Z.mod_small; lia.
Qed.

Lemma int32_range z : - 2147483648 <= int32 z <= INT32_MAX.
Proof.
  unfold int32, wrap_signed, INT32_MAX.
  pose proof (Z.mod_pos_bound (z + 2 ^ (32 - 1)) (2 ^ 32) ltac:(lia)). lia.
Qed.

Lemma int32_add_l a b : int32 (int32 a + b) = int32 (a + b).
Proof.
  unfold int32, wrap_signed.
  replace (((a + 2 ^ (32 - 1)) mod 2 ^ 32 - 2 ^ (32 - 1) + b + 2 ^ (32 - 1)))
    with ((a + 2 ^ (32 - 1)) mod 2 ^ 32 + b) by lia.
  rewrite Zplus_mod_idemp_l. f_equal. f_equal. lia.
Qed.

Lemma uint8_range z : 0 <= uint8 z < 256.
Proof. unfold uint8, wrap_unsigned. apply Z.mod_pos_bound. lia. Qed.

Lemma uint8_testbit z n : 0 <= n < 8 -> Z.testbit (uint8 z) n = Z.testbit z n.
Proof. intros H. unfold uint8, wrap_unsigned. apply Z.mod_pow2_bits_low. lia. Qed.

Lemma direction_bit_set_testbit bits bit :
  0 <= bit -> direction_bit_set bits bit = Z.testbit bits bit.
Proof.
  intros H. unfold direction_bit_set.
  rewrite Z.testbit_eqb by assumption.
  change 1 with (Z.ones 1) at 1. rewrite Z.land_ones by lia.
  rewrite Z.shiftr_div_pow2 by assumption. change (2 ^ 1) with 2.
  pose proof (Z.mod_pos_bound (bits / 2 ^ bit) 2 ltac:(lia)).
  destruct (Z.eqb_spec ((bits / 2 ^ bit) mod 2) 0), (Z.eqb_spec ((bits / 2 ^ bit) mod 2) 1);
    cbn; lia.
Qed.

Lemma testbit_set_bit a k n :
  0 <= k -> 0 <= n ->
  Z.testbit (Z.lor a (Z.shiftl 1 k)) n = Z.testbit a n || (n =? k).
Proof.
  intros Hk Hn. rewrite Z.lor_spec, Z.shiftl_spec by assumption.
  f_equal. destruct (Z.eqb_spec n k) as [->|Hne].
  - rewrite Z.sub_diag. reflexivity.
  - destruct (Z.ltb_spec n k).
    + apply Z.testbit_neg_r. lia.
    + change 1 with (2 ^ 0). apply Z.pow2_bits_false. lia.
Qed.

(** ** What each part of the interrupt leaves alone *)

(** Replace the state [t] by a variable, keeping what is known of it. *)
Ltac forget_term t x :=
  let rec go :=
    match goal with
    | H : context [t] |- _ => revert H; go; intro H
    | _ => generalize t; intro x
    end in
  go.

Tactic Notation "forget" uconstr(pat) "as" ident(x) :=
  let tmp := fresh "tmp" in
  set (tmp := pat) in *;
  let t := eval cbv delta [tmp] in tmp in
  subst tmp; forget_term t x.

Ltac split_ifs :=
  repeat match goal with
         | |- context [if ?c then _ else _] => destruct c
         | |- context [let '(_, _) := ?p in _] => destruct p
         | |- context [match type ?b with _ => _ end] => destruct (type b)
         end.

Ltac frame_tac := intros; repeat split; repeat (cbn; split_ifs); reflexivity.

Ltac rewrite_conj F :=
  lazymatch type of F with
  | _ /\ _ =>
      let A := fresh "E" in
      let B := fresh "E" in
      destruct F as [A B]; rewrite_conj A; rewrite_conj B
  | _ => rewrite ?F; clear F
  end.

(** Use a frame lemma [H : R t s]: name the state [t], forget how it was
    computed, and rewrite with the equations of [H]. *)
Ltac frame H :=
  let F := fresh "F" in
  pose proof H as F;
  lazymatch type of F with
  | _ ?t _ => let x := fresh "s" in forget_term t x
  end;
  cbn;
  unfold same_motion, same_elsewhere, same_tracer, same_supervisor, same_feed,
    same_profile in F;
  rewrite_conj F.

Arguments pulse_laser : simpl never.
Arguments pulse_steppers : simpl never.
Arguments honor_interlocks : simpl never.
Arguments config_step_timer : simpl never.
Arguments step_timer_setting : simpl never.
Arguments adjust_speed : simpl never.
Arguments adjust_beam_dynamics : simpl never.
Arguments control_laser_intensity : simpl never.
Arguments acceleration_tick : simpl never.
Arguments apply_rate : simpl never.
Arguments start_line_block : simpl never.
Arguments bresenham_x : simpl never.
Arguments bresenham_y : simpl never.
Arguments bresenham_z : simpl never.
Arguments bresenham : simpl never.
Arguments accelerating : simpl never.
Arguments decelerating : simpl never.
Arguments cruising : simpl never.
Arguments speed_adjustment : simpl never.
Arguments process_block : simpl never.
Arguments stepper_stop_processing : simpl never.
Arguments stepper_request_stop : simpl never.
Arguments ISR_TIMER1_COMPA : simpl never.
Arguments CYCLES_PER_ACCELERATION_TICK : simpl never.
Arguments CYCLES_PER_MINUTE : simpl never.
Arguments CYCLES_PER_MICROSECOND : simpl never.

(** Bit tests of the words the tracer builds. *)
Lemma set_step_bit (p : bool) o k d :
  0 <= k < 8 -> 0 <= d < 8 ->
  Z.testbit (if p then uint8 (Z.lor o (Z.shiftl 1 k)) else o) d =
  Z.testbit o d || (p && (d =? k)).
Proof.
  intros Hk Hd. destruct p.
  - rewrite uint8_testbit, testbit_set_bit by lia. reflexivity.
  - cbn. rewrite orb_false_r. reflexivity.
Qed.

Lemma direction_after_step o k d :
  0 <= k < 8 -> 0 <= d < 8 -> d <> k ->
  direction_bit_set (uint8 (Z.lor o (Z.shiftl 1 k))) d = Z.testbit o d.
Proof.
  intros Hk Hd Hne.
  rewrite direction_bit_set_testbit, uint8_testbit, testbit_set_bit by lia.
  destruct (Z.eqb_spec d k); [lia|]. apply orb_false_r.
Qed.

Lemma unmasked_bit o m k :
  0 <= k < 8 -> Z.testbit (Z.lxor (uint8 (Z.lxor o m)) m) k = Z.testbit o k.
Proof.
  intros Hk. rewrite Z.lxor_spec, uint8_testbit, Z.lxor_spec by assumption.
  destruct (Z.testbit o k), (Z.testbit m k); reflexivity.
Qed.

Lemma eqb_distinct a b : a <> b -> (a =? b) = false.
Proof. apply Z.eqb_neq. Qed.

Section Tracer_arithmetic.

Variables n s : Z.
Hypothesis n_range : 1 <= n <= INT32_MAX.
Hypothesis s_range : 0 <= s <= n.

Lemma tracer_step c :
  - n < c <= 0 ->
  - n < int32 (c + s) <= n /\
  - n < next_counter n s c <= 0 /\
  next_counter n s c = c + s - n * (if pulse c s then 1 else 0).
Proof.
  intros Hc. unfold next_counter, pulse, INT32_MAX in *.
  rewrite (int32_small (c + s)) by (unfold INT32_MAX; lia).
  destruct (Z.ltb_spec 0 (c + s)).
  - rewrite int32_small by (unfold INT32_MAX; lia). lia.
  - lia.
Qed.

Lemma midpoint_range : - n < int32 (- Z.shiftr n 1) <= 0 /\ int32 (- Z.shiftr n 1) = - (n / 2).
Proof.
  unfold INT32_MAX in *.
  rewrite Z.shiftr_div_pow2 by lia. change (2 ^ 1) with 2.
  assert (0 <= n / 2 < n) by (split; [apply Z.div_pos; lia | apply Z.div_lt; lia]).
  rewrite int32_small by (unfold INT32_MAX; lia). lia.
Qed.

Lemma counter_after_spec c0 k :
  - n < c0 <= 0 ->
  - n < counter_after n s c0 k <= 0 /\
  counter_after n s c0 k = c0 + Z.of_nat k * s - n * pulses n s c0 k /\
  0 <= pulses n s c0 k <= Z.of_nat k.
Proof.
  intros Hc. induction k as [|k IH].
  - cbn [counter_after pulses]. lia.
  - destruct IH as (R & E & P).
    destruct (tracer_step _ R) as (_ & R' & E').
    cbn [counter_after pulses]. rewrite Nat2Z.inj_succ.
    destruct (pulse (counter_after n s c0 k) s); lia.
Qed.

(** With the counter started at the midpoint, a block of [n] step events
    pulses the axis exactly [s] times. *)
Lemma pulses_total : pulses n s (int32 (- Z.shiftr n 1)) (Z.to_nat n) = s.
Proof.
  destruct midpoint_range as (R & E).
  destruct (counter_after_spec _ (Z.to_nat n) R) as (R' & E' & P).
  rewrite Z2Nat.id in * by lia.
  set (p := pulses n s (int32 (- Z.shiftr n 1)) (Z.to_nat n)) in *.
  set (c0 := int32 (- Z.shiftr n 1)) in *.
  assert (n * (s - p) < n) by lia.
  assert (- n < n * (s - p)) by lia.
  nia.
Qed.

End Tracer_arithmetic.

Section Properties.

Variable cfg : config.

Local Abbreviation prologue := (prologue cfg).
Local Abbreviation pins_ok := (pins_ok cfg).
Local Abbreviation direction_only := (direction_only cfg).
Local Abbreviation stepped := (stepped cfg).
Local Abbreviation entry := (entry cfg).
Local Abbreviation no_limit := (no_limit cfg).
Local Abbreviation step_pulses := (step_pulses cfg).
Local Abbreviation direction := (direction cfg).

Lemma prologue_tracer i st : same_tracer (prologue i st) st.
Proof.
  unfold same_tracer, prologue, pulse_steppers, pulse_laser, honor_interlocks,
    control_laser_intensity, control_get_intensity.
  frame_tac.
Qed.

Lemma prologue_supervisor i st : same_supervisor (prologue i st) st.
Proof.
  unfold same_supervisor, prologue, pulse_steppers, pulse_laser, honor_interlocks,
    control_laser_intensity, control_get_intensity.
  frame_tac.
Qed.

Lemma prologue_feed i st : same_feed (prologue i st) st.
Proof.
  unfold same_feed, prologue, pulse_steppers, pulse_laser, honor_interlocks,
    control_laser_intensity, control_get_intensity.
  frame_tac.
Qed.

Lemma prologue_profile i st : same_profile (prologue i st) st.
Proof.
  unfold same_profile, prologue, pulse_steppers, pulse_laser, honor_interlocks,
    control_laser_intensity, control_get_intensity.
  frame_tac.
Qed.

Lemma prologue_raster i st : raster_stream (prologue i st) = raster_stream st.
Proof.
  unfold prologue, pulse_steppers, pulse_laser, honor_interlocks,
    control_laser_intensity, control_get_intensity.
  frame_tac.
Qed.

Lemma prologue_busy i st : busy (prologue i st) = true.
Proof.
  unfold prologue, pulse_steppers, pulse_laser, honor_interlocks,
    control_laser_intensity, control_get_intensity.
  frame_tac.
Qed.

(** [apply_rate] reprograms the timer and the laser only. *)
Lemma apply_rate_tracer b st : same_tracer (apply_rate cfg b st) st.
Proof.
  unfold same_tracer, apply_rate, adjust_speed, config_step_timer,
    adjust_beam_dynamics, control_laser_intensity.
  intros; destruct (step_timer_setting _) as [[? ?] ?]; frame_tac.
Qed.

Lemma apply_rate_supervisor b st : same_supervisor (apply_rate cfg b st) st.
Proof.
  unfold same_supervisor, apply_rate, adjust_speed, config_step_timer,
    adjust_beam_dynamics, control_laser_intensity.
  intros; destruct (step_timer_setting _) as [[? ?] ?]; frame_tac.
Qed.

Lemma apply_rate_feed b st : same_feed (apply_rate cfg b st) st.
Proof.
  unfold same_feed, apply_rate, adjust_speed, config_step_timer,
    adjust_beam_dynamics, control_laser_intensity.
  intros; destruct (step_timer_setting _) as [[? ?] ?]; frame_tac.
Qed.

Lemma apply_rate_rest b st :
  adjusted_rate (apply_rate cfg b st) = adjusted_rate st /\
  acceleration_tick_counter (apply_rate cfg b st) = acceleration_tick_counter st /\
  raster_stream (apply_rate cfg b st) = raster_stream st /\
  busy (apply_rate cfg b st) = busy st.
Proof.
  unfold apply_rate, adjust_speed, config_step_timer,
    adjust_beam_dynamics, control_laser_intensity.
  intros; destruct (step_timer_setting _) as [[? ?] ?]; frame_tac.
Qed.

Lemma apply_rate_raster_laser b st :
  type b = TYPE_RASTER_LINE -> laser_intensity (apply_rate cfg b st) = 0.
Proof.
  unfold apply_rate, control_laser_intensity. intros ->. reflexivity.
Qed.

(** *** The line tracer *)

Lemma bresenham_x_elsewhere b st : same_elsewhere (bresenham_x cfg b st) st.
Proof.
  unfold same_elsewhere, same_supervisor, same_feed, same_profile, bresenham_x. frame_tac.
Qed.

Lemma bresenham_y_elsewhere b st : same_elsewhere (bresenham_y cfg b st) st.
Proof.
  unfold same_elsewhere, same_supervisor, same_feed, same_profile, bresenham_y. frame_tac.
Qed.

Lemma bresenham_z_elsewhere b st : same_elsewhere (bresenham_z cfg b st) st.
Proof.
  unfold same_elsewhere, same_supervisor, same_feed, same_profile, bresenham_z. frame_tac.
Qed.

Lemma bresenham_x_tracer b st :
  let p := pulse (counter_x st) (steps_x b) in
  let o := uint8 (Z.lor (out_bits st) (Z.shiftl 1 (X_STEP_BIT cfg))) in
  counter_x (bresenham_x cfg b st) = next_counter (step_event_count b) (steps_x b) (counter_x st) /\
  position_x (bresenham_x cfg b st) =
    next_position (direction_bit_set o (X_DIRECTION_BIT cfg)) p (position_x st) /\
  out_bits (bresenham_x cfg b st) = (if p then o else out_bits st) /\
  counter_y (bresenham_x cfg b st) = counter_y st /\
  counter_z (bresenham_x cfg b st) = counter_z st /\
  position_y (bresenham_x cfg b st) = position_y st /\
  position_z (bresenham_x cfg b st) = position_z st /\
  step_events_completed (bresenham_x cfg b st) = step_events_completed st.
Proof.
  unfold bresenham_x, next_counter, next_position, pulse. frame_tac.
Qed.

Lemma bresenham_y_tracer b st :
  let p := pulse (counter_y st) (steps_y b) in
  let o := uint8 (Z.lor (out_bits st) (Z.shiftl 1 (Y_STEP_BIT cfg))) in
  counter_y (bresenham_y cfg b st) = next_counter (step_event_count b) (steps_y b) (counter_y st) /\
  position_y (bresenham_y cfg b st) =
    next_position (direction_bit_set o (Y_DIRECTION_BIT cfg)) p (position_y st) /\
  out_bits (bresenham_y cfg b st) = (if p then o else out_bits st) /\
  counter_x (bresenham_y cfg b st) = counter_x st /\
  counter_z (bresenham_y cfg b st) = counter_z st /\
  position_x (bresenham_y cfg b st) = position_x st /\
  position_z (bresenham_y cfg b st) = position_z st /\
  step_events_completed (bresenham_y cfg b st) = step_events_completed st.
Proof.
  unfold bresenham_y, next_counter, next_position, pulse. frame_tac.
Qed.

Lemma bresenham_z_tracer b st :
  let p := pulse (counter_z st) (steps_z b) in
  let o := uint8 (Z.lor (out_bits st) (Z.shiftl 1 (Z_STEP_BIT cfg))) in
  counter_z (bresenham_z cfg b st) = next_counter (step_event_count b) (steps_z b) (counter_z st) /\
  position_z (bresenham_z cfg b st) =
    next_position (direction_bit_set o (Z_DIRECTION_BIT cfg)) p (position_z st) /\
  out_bits (bresenham_z cfg b st) = (if p then o else out_bits st) /\
  counter_x (bresenham_z cfg b st) = counter_x st /\
  counter_y (bresenham_z cfg b st) = counter_y st /\
  position_x (bresenham_z cfg b st) = position_x st /\
  position_y (bresenham_z cfg b st) = position_y st /\
  step_events_completed (bresenham_z cfg b st) = step_events_completed st.
Proof.
  unfold bresenham_z, next_counter, next_position, pulse. frame_tac.
Qed.

Lemma bresenham_elsewhere b st : same_elsewhere (bresenham cfg b st) st.
Proof.
  unfold bresenham. cbv zeta.
  unfold same_elsewhere, same_supervisor, same_feed, same_profile.
  frame (bresenham_z_elsewhere b
           (bresenham_y cfg b (bresenham_x cfg b (set_out_bits (uint8 (direction_bits b)) st)))).
  frame (bresenham_y_elsewhere b (bresenham_x cfg b (set_out_bits (uint8 (direction_bits b)) st))).
  frame (bresenham_x_elsewhere b (set_out_bits (uint8 (direction_bits b)) st)).
  cbn. repeat split.
Qed.

Ltac tracer_calls b st :=
  pose proof (bresenham_z_tracer b
    (bresenham_y cfg b (bresenham_x cfg b (set_out_bits (uint8 (direction_bits b)) st))))
    as (Z1 & Z2 & Z3 & Z4 & Z5 & Z6 & Z7 & Z8);
  forget (bresenham_z cfg b _) as s3;
  pose proof (bresenham_y_tracer b
    (bresenham_x cfg b (set_out_bits (uint8 (direction_bits b)) st)))
    as (Y1 & Y2 & Y3 & Y4 & Y5 & Y6 & Y7 & Y8);
  forget (bresenham_y cfg b _) as s2;
  pose proof (bresenham_x_tracer b (set_out_bits (uint8 (direction_bits b)) st))
    as (X1 & X2 & X3 & X4 & X5 & X6 & X7 & X8);
  forget (bresenham_x cfg b _) as s1;
  cbn in *;
  rewrite ?Z1, ?Z2, ?Z3, ?Z4, ?Z5, ?Z6, ?Z7, ?Z8;
  rewrite ?Y1, ?Y2, ?Y3, ?Y4, ?Y5, ?Y6, ?Y7, ?Y8;
  rewrite ?X1, ?X2, ?X3, ?X4, ?X5, ?X6, ?X7, ?X8.

Lemma bresenham_counters b st :
  (forall a, counter_of a (bresenham cfg b st) =
             next_counter (step_event_count b) (steps_of a b) (counter_of a st)) /\
  step_events_completed (bresenham cfg b st) = uint32 (step_events_completed st + 1).
Proof.
  unfold bresenham. cbv zeta.
  assert (G : (counter_x (bresenham_z cfg b (bresenham_y cfg b (bresenham_x cfg b
                 (set_out_bits (uint8 (direction_bits b)) st)))) =
               next_counter (step_event_count b) (steps_x b) (counter_x st) /\
               counter_y (bresenham_z cfg b (bresenham_y cfg b (bresenham_x cfg b
                 (set_out_bits (uint8 (direction_bits b)) st)))) =
               next_counter (step_event_count b) (steps_y b) (counter_y st) /\
               counter_z (bresenham_z cfg b (bresenham_y cfg b (bresenham_x cfg b
                 (set_out_bits (uint8 (direction_bits b)) st)))) =
               next_counter (step_event_count b) (steps_z b) (counter_z st)) /\
              step_events_completed (bresenham_z cfg b (bresenham_y cfg b (bresenham_x cfg b
                 (set_out_bits (uint8 (direction_bits b)) st)))) =
              step_events_completed st).
  { tracer_calls b st. repeat split. }
  forget (bresenham_z cfg b _) as s3.
  destruct G as ((Gx & Gy & Gz) & Ge). cbn.
  split; [intros []; cbn; assumption | rewrite Ge; reflexivity].
Qed.

Lemma bresenham_tracer b st :
  pins_ok -> direction_only b ->
  let st' := bresenham cfg b st in
  forall a,
    stepper_position st' a =
      next_position (Z.testbit (direction_bits b) (DIRECTION_BIT cfg a))
        (pulse (counter_of a st) (steps_of a b)) (stepper_position st a) /\
    stepped (STEP_BIT cfg a) st' = pulse (counter_of a st) (steps_of a b).
Proof.
  intros ((Rxs & Rys & Rzs & Rxd & Ryd & Rzd) & (Sxy & Sxz & Syz) &
          (Dxx & Dxy & Dxz & Dyx & Dyy & Dyz & Dzx & Dzy & Dzz))
         (Hd & Dx & Dy & Dz) st'.
  subst st'.
  unfold stepped, bresenham. cbv zeta.
  assert (G :
    let s3 := bresenham_z cfg b (bresenham_y cfg b (bresenham_x cfg b
                 (set_out_bits (uint8 (direction_bits b)) st))) in
    (position_x s3 =
       next_position (Z.testbit (direction_bits b) (X_DIRECTION_BIT cfg))
         (pulse (counter_x st) (steps_x b)) (position_x st) /\
     position_y s3 =
       next_position (Z.testbit (direction_bits b) (Y_DIRECTION_BIT cfg))
         (pulse (counter_y st) (steps_y b)) (position_y st) /\
     position_z s3 =
       next_position (Z.testbit (direction_bits b) (Z_DIRECTION_BIT cfg))
         (pulse (counter_z st) (steps_z b)) (position_z st)) /\
    (Z.testbit (Z.lxor (uint8 (Z.lxor (out_bits s3) (INVERT_MASK cfg))) (INVERT_MASK cfg))
       (X_STEP_BIT cfg) = pulse (counter_x st) (steps_x b) /\
     Z.testbit (Z.lxor (uint8 (Z.lxor (out_bits s3) (INVERT_MASK cfg))) (INVERT_MASK cfg))
       (Y_STEP_BIT cfg) = pulse (counter_y st) (steps_y b) /\
     Z.testbit (Z.lxor (uint8 (Z.lxor (out_bits s3) (INVERT_MASK cfg))) (INVERT_MASK cfg))
       (Z_STEP_BIT cfg) = pulse (counter_z st) (steps_z b))).
  { cbv zeta. tracer_calls b st.
    rewrite (uint8_small (direction_bits b)) by assumption.
    assert (Exy := eqb_distinct _ _ Sxy). assert (Exz := eqb_distinct _ _ Sxz).
    assert (Eyz := eqb_distinct _ _ Syz).
    assert (Eyx : (Y_STEP_BIT cfg =? X_STEP_BIT cfg) = false) by (apply Z.eqb_neq; congruence).
    assert (Ezx : (Z_STEP_BIT cfg =? X_STEP_BIT cfg) = false) by (apply Z.eqb_neq; congruence).
    assert (Ezy : (Z_STEP_BIT cfg =? Y_STEP_BIT cfg) = false) by (apply Z.eqb_neq; congruence).
    repeat split.
    - f_equal. apply direction_after_step; assumption.
    - f_equal. rewrite direction_after_step, set_step_bit by assumption.
      rewrite (eqb_distinct _ _ Dyx), andb_false_r. apply orb_false_r.
    - f_equal. rewrite direction_after_step, !set_step_bit by assumption.
      rewrite (eqb_distinct _ _ Dzx), (eqb_distinct _ _ Dzy), !andb_false_r, !orb_false_r.
      reflexivity.
    - rewrite unmasked_bit, !set_step_bit by assumption.
      rewrite Dx, Exy, Exz, Z.eqb_refl, !andb_false_r, !orb_false_r, andb_true_r.
      reflexivity.
    - rewrite unmasked_bit, !set_step_bit by assumption.
      rewrite Dy, Eyx, Eyz, Z.eqb_refl, !andb_false_r, !orb_false_r, andb_true_r.
      reflexivity.
    - rewrite unmasked_bit, !set_step_bit by assumption.
      rewrite Dz, Ezx, Ezy, Z.eqb_refl, !andb_false_r, !orb_false_r, andb_true_r.
      reflexivity. }
  cbv zeta in G. forget (bresenham_z cfg b _) as s3.
  destruct G as ((Gx & Gy & Gz) & (Hx & Hy & Hz)). cbn.
  intros []; cbn; auto.
Qed.

(** *** The speed profile *)

Lemma apply_rate_motion b st : same_motion (apply_rate cfg b st) st.
Proof.
  unfold same_motion. pose proof (apply_rate_rest b st) as (_ & _ & _ & B).
  auto using apply_rate_tracer, apply_rate_supervisor, apply_rate_feed.
Qed.

Lemma acceleration_tick_frame st :
  let s' := snd (acceleration_tick cfg st) in
  same_motion s' st /\ adjusted_rate s' = adjusted_rate st /\
  cycles_per_step_event s' = cycles_per_step_event st /\
  laser_intensity s' = laser_intensity st /\ raster_stream s' = raster_stream st.
Proof.
  unfold acceleration_tick, same_motion, same_tracer, same_supervisor, same_feed.
  frame_tac.
Qed.

Lemma accelerating_frame b st :
  let s' := accelerating cfg b st in
  same_motion s' st /\ raster_stream s' = raster_stream st /\
  (adjusted_rate s' = adjusted_rate st \/
   adjusted_rate s' = accelerated b (adjusted_rate st)).
Proof.
  unfold accelerating.
  pose proof (acceleration_tick_frame st) as (M & R & _ & _ & S).
  destruct (acceleration_tick cfg st) as [tick s1]. cbn in M, R, S.
  destruct tick; cbv zeta.
  - match goal with
    | |- context [apply_rate cfg b ?s] =>
        assert (M2 : same_motion s st /\ raster_stream s = raster_stream st /\
                     adjusted_rate s = accelerated b (adjusted_rate st)); [|forget_term s s2]
    end.
    { unfold accelerated. cbn. rewrite R.
      unfold same_motion, same_tracer, same_supervisor, same_feed in *.
      destruct (nominal_rate b <? _); cbn; intuition congruence. }
    destruct M2 as (M2 & S2 & R2).
    pose proof (apply_rate_motion b s2) as M3.
    pose proof (apply_rate_rest b s2) as (R3 & _ & S3 & _).
    forget (apply_rate cfg b s2) as s3.
    unfold same_motion, same_tracer, same_supervisor, same_feed in *.
    intuition congruence.
  - intuition.
Qed.

Lemma decelerating_frame b st :
  let s' := decelerating cfg b st in
  same_motion s' st /\ raster_stream s' = raster_stream st /\
  (adjusted_rate s' = adjusted_rate st \/
   adjusted_rate s' = decelerated b (adjusted_rate st)).
Proof.
  unfold decelerating.
  pose proof (acceleration_tick_frame st) as (M & R & _ & _ & S).
  destruct (acceleration_tick cfg st) as [tick s1]. cbn in M, R, S.
  destruct tick; cbv zeta.
  - match goal with
    | |- context [apply_rate cfg b ?s] =>
        assert (M2 : same_motion s st /\ raster_stream s = raster_stream st /\
                     adjusted_rate s = decelerated b (adjusted_rate st)); [|forget_term s s2]
    end.
    { unfold decelerated. rewrite <- R.
      unfold same_motion, same_tracer, same_supervisor, same_feed in *.
      destruct (rate_delta b <? adjusted_rate s1); cbn;
        match goal with |- context [if ?c then _ else _] => destruct c end;
        cbn; intuition congruence. }
    destruct M2 as (M2 & S2 & R2).
    pose proof (apply_rate_motion b s2) as M3.
    pose proof (apply_rate_rest b s2) as (R3 & _ & S3 & _).
    forget (apply_rate cfg b s2) as s3.
    unfold same_motion, same_tracer, same_supervisor, same_feed in *.
    intuition congruence.
  - intuition.
Qed.

Lemma cruising_frame b st :
  let s' := cruising cfg b st in
  same_motion s' st /\ adjusted_rate s' = nominal_rate b /\
  (type b = TYPE_RASTER_LINE ->
   raster_stream s' =
     (if step_events_completed st mod pixel_steps b =? 0
      then tl (raster_stream st) else raster_stream st) /\
   (step_events_completed st mod pixel_steps b = 0 ->
    laser_intensity s' =
      uint8 (raster_intensity (hd 0 (raster_stream st)) (nominal_laser_intensity b)))).
Proof.
  unfold cruising. cbv zeta.
  match goal with
  | |- context [step_events_completed ?s mod _] =>
      assert (M1 : same_motion s st /\ adjusted_rate s = nominal_rate b /\
                   raster_stream s = raster_stream st); [|forget_term s s1]
  end.
  { destruct (Z.eqb_spec (adjusted_rate st) (nominal_rate b)) as [E|E]; cbn.
    - unfold same_motion, same_tracer, same_supervisor, same_feed. intuition.
    - pose proof (apply_rate_motion b (set_adjusted_rate (nominal_rate b) st)) as M.
      pose proof (apply_rate_rest b (set_adjusted_rate (nominal_rate b) st)) as (R & _ & S & _).
      forget (apply_rate cfg b _) as s2. cbn in *.
      unfold same_motion, same_tracer, same_supervisor, same_feed in *.
      intuition congruence. }
  destruct M1 as (M1 & R1 & S1).
  assert (Ev : step_events_completed s1 = step_events_completed st)
    by (unfold same_motion, same_tracer in M1; intuition).
  destruct (type b) eqn:T; try (split; [exact M1|split; [exact R1|discriminate]]).
  rewrite Ev. unfold serial_raster_read, control_laser_intensity.
  destruct (Z.eqb_spec (step_events_completed st mod pixel_steps b) 0) as [E|E]; cbn.
  - unfold same_motion, same_tracer, same_supervisor, same_feed in *.
    rewrite S1. intuition congruence.
  - unfold same_motion, same_tracer, same_supervisor, same_feed in *.
    intuition congruence.
Qed.

Lemma speed_adjustment_frame b st :
  let s' := speed_adjustment cfg b st in
  same_tracer s' st /\ same_supervisor s' st /\ busy s' = busy st /\
  (if step_events_completed st <? step_event_count b
   then same_feed s' st
   else current_block s' = None /\ planner_queue s' = tl (planner_queue st)) /\
  (adjusted_rate s' = adjusted_rate st \/
   adjusted_rate s' = accelerated b (adjusted_rate st) \/
   adjusted_rate s' = decelerated b (adjusted_rate st) \/
   adjusted_rate s' = nominal_rate b).
Proof.
  unfold speed_adjustment.
  destruct (step_events_completed st <? step_event_count b).
  - destruct (step_events_completed st <? accelerate_until b).
    { pose proof (accelerating_frame b st) as (M & _ & R).
      unfold same_motion in M. cbv zeta. intuition. }
    destruct (step_events_completed st =? decelerate_after b).
    { cbn. unfold same_tracer, same_supervisor, same_feed. intuition. }
    destruct (decelerate_after b <=? step_events_completed st).
    { pose proof (decelerating_frame b st) as (M & _ & R).
      unfold same_motion in M. cbv zeta. intuition. }
    pose proof (cruising_frame b st) as (M & R & _).
    unfold same_motion in M. cbv zeta. intuition.
  - unfold planner_discard_current_block, serial_consume_data.
    unfold same_tracer, same_supervisor.
    destruct (type b); cbn; intuition.
Qed.

Lemma speed_adjustment_cruise b st :
  step_events_completed st < step_event_count b ->
  accelerate_until b <= step_events_completed st < decelerate_after b ->
  speed_adjustment cfg b st = cruising cfg b st.
Proof.
  intros H1 H2. unfold speed_adjustment.
  destruct (Z.ltb_spec (step_events_completed st) (step_event_count b)); [|lia].
  destruct (Z.ltb_spec (step_events_completed st) (accelerate_until b)); [lia|].
  destruct (Z.eqb_spec (step_events_completed st) (decelerate_after b)); [lia|].
  destruct (Z.leb_spec (decelerate_after b) (step_events_completed st)); [lia|].
  reflexivity.
Qed.

(** *** One run of the interrupt on a motion block *)

Lemma start_line_block_frame b st :
  let s' := start_line_block cfg b st in
  (forall a, counter_of a s' = int32 (- Z.shiftr (step_event_count b) 1)) /\
  (forall a, stepper_position s' a = stepper_position st a) /\
  step_events_completed s' = 0 /\
  adjusted_rate s' = initial_rate b /\
  same_supervisor s' st /\ same_feed s' st /\ busy s' = busy st /\
  raster_stream s' = raster_stream st.
Proof.
  unfold start_line_block. cbv zeta.
  pose proof (apply_rate_motion b
    (set_acceleration_tick_counter (CYCLES_PER_ACCELERATION_TICK cfg / 2)
       (set_adjusted_rate (initial_rate b) st))) as M.
  pose proof (apply_rate_rest b
    (set_acceleration_tick_counter (CYCLES_PER_ACCELERATION_TICK cfg / 2)
       (set_adjusted_rate (initial_rate b) st))) as (R & _ & S & _).
  forget (apply_rate cfg b _) as s1.
  unfold same_motion, same_tracer, same_supervisor, same_feed in *. cbn in *.
  repeat split; try (intros []; cbn); intuition congruence.
Qed.

Lemma ISR_motion b q i st :
  feeding b q st -> is_motion b = true -> limit_hit cfg i = None ->
  ISR_TIMER1_COMPA cfg i st =
  set_busy false (speed_adjustment cfg b (bresenham cfg b (entry b i st))).
Proof.
  intros (Hb & Hs & Hq & Hc) Hm Hl.
  unfold ISR_TIMER1_COMPA, entry. rewrite Hb. cbv zeta.
  assert (E : stop_requested (set_busy true st) = false) by exact Hs.
  rewrite E, Hl. clear E.
  fold (prologue i st).
  destruct (prologue_feed i st) as [E1 E2].
  unfold planner_get_current_block. rewrite E1, E2, Hq.
  unfold is_motion in Hm. unfold process_block.
  destruct Hc as [Hc|Hc]; rewrite Hc; cbn [hd_error].
  - unfold is_motion. destruct (type b); try discriminate; reflexivity.
  - destruct (type b); try discriminate; reflexivity.
Qed.

Lemma entry_frame b q i st :
  feeding b q st ->
  let e := entry b i st in
  same_supervisor e st /\ busy e = true /\
  current_block e = Some b /\ planner_queue e = b :: q /\
  raster_stream e = raster_stream st /\
  (forall a, stepper_position e a = stepper_position st a) /\
  match current_block st with
  | Some _ =>
      (forall a, counter_of a e = counter_of a st) /\
      step_events_completed e = step_events_completed st /\
      adjusted_rate e = adjusted_rate st
  | None =>
      (forall a, counter_of a e = int32 (- Z.shiftr (step_event_count b) 1)) /\
      step_events_completed e = 0 /\
      adjusted_rate e = initial_rate b
  end.
Proof.
  intros (Hb & Hs & Hq & Hc). unfold entry. cbv zeta.
  pose proof (prologue_tracer i st) as T.
  pose proof (prologue_supervisor i st) as S.
  pose proof (prologue_feed i st) as F.
  pose proof (prologue_profile i st) as P.
  pose proof (prologue_raster i st) as R.
  pose proof (prologue_busy i st) as B.
  forget (prologue i st) as s1.
  destruct Hc as [Hc|Hc]; rewrite Hc.
  - pose proof (start_line_block_frame b (set_current_block (Some b) s1))
      as (C & Q & Ev & A & S2 & F2 & B2 & R2).
    forget (start_line_block cfg b _) as s2.
    pose proof (C X_AXIS) as Cx. pose proof (C Y_AXIS) as Cy. pose proof (C Z_AXIS) as Cz.
    unfold same_tracer, same_supervisor, same_feed, same_profile in *. cbn in *.
    repeat split; try (intros a; rewrite ?Q; destruct a; cbn); intuition congruence.
  - unfold same_tracer, same_supervisor, same_feed, same_profile in *.
    repeat split; try (intros []; cbn); intuition congruence.
Qed.

Lemma ISR_event b q i st :
  feeding b q st -> is_motion b = true -> limit_hit cfg i = None ->
  let e := entry b i st in
  let st' := ISR_TIMER1_COMPA cfg i st in
  let n := step_event_count b in
  (forall a, counter_of a st' = next_counter n (steps_of a b) (counter_of a e)) /\
  step_events_completed st' = uint32 (step_events_completed e + 1) /\
  busy st' = false /\ same_supervisor st' st /\
  (if step_events_completed st' <? n
   then current_block st' = Some b /\ planner_queue st' = b :: q
   else current_block st' = None /\ planner_queue st' = q) /\
  (adjusted_rate st' = adjusted_rate e \/
   adjusted_rate st' = accelerated b (adjusted_rate e) \/
   adjusted_rate st' = decelerated b (adjusted_rate e) \/
   adjusted_rate st' = nominal_rate b).
Proof.
  intros Hf Hm Hl. cbv zeta.
  rewrite (ISR_motion b q i st Hf Hm Hl).
  pose proof (entry_frame b q i st Hf) as (S0 & _ & C0 & Q0 & _).
  forget (entry b i st) as e.
  pose proof (bresenham_counters b e) as (C1 & E1).
  pose proof (bresenham_elsewhere b e) as (S1 & F1 & R1 & _).
  forget (bresenham cfg b e) as s1.
  pose proof (speed_adjustment_frame b s1) as (T2 & S2 & _ & F2 & R2).
  forget (speed_adjustment cfg b s1) as s2.
  unfold same_tracer, same_supervisor, same_feed, same_profile in *. cbn.
  destruct T2 as (T21 & T22 & T23 & T24 & T25 & T26 & T27 & T28).
  rewrite T28.
  split; [|split; [|split; [|split; [|split]]]].
  - intros a. rewrite <- C1. destruct a; cbn; assumption.
  - congruence.
  - reflexivity.
  - intuition congruence.
  - destruct (step_events_completed s1 <? step_event_count b).
    + intuition congruence.
    + destruct F2 as [-> ->], F1 as [_ ->]. rewrite Q0. auto.
  - destruct R1 as (<- & _). exact R2.
Qed.

Lemma ISR_event_pulses b q i st :
  pins_ok -> direction_only b ->
  feeding b q st -> is_motion b = true -> limit_hit cfg i = None ->
  let e := entry b i st in
  let st' := ISR_TIMER1_COMPA cfg i st in
  forall a,
    stepper_position st' a =
      next_position (Z.testbit (direction_bits b) (DIRECTION_BIT cfg a))
        (pulse (counter_of a e) (steps_of a b)) (stepper_position st a) /\
    stepped (STEP_BIT cfg a) st' = pulse (counter_of a e) (steps_of a b).
Proof.
  intros Hp Hd Hf Hm Hl. cbv zeta.
  rewrite (ISR_motion b q i st Hf Hm Hl).
  pose proof (entry_frame b q i st Hf) as (_ & _ & _ & _ & _ & P0 & _).
  forget (entry b i st) as e.
  pose proof (bresenham_tracer b e Hp Hd) as T1. cbv zeta in T1.
  unfold stepped in *.
  forget (bresenham cfg b e) as s1.
  pose proof (speed_adjustment_frame b s1) as (T2 & _).
  forget (speed_adjustment cfg b s1) as s2.
  unfold same_tracer in *. cbn.
  destruct T2 as (T21 & T22 & T23 & T24 & T25 & T26 & T27 & T28).
  intros a. destruct (T1 a) as (Pa & Sa). rewrite <- P0, <- Pa, <- Sa, T21.
  destruct a; cbn; auto.
Qed.

(** *** Tracing a block to completion *)

Lemma run_isr_app ins i st :
  run_isr cfg (ins ++ [i]) st = ISR_TIMER1_COMPA cfg i (run_isr cfg ins st).
Proof.
  revert st. induction ins as [|j ins IH]; intros st; cbn [run_isr app]; auto.
Qed.

Lemma trace_isr_app ins i st :
  trace_isr cfg (ins ++ [i]) st =
  trace_isr cfg ins st ++ [ISR_TIMER1_COMPA cfg i (run_isr cfg ins st)].
Proof.
  revert st. induction ins as [|j ins IH]; intros st; cbn [trace_isr run_isr app].
  - reflexivity.
  - rewrite IH. reflexivity.
Qed.

Lemma trace_isr_length ins st : length (trace_isr cfg ins st) = length ins.
Proof.
  revert st. induction ins as [|j ins IH]; intros st; cbn [trace_isr length]; auto.
Qed.

Lemma waiting_feeding b q st : waiting b q st -> feeding b q st.
Proof. unfold waiting, feeding. intuition. Qed.

Lemma progress_feeding b q k st :
  progress b q k st -> k < step_event_count b ->
  feeding b q st /\ current_block st = Some b.
Proof.
  unfold progress, feeding. intros (B & S & E & F) Hk.
  destruct (Z.ltb_spec k (step_event_count b)); [|lia]. intuition.
Qed.

Lemma first_event b q i st :
  waiting b q st -> is_motion b = true -> no_limit i ->
  0 <= step_event_count b <= INT32_MAX ->
  progress b q 1 (ISR_TIMER1_COMPA cfg i st).
Proof.
  intros W Hm Hl Hn.
  pose proof (ISR_event b q i st (waiting_feeding _ _ _ W) Hm Hl) as (_ & E & B & S & F & _).
  pose proof (entry_frame b q i st (waiting_feeding _ _ _ W)) as (_ & _ & _ & _ & _ & _ & M).
  destruct W as (_ & Hs & Hc & _). rewrite Hc in M. destruct M as (_ & E0 & _).
  cbv zeta in *. rewrite E0 in E. change (uint32 (0 + 1)) with 1 in E.
  unfold progress, same_supervisor in *. rewrite E in F. intuition congruence.
Qed.

Lemma next_event b q k i st :
  progress b q k st -> is_motion b = true -> no_limit i ->
  1 <= k < step_event_count b -> step_event_count b <= INT32_MAX ->
  progress b q (k + 1) (ISR_TIMER1_COMPA cfg i st).
Proof.
  intros P Hm Hl Hk Hn.
  destruct (progress_feeding _ _ _ _ P ltac:(lia)) as (Hf & Hc).
  pose proof (ISR_event b q i st Hf Hm Hl) as (_ & E & B & S & F & _).
  pose proof (entry_frame b q i st Hf) as (_ & _ & _ & _ & _ & _ & M).
  rewrite Hc in M. destruct M as (_ & E0 & _).
  destruct P as (_ & Hs & Hev & _).
  cbv zeta in *. rewrite E0, Hev in E.
  rewrite uint32_small in E by (unfold INT32_MAX, UINT32_MAX in *; lia).
  unfold progress, same_supervisor in *. rewrite E in F. intuition congruence.
Qed.

(** Invariants of a block's trace: [P tr st] is shown of the trace [tr] of
    the runs so far and of the state [st] they leave. *)
Lemma trace_invariant b q st0 (P : list state -> state -> Prop) :
  is_motion b = true -> 1 <= step_event_count b <= INT32_MAX ->
  waiting b q st0 ->
  (forall i, no_limit i ->
     P [ISR_TIMER1_COMPA cfg i st0] (ISR_TIMER1_COMPA cfg i st0)) ->
  (forall i tr st,
     1 <= Z.of_nat (length tr) < step_event_count b ->
     progress b q (Z.of_nat (length tr)) st -> P tr st -> no_limit i ->
     P (tr ++ [ISR_TIMER1_COMPA cfg i st]) (ISR_TIMER1_COMPA cfg i st)) ->
  forall ins,
    Forall no_limit ins -> 1 <= Z.of_nat (length ins) <= step_event_count b ->
    progress b q (Z.of_nat (length ins)) (run_isr cfg ins st0) /\
    P (trace_isr cfg ins st0) (run_isr cfg ins st0).
Proof.
  intros Hm Hn W Base Step ins.
  induction ins as [|i ins IH] using rev_ind; intros Hl Hlen.
  - cbn in Hlen. lia.
  - apply Forall_app in Hl. destruct Hl as (Hl & Hi).
    inversion Hi as [|? ? Hi' _]; subst.
    rewrite run_isr_app, trace_isr_app.
    rewrite length_app, Nat2Z.inj_add in *. cbn [length] in *.
    destruct ins as [|j ins'].
    + cbn [run_isr trace_isr app length]. split.
      * apply first_event; auto. lia.
      * apply Base; assumption.
    + assert (1 <= Z.of_nat (length (j :: ins'))) by (cbn [length]; lia).
      destruct IH as (Pr & HP); [assumption | lia |].
      split.
      * change (Z.of_nat 1) with 1. apply next_event; auto; lia.
      * apply Step; auto.
        -- rewrite trace_isr_length. lia.
        -- rewrite trace_isr_length. exact Pr.
Qed.

(** The counters the tracer starts a step event from. *)
Lemma entry_counters b q i st k :
  is_motion b = true -> 1 <= step_event_count b <= INT32_MAX ->
  (waiting b q st /\ k = 0 \/
   progress b q k st /\ 1 <= k < step_event_count b /\
   forall a, - step_event_count b < counter_of a st <= 0) ->
  feeding b q st /\
  step_events_completed (entry b i st) = k /\
  forall a,
    - step_event_count b < counter_of a (entry b i st) <= 0 /\
    (k = 0 -> counter_of a (entry b i st) = - (step_event_count b / 2)).
Proof.
  intros Hm Hn [(W & ->)|(Pr & Hk & C)].
  - pose proof (entry_frame b q i st (waiting_feeding _ _ _ W)) as (_ & _ & _ & _ & _ & _ & M).
    assert (Hc : current_block st = None) by (unfold waiting in W; intuition).
    rewrite Hc in M. destruct M as (C & E & _).
    split; [apply waiting_feeding; assumption|]. split; [assumption|].
    intros a. rewrite C.
    destruct (midpoint_range (step_event_count b) Hn) as (R & Mid). auto.
  - destruct (progress_feeding _ _ _ _ Pr ltac:(lia)) as (Hf & Hc).
    pose proof (entry_frame b q i st Hf) as (_ & _ & _ & _ & _ & _ & M).
    rewrite Hc in M. destruct M as (C' & E & _).
    split; [assumption|]. split; [unfold progress in Pr; intuition congruence|].
    intros a. rewrite C'. split; [apply C | lia].
Qed.

Lemma counters_in_range b q st0 :
  is_motion b = true -> 1 <= step_event_count b <= INT32_MAX ->
  (forall a, 0 <= steps_of a b <= step_event_count b) ->
  waiting b q st0 ->
  forall ins,
    Forall no_limit ins -> 1 <= Z.of_nat (length ins) <= step_event_count b ->
    progress b q (Z.of_nat (length ins)) (run_isr cfg ins st0) /\
    forall a, - step_event_count b < counter_of a (run_isr cfg ins st0) <= 0.
Proof.
  intros Hm Hn Hs W.
  apply (trace_invariant b q st0
           (fun _ st => forall a, - step_event_count b < counter_of a st <= 0));
    try assumption.
  - intros i Hi a.
    destruct (entry_counters b q i st0 0 Hm Hn (or_introl (conj W eq_refl))) as (Hf & _ & C).
    pose proof (ISR_event b q i st0 Hf Hm Hi) as (N & _). cbv zeta in N.
    rewrite N. apply tracer_step; [assumption | apply Hs | apply C].
  - intros i tr st Hk Pr C Hi a.
    destruct (entry_counters b q i st _ Hm Hn (or_intror (conj Pr (conj Hk C)))) as (Hf & _ & C').
    pose proof (ISR_event b q i st Hf Hm Hi) as (N & _). cbv zeta in N.
    rewrite N. apply tracer_step; [assumption | apply Hs | apply C'].
Qed.

(** The state before the step event that follows the runs [ins]. *)
Lemma before_event b q st0 ins :
  is_motion b = true -> 1 <= step_event_count b <= INT32_MAX ->
  (forall a, 0 <= steps_of a b <= step_event_count b) ->
  waiting b q st0 -> Forall no_limit ins ->
  Z.of_nat (length ins) < step_event_count b ->
  let st := run_isr cfg ins st0 in
  let k := Z.of_nat (length ins) in
  waiting b q st /\ k = 0 \/
  progress b q k st /\ 1 <= k < step_event_count b /\
  forall a, - step_event_count b < counter_of a st <= 0.
Proof.
  intros Hm Hn Hs W Hl Hlen. cbv zeta.
  destruct ins as [|j ins'].
  - left. cbn. auto.
  - right.
    assert (1 <= Z.of_nat (length (j :: ins'))) by (cbn [length]; lia).
    destruct (counters_in_range b q st0 Hm Hn Hs W (j :: ins') Hl ltac:(lia)) as (Pr & C).
    auto.
Qed.

(** C2. For a motion block with [step_event_count >= 1] and
    [0 <= steps_a <= step_event_count] on every axis, traced by the
    interrupt from the idle state: in every step event, each Bresenham
    counter is in [(-step_event_count, 0]] when the event starts (and
    is [-(step_event_count/2)] when the block starts), in
    [(-step_event_count, step_event_count]] once [steps_a] is added, and in
    [(-step_event_count, 0]] when the event is over.  [step_event_count]
    is within the range of the 32-bit signed counters. *)
Theorem bresenham_counters_bounded b q st0 ins i :
  is_motion b = true ->
  1 <= step_event_count b <= INT32_MAX ->
  (forall a, 0 <= steps_of a b <= step_event_count b) ->
  waiting b q st0 ->
  Forall no_limit (ins ++ [i]) ->
  Z.of_nat (length ins) < step_event_count b ->
  let n := step_event_count b in
  let st := run_isr cfg ins st0 in
  let e := entry b i st in
  let st' := ISR_TIMER1_COMPA cfg i st in
  forall a,
    (ins = [] -> counter_of a e = - (n / 2)) /\
    - n < counter_of a e <= 0 /\
    - n < int32 (counter_of a e + steps_of a b) <= n /\
    - n < counter_of a st' <= 0.
Proof.
  intros Hm Hn Hs W Hl Hlen n st e st' a. subst n st e st'.
  apply Forall_app in Hl. destruct Hl as (Hl & Hi).
  inversion Hi as [|? ? Hi' _]; subst.
  pose proof (before_event b q st0 ins Hm Hn Hs W Hl Hlen) as B. cbv zeta in B.
  destruct (entry_counters b q i _ _ Hm Hn B) as (Hf & _ & C).
  pose proof (ISR_event b q i _ Hf Hm Hi') as (N & _). cbv zeta in N.
  destruct (C a) as (R & Mid).
  destruct (tracer_step _ _ Hn (Hs a) _ R) as (R1 & R2 & _).
  rewrite N. repeat split; try lia.
  intros ->. apply Mid. reflexivity.
Qed.

Lemma step_pulses_app a tr st :
  step_pulses a (tr ++ [st]) =
  step_pulses a tr + (if stepped (STEP_BIT cfg a) st then 1 else 0).
Proof.
  unfold step_pulses. rewrite filter_app, length_app, Nat2Z.inj_add. cbn [filter].
  destruct (stepped (STEP_BIT cfg a) st); reflexivity.
Qed.

Lemma position_step (backwards p : bool) z :
  next_position backwards p (int32 z) =
  int32 (z + (if backwards then -1 else 1) * (if p then 1 else 0)).
Proof.
  unfold next_position. rewrite <- Z.add_opp_r.
  destruct p, backwards; rewrite ?int32_add_l; f_equal; lia.
Qed.

Lemma pulses_traced b q st0 :
  pins_ok -> direction_only b ->
  is_motion b = true -> 1 <= step_event_count b <= INT32_MAX ->
  (forall a, 0 <= steps_of a b <= step_event_count b) ->
  (forall a, - 2147483648 <= stepper_position st0 a <= INT32_MAX) ->
  waiting b q st0 ->
  forall ins,
    Forall no_limit ins -> 1 <= Z.of_nat (length ins) <= step_event_count b ->
    let n := step_event_count b in
    let c0 := int32 (- Z.shiftr n 1) in
    let st := run_isr cfg ins st0 in
    progress b q (Z.of_nat (length ins)) st /\
    forall a,
      counter_of a st = counter_after n (steps_of a b) c0 (length ins) /\
      step_pulses a (trace_isr cfg ins st0) = pulses n (steps_of a b) c0 (length ins) /\
      stepper_position st a =
        int32 (stepper_position st0 a +
               direction b a * pulses n (steps_of a b) c0 (length ins)).
Proof.
  intros Hp Hd Hm Hn Hs Hpos W ins Hl Hlen. cbv zeta.
  split; [apply (counters_in_range b q st0 Hm Hn Hs W ins Hl Hlen)|].
  rewrite <- (trace_isr_length ins st0).
  revert ins Hl Hlen.
  apply (trace_invariant b q st0
    (fun tr st => forall a,
       counter_of a st =
         counter_after (step_event_count b) (steps_of a b)
           (int32 (- Z.shiftr (step_event_count b) 1)) (length tr) /\
       step_pulses a tr =
         pulses (step_event_count b) (steps_of a b)
           (int32 (- Z.shiftr (step_event_count b) 1)) (length tr) /\
       stepper_position st a =
         int32 (stepper_position st0 a +
                direction b a *
                pulses (step_event_count b) (steps_of a b)
                  (int32 (- Z.shiftr (step_event_count b) 1)) (length tr))));
    try assumption.
  - intros i Hi a.
    pose proof (waiting_feeding _ _ _ W) as Hf.
    pose proof (entry_frame b q i st0 Hf) as (_ & _ & _ & _ & _ & _ & M).
    assert (Hc : current_block st0 = None) by (unfold waiting in W; intuition).
    rewrite Hc in M. destruct M as (C & _).
    pose proof (ISR_event b q i st0 Hf Hm Hi) as (N & _).
    pose proof (ISR_event_pulses b q i st0 Hp Hd Hf Hm Hi a) as (Q & T).
    cbv zeta in *. rewrite C in *.
    change [ISR_TIMER1_COMPA cfg i st0] with ([] ++ [ISR_TIMER1_COMPA cfg i st0]).
    rewrite step_pulses_app, T, N, C. cbn [length app counter_after pulses].
    split; [reflexivity|]. split; [reflexivity|].
    rewrite Q, <- (int32_small (stepper_position st0 a)) at 1 by apply Hpos.
    rewrite position_step. unfold direction. f_equal.
  - intros i tr st Hk Pr IH Hi a.
    destruct (progress_feeding _ _ _ _ Pr ltac:(lia)) as (Hf & Hc).
    pose proof (entry_frame b q i st Hf) as (_ & _ & _ & _ & _ & _ & M).
    rewrite Hc in M. destruct M as (C & _).
    pose proof (ISR_event b q i st Hf Hm Hi) as (N & _).
    pose proof (ISR_event_pulses b q i st Hp Hd Hf Hm Hi a) as (Q & T).
    destruct (IH a) as (IC & IP & IQ).
    cbv zeta in *. rewrite C in *.
    rewrite step_pulses_app, T, N, C, IC, IP, length_app, Nat.add_1_r.
    cbn [counter_after pulses].
    split; [reflexivity|]. split; [reflexivity|].
    rewrite Q, IQ, position_step, IC. unfold direction. f_equal.
    destruct (Z.testbit _ _); lia.
Qed.

(** C1, amended.  A motion block with [1 <= step_event_count] and
    [0 <= steps_a <= step_event_count] on every axis, traced by the
    interrupt from the idle state with no stop and no limit hit: after [k]
    runs [step_events_completed] is [k]; the block is the current block
    while [k < step_event_count] and is discarded exactly at
    [k = step_event_count]; at that run the tracer has set the step bit of
    axis [a] in [steps_a] step events and [stepper_position[a]] has moved by
    [steps_a] in the direction of the block's direction bit. *)
Theorem block_completes_with_all_steps b q st0 ins :
  pins_ok -> direction_only b ->
  is_motion b = true -> 1 <= step_event_count b <= INT32_MAX ->
  (forall a, 0 <= steps_of a b <= step_event_count b) ->
  (forall a, - 2147483648 <= stepper_position st0 a <= INT32_MAX) ->
  waiting b q st0 ->
  Forall no_limit ins -> 1 <= Z.of_nat (length ins) <= step_event_count b ->
  let k := Z.of_nat (length ins) in
  let st := run_isr cfg ins st0 in
  step_events_completed st = k /\
  (k < step_event_count b -> current_block st = Some b /\ planner_queue st = b :: q) /\
  (current_block st = None <-> k = step_event_count b) /\
  (k = step_event_count b ->
   planner_queue st = q /\
   forall a,
     step_pulses a (trace_isr cfg ins st0) = steps_of a b /\
     stepper_position st a =
       int32 (stepper_position st0 a + direction b a * steps_of a b)).
Proof.
  intros Hp Hd Hm Hn Hs Hpos W Hl Hlen k st. subst k st.
  pose proof (pulses_traced b q st0 Hp Hd Hm Hn Hs Hpos W ins Hl Hlen) as (Pr & T).
  cbv zeta in T.
  destruct Pr as (_ & _ & Ev & F).
  split; [exact Ev|].
  destruct (Z.ltb_spec (Z.of_nat (length ins)) (step_event_count b)) as [Lt|Ge].
  - destruct F as (Fc & Fq). repeat split; try lia; try congruence.
  - destruct F as (Fc & Fq). repeat split; try lia; try congruence.
    + destruct (T a) as (_ & Tp & _). rewrite Tp.
      replace (length ins) with (Z.to_nat (step_event_count b)) by lia.
      apply pulses_total; [assumption | apply Hs].
    + destruct (T a) as (_ & _ & Tq). rewrite Tq.
      replace (length ins) with (Z.to_nat (step_event_count b)) by lia.
      rewrite pulses_total; [reflexivity | assumption | apply Hs].
Qed.

(** The step events of a block that pulse axis [a], in order. *)
Lemma pulse_pattern b q st0 a :
  pins_ok -> direction_only b ->
  is_motion b = true -> 1 <= step_event_count b <= INT32_MAX ->
  waiting b q st0 ->
  forall ins,
    Forall no_limit ins -> 1 <= Z.of_nat (length ins) <= step_event_count b ->
    map (stepped (STEP_BIT cfg a)) (trace_isr cfg ins st0) =
    map (fun j => pulse (counter_after (step_event_count b) (steps_of a b)
                           (int32 (- Z.shiftr (step_event_count b) 1)) j)
                    (steps_of a b))
        (seq 0 (length ins)).
Proof.
  intros Hp Hd Hm Hn W ins Hl Hlen.
  rewrite <- (trace_isr_length ins st0).
  revert ins Hl Hlen.
  apply (trace_invariant b q st0
    (fun tr st =>
       counter_of a st =
         counter_after (step_event_count b) (steps_of a b)
           (int32 (- Z.shiftr (step_event_count b) 1)) (length tr) /\
       map (stepped (STEP_BIT cfg a)) tr =
         map (fun j => pulse (counter_after (step_event_count b) (steps_of a b)
                                (int32 (- Z.shiftr (step_event_count b) 1)) j)
                         (steps_of a b))
             (seq 0 (length tr)))); try assumption.
  - intros i Hi.
    pose proof (waiting_feeding _ _ _ W) as Hf.
    pose proof (entry_frame b q i st0 Hf) as (_ & _ & _ & _ & _ & _ & M).
    assert (Hc : current_block st0 = None) by (unfold waiting in W; intuition).
    rewrite Hc in M. destruct M as (C & _).
    pose proof (ISR_event b q i st0 Hf Hm Hi) as (N & _). specialize (N a).
    pose proof (ISR_event_pulses b q i st0 Hp Hd Hf Hm Hi a) as (_ & T).
    cbv zeta in *. rewrite (C a) in *.
    cbn [length seq map counter_after]. rewrite T, N. split; reflexivity.
  - intros i tr st Hk Pr (IC & IM) Hi.
    destruct (progress_feeding _ _ _ _ Pr ltac:(lia)) as (Hf & Hc).
    pose proof (entry_frame b q i st Hf) as (_ & _ & _ & _ & _ & _ & M).
    rewrite Hc in M. destruct M as (C & _).
    pose proof (ISR_event b q i st Hf Hm Hi) as (N & _). specialize (N a).
    pose proof (ISR_event_pulses b q i st Hp Hd Hf Hm Hi a) as (_ & T).
    cbv zeta in *. rewrite (C a) in *.
    rewrite length_app, Nat.add_1_r, seq_S, !map_app, IM. cbn [map length counter_after].
    rewrite T, N, IC. split; reflexivity.
Qed.

(** C7, amended.  A motion block with [steps_x = 3], [steps_y = 4],
    [steps_z = 0] and [step_event_count = 4], its counters started at
    [-(step_event_count/2)]: over the 4 step events the tracer pulses X three
    times, on step events 1, 3 and 4, pulses Y on every step event and
    never pulses Z. *)
Theorem diagonal_3_4_pulses b q st0 ins :
  pins_ok -> direction_only b -> is_motion b = true ->
  steps_x b = 3 -> steps_y b = 4 -> steps_z b = 0 -> step_event_count b = 4 ->
  waiting b q st0 -> Forall no_limit ins -> length ins = 4%nat ->
  let tr := trace_isr cfg ins st0 in
  map (stepped (X_STEP_BIT cfg)) tr = [true; false; true; true] /\
  map (stepped (Y_STEP_BIT cfg)) tr = [true; true; true; true] /\
  map (stepped (Z_STEP_BIT cfg)) tr = [false; false; false; false].
Proof.
  intros Hp Hd Hm Hx Hy Hz Hn W Hl Hlen. cbv zeta.
  assert (Hr : 1 <= step_event_count b <= INT32_MAX)
    by (rewrite Hn; unfold INT32_MAX; lia).
  assert (Hk : 1 <= Z.of_nat (length ins) <= step_event_count b)
    by (rewrite Hn, Hlen; cbn; lia).
  pose proof (pulse_pattern b q st0 X_AXIS Hp Hd Hm Hr W ins Hl Hk) as Px.
  pose proof (pulse_pattern b q st0 Y_AXIS Hp Hd Hm Hr W ins Hl Hk) as Py.
  pose proof (pulse_pattern b q st0 Z_AXIS Hp Hd Hm Hr W ins Hl Hk) as Pz.
  cbn [STEP_BIT steps_of] in Px, Py, Pz.
  rewrite Hx, Hn, Hlen in Px. rewrite Hy, Hn, Hlen in Py. rewrite Hz, Hn, Hlen in Pz.
  rewrite Px, Py, Pz. repeat split.
Qed.

(** *** The rate stays between the minimum and the nominal rate *)

Lemma accelerated_bounds lo b r :
  rates_ok lo b -> lo <= r <= nominal_rate b ->
  lo <= accelerated b r <= nominal_rate b.
Proof.
  intros (L & I & F & D & O) R. unfold accelerated. cbv zeta.
  rewrite uint32_small by lia.
  destruct (Z.ltb_spec (nominal_rate b) (r + rate_delta b)); lia.
Qed.

Lemma decelerated_bounds lo b r :
  rates_ok lo b -> lo <= r <= nominal_rate b ->
  lo <= decelerated b r <= nominal_rate b.
Proof.
  intros (L & I & F & D & O) R. unfold decelerated. cbv zeta.
  destruct (Z.ltb_spec (rate_delta b) r).
  - rewrite uint32_small by lia.
    destruct (Z.ltb_spec (r - rate_delta b) (final_rate b)); lia.
  - destruct (Z.ltb_spec 0 (final_rate b)); lia.
Qed.

(** C3, amended.  For a motion block whose initial and final rates lie
    between [MINIMUM_STEPS_PER_MINUTE] and the nominal rate, with a
    non-negative [rate_delta] such that [nominal_rate + rate_delta] fits 32
    bits: after every step event of the block
    [MINIMUM_STEPS_PER_MINUTE <= adjusted_rate <= nominal_rate]. *)
Theorem adjusted_rate_bounded b q st0 ins :
  is_motion b = true -> 1 <= step_event_count b <= INT32_MAX ->
  rates_ok (MINIMUM_STEPS_PER_MINUTE cfg) b ->
  waiting b q st0 ->
  Forall no_limit ins -> 1 <= Z.of_nat (length ins) <= step_event_count b ->
  MINIMUM_STEPS_PER_MINUTE cfg <= adjusted_rate (run_isr cfg ins st0) <= nominal_rate b.
Proof.
  intros Hm Hn Hr W Hl Hlen.
  revert ins Hl Hlen.
  apply (trace_invariant b q st0
    (fun _ st => MINIMUM_STEPS_PER_MINUTE cfg <= adjusted_rate st <= nominal_rate b));
    try assumption.
  - intros i Hi.
    pose proof (waiting_feeding _ _ _ W) as Hf.
    pose proof (entry_frame b q i st0 Hf) as (_ & _ & _ & _ & _ & _ & M).
    assert (Hc : current_block st0 = None) by (unfold waiting in W; intuition).
    rewrite Hc in M. destruct M as (_ & _ & A).
    pose proof (ISR_event b q i st0 Hf Hm Hi) as (_ & _ & _ & _ & _ & R).
    cbv zeta in R. rewrite A in R.
    assert (I0 : MINIMUM_STEPS_PER_MINUTE cfg <= initial_rate b <= nominal_rate b)
      by (unfold rates_ok in Hr; intuition).
    pose proof (accelerated_bounds _ b _ Hr I0).
    pose proof (decelerated_bounds _ b _ Hr I0).
    destruct R as [-> | [-> | [-> | ->]]]; try assumption.
    unfold rates_ok in Hr. lia.
  - intros i tr st Hk Pr IH Hi.
    destruct (progress_feeding _ _ _ _ Pr ltac:(lia)) as (Hf & Hc).
    pose proof (entry_frame b q i st Hf) as (_ & _ & _ & _ & _ & _ & M).
    rewrite Hc in M. destruct M as (_ & _ & A).
    pose proof (ISR_event b q i st Hf Hm Hi) as (_ & _ & _ & _ & _ & R).
    cbv zeta in R. rewrite A in R.
    pose proof (accelerated_bounds _ b _ Hr IH).
    pose proof (decelerated_bounds _ b _ Hr IH).
    destruct R as [-> | [-> | [-> | ->]]]; try assumption.
    unfold rates_ok in Hr. lia.
Qed.

(** *** Raster lines *)

Lemma speed_adjustment_raster b st :
  type b = TYPE_RASTER_LINE ->
  step_events_completed st < step_event_count b ->
  step_events_completed st < decelerate_after b ->
  let k := step_events_completed st in
  let s' := speed_adjustment cfg b st in
  raster_stream s' =
    (if (accelerate_until b <=? k) && (k mod pixel_steps b =? 0)
     then tl (raster_stream st) else raster_stream st) /\
  (accelerate_until b <= k -> k mod pixel_steps b = 0 ->
   laser_intensity s' =
     uint8 (raster_intensity (hd 0 (raster_stream st)) (nominal_laser_intensity b))).
Proof.
  intros T H1 H2. cbv zeta.
  destruct (Z.leb_spec (accelerate_until b) (step_events_completed st)) as [A|A].
  - rewrite speed_adjustment_cruise by lia.
    pose proof (cruising_frame b st) as (_ & _ & R). destruct (R T) as (R1 & R2).
    cbn [andb]. auto.
  - cbn [andb]. unfold speed_adjustment.
    destruct (Z.ltb_spec (step_events_completed st) (step_event_count b)); [|lia].
    destruct (Z.ltb_spec (step_events_completed st) (accelerate_until b)); [|lia].
    pose proof (accelerating_frame b st) as (_ & R & _).
    split; [exact R | lia].
Qed.

Lemma ISR_event_raster b q i st :
  feeding b q st -> type b = TYPE_RASTER_LINE -> limit_hit cfg i = None ->
  let st' := ISR_TIMER1_COMPA cfg i st in
  let k := step_events_completed st' in
  k < step_event_count b -> k < decelerate_after b ->
  raster_stream st' =
    (if (accelerate_until b <=? k) && (k mod pixel_steps b =? 0)
     then tl (raster_stream st) else raster_stream st) /\
  (accelerate_until b <= k -> k mod pixel_steps b = 0 ->
   laser_intensity st' =
     uint8 (raster_intensity (hd 0 (raster_stream st)) (nominal_laser_intensity b))).
Proof.
  intros Hf T Hl. cbv zeta.
  assert (Hm : is_motion b = true) by (unfold is_motion; rewrite T; reflexivity).
  rewrite (ISR_motion b q i st Hf Hm Hl).
  pose proof (entry_frame b q i st Hf) as (_ & _ & _ & _ & R0 & _).
  forget (entry b i st) as e.
  pose proof (bresenham_elsewhere b e) as (_ & _ & _ & _ & _ & R1).
  forget (bresenham cfg b e) as s1.
  pose proof (speed_adjustment_frame b s1) as (T2 & _).
  pose proof (speed_adjustment_raster b s1 T) as R2. cbv zeta in R2.
  forget (speed_adjustment cfg b s1) as s2.
  unfold same_tracer in T2. cbn.
  destruct T2 as (_ & _ & _ & _ & _ & _ & _ & ->).
  intros H1 H2. destruct (R2 H1 H2) as (R3 & R4).
  rewrite R3, R1, R0 in *. auto.
Qed.

Lemma tl_skipn {A} m (l : list A) : tl (skipn m l) = skipn (S m) l.
Proof.
  revert l. induction m as [|m IH]; intros [|x l]; cbn [skipn tl]; auto.
Qed.

Lemma hd_skipn {A} m (l : list A) d : hd d (skipn m l) = nth m l d.
Proof.
  revert l. induction m as [|m IH]; intros [|x l]; cbn [skipn hd nth]; auto.
Qed.

Lemma next_pixel k ps :
  0 <= k -> 0 < ps ->
  ((k + 1) mod ps = 0 -> (k + 1) / ps = k / ps + 1 /\ ps <= k + 1) /\
  ((k + 1) mod ps <> 0 -> (k + 1) / ps = k / ps).
Proof.
  intros Hk Hps.
  pose proof (Z.div_mod k ps ltac:(lia)) as E1. pose proof (Z.mod_pos_bound k ps Hps) as B1.
  pose proof (Z.div_mod (k + 1) ps ltac:(lia)) as E2.
  pose proof (Z.mod_pos_bound (k + 1) ps Hps) as B2.
  assert (Q1 : 0 <= k / ps) by (apply Z.div_pos; lia).
  revert E1 B1 E2 B2 Q1.
  generalize (k / ps) (k mod ps) ((k + 1) / ps) ((k + 1) mod ps).
  intros q r q' r' E1 B1 E2 B2 Q1.
  assert (D : q' = q \/ q' = q + 1) by nia.
  split; intros E.
  - assert (q' = q + 1) by nia. split; nia.
  - destruct D as [D|D]; [assumption|]. subst q'. nia.
Qed.

(** The raster bytes a raster line has consumed after [k] step events, and
    the intensity it set at the last pixel boundary, while the block
    cruises: one byte every [pixel_steps] step events. *)
Lemma raster_pixels b q st0 :
  type b = TYPE_RASTER_LINE -> 1 <= step_event_count b <= INT32_MAX ->
  0 < pixel_steps b -> accelerate_until b <= pixel_steps b ->
  waiting b q st0 ->
  forall ins,
    Forall no_limit ins -> 1 <= Z.of_nat (length ins) <= step_event_count b ->
    let k := Z.of_nat (length ins) in
    let st := run_isr cfg ins st0 in
    k < step_event_count b -> k < decelerate_after b ->
    raster_stream st = skipn (Z.to_nat (k / pixel_steps b)) (raster_stream st0) /\
    (k mod pixel_steps b = 0 ->
     laser_intensity st =
       uint8 (raster_intensity
                (nth (Z.to_nat (k / pixel_steps b - 1)) (raster_stream st0) 0)
                (nominal_laser_intensity b))).
Proof.
  intros T Hn Hps Ha W ins Hl Hlen. cbv zeta.
  assert (Hm : is_motion b = true) by (unfold is_motion; rewrite T; reflexivity).
  rewrite <- (trace_isr_length ins st0).
  revert ins Hl Hlen.
  apply (trace_invariant b q st0
    (fun tr st =>
       Z.of_nat (length tr) < step_event_count b ->
       Z.of_nat (length tr) < decelerate_after b ->
       raster_stream st =
         skipn (Z.to_nat (Z.of_nat (length tr) / pixel_steps b)) (raster_stream st0) /\
       (Z.of_nat (length tr) mod pixel_steps b = 0 ->
        laser_intensity st =
          uint8 (raster_intensity
                   (nth (Z.to_nat (Z.of_nat (length tr) / pixel_steps b - 1))
                      (raster_stream st0) 0)
                   (nominal_laser_intensity b))))); try assumption.
  - intros i Hi H1 H2. cbn [length] in *. change (Z.of_nat 1) with (0 + 1) in *.
    pose proof (first_event b q i st0 W Hm Hi ltac:(lia)) as (_ & _ & Ev & _).
    pose proof (ISR_event_raster b q i st0 (waiting_feeding _ _ _ W) T Hi) as R.
    cbv zeta in R. rewrite Ev in R. change 1 with (0 + 1) in R.
    destruct (R H1 H2) as (R1 & R2).
    destruct (next_pixel 0 (pixel_steps b) ltac:(lia) Hps) as (N1 & N2).
    destruct (Z.eqb_spec ((0 + 1) mod pixel_steps b) 0) as [E|E].
    + destruct (N1 E) as (N3 & N4).
      destruct (Z.leb_spec (accelerate_until b) (0 + 1)); [|lia].
      cbn [andb] in R1. rewrite R1, N3.
      change (0 / pixel_steps b) with 0. cbn.
      split; [reflexivity|]. intros _. rewrite R2 by lia. destruct (raster_stream st0); reflexivity.
    + rewrite andb_false_r in R1. rewrite R1, (N2 E).
      change (0 / pixel_steps b) with 0. cbn. split; [reflexivity | lia].
  - intros i tr st Hk Pr IH Hi H1 H2.
    rewrite length_app, Nat2Z.inj_add in *. cbn [length] in *. change (Z.of_nat 1) with 1 in *.
    destruct (IH ltac:(lia) ltac:(lia)) as (I1 & _).
    destruct (progress_feeding _ _ _ _ Pr ltac:(lia)) as (Hf & Hc).
    pose proof (next_event b q _ i st Pr Hm Hi Hk ltac:(lia)) as (_ & _ & Ev & _).
    pose proof (ISR_event_raster b q i st Hf T Hi) as R.
    cbv zeta in R. rewrite Ev in R.
    destruct (R H1 H2) as (R1 & R2).
    set (k := Z.of_nat (length tr)) in *.
    destruct (next_pixel k (pixel_steps b) ltac:(lia) Hps) as (N1 & N2).
    assert (0 <= k / pixel_steps b) by (apply Z.div_pos; lia).
    destruct (Z.eqb_spec ((k + 1) mod pixel_steps b) 0) as [E|E].
    + destruct (N1 E) as (N3 & N4).
      destruct (Z.leb_spec (accelerate_until b) (k + 1)); [|lia].
      cbn [andb] in R1. rewrite R1, N3, I1, tl_skipn.
      replace (Z.to_nat (k / pixel_steps b + 1)) with (S (Z.to_nat (k / pixel_steps b))) by lia.
      split; [reflexivity|]. intros _. rewrite R2, I1, hd_skipn by lia.
      replace (k / pixel_steps b + 1 - 1) with (k / pixel_steps b) by lia. reflexivity.
    + rewrite andb_false_r in R1. rewrite R1, (N2 E), I1. split; [reflexivity | lia].
Qed.

(** C6, amended.  A RASTER_LINE block with [pixel_steps = 10],
    [step_event_count = 100] and [nominal_laser_intensity = 200] that
    cruises at step events 10, 20 and 30, fed the raster bytes
    128, 255, 192, ...: the intensity set at step events 10, 20 and 30 is
    0, 199 and 100, one byte being consumed at each; a byte maps to
    [(byte-128)*2*200/255] in integer arithmetic, which is 199 for 255. *)
Theorem raster_cruise_intensities b q st0 rest ins :
  type b = TYPE_RASTER_LINE ->
  pixel_steps b = 10 -> step_event_count b = 100 -> nominal_laser_intensity b = 200 ->
  accelerate_until b <= 10 -> 30 < decelerate_after b ->
  waiting b q st0 -> raster_stream st0 = 128 :: 255 :: 192 :: rest ->
  Forall no_limit ins ->
  let st := run_isr cfg ins st0 in
  (length ins = 10%nat -> laser_intensity st = 0 /\ raster_stream st = 255 :: 192 :: rest) /\
  (length ins = 20%nat -> laser_intensity st = 199 /\ raster_stream st = 192 :: rest) /\
  (length ins = 30%nat -> laser_intensity st = 100 /\ raster_stream st = rest).
Proof.
  intros T Hps Hn HI Ha Hd W Hr Hl st. subst st.
  assert (R : forall k, (k = 10 \/ k = 20 \/ k = 30)%nat -> length ins = k ->
     raster_stream (run_isr cfg ins st0) =
       skipn (Z.to_nat (Z.of_nat k / 10)) (128 :: 255 :: 192 :: rest) /\
     (Z.of_nat k mod 10 = 0 ->
      laser_intensity (run_isr cfg ins st0) =
        uint8 (raster_intensity
                 (nth (Z.to_nat (Z.of_nat k / 10 - 1)) (128 :: 255 :: 192 :: rest) 0) 200))).
  { intros k Hk E. rewrite <- Hr, <- Hps, <- HI, <- E.
    apply (raster_pixels b q st0); try assumption; unfold INT32_MAX; lia. }
  split; [|split]; intros E.
  - destruct (R 10%nat ltac:(auto) E) as (R1 & R2). rewrite R1, R2 by reflexivity.
    split; reflexivity.
  - destruct (R 20%nat ltac:(auto) E) as (R1 & R2). rewrite R1, R2 by reflexivity.
    split; reflexivity.
  - destruct (R 30%nat ltac:(auto) E) as (R1 & R2). rewrite R1, R2 by reflexivity.
    split; reflexivity.
Qed.

(** *** The stop supervisor *)

(** C8.  [stepper_request_stop] records the first status only: from a state
    with no stop requested, [request_stop k1] then [request_stop k2] leaves
    [stop_status = k1] and [stop_requested = true], and the second call
    changes nothing at all. *)
Theorem request_stop_first_wins k1 k2 st :
  stop_requested st = false ->
  let st1 := stepper_request_stop k1 st in
  let st2 := stepper_request_stop k2 st1 in
  stop_status st2 = k1 /\ stop_requested st2 = true /\ st2 = st1.
Proof.
  intros H. cbv zeta.
  assert (E : stop_requested (stepper_request_stop k1 st) = true /\
              stop_status (stepper_request_stop k1 st) = k1).
  { unfold stepper_request_stop, serial_stop. rewrite H. cbn. auto. }
  destruct E as (E1 & E2).
  forget (stepper_request_stop k1 st) as st1.
  unfold stepper_request_stop. rewrite E1. cbn. auto.
Qed.

Lemma stop_processing_idle st : idle (stepper_stop_processing st).
Proof.
  unfold idle, stepper_stop_processing, control_laser_intensity, step_interrupt_enabled.
  cbn. repeat split.
  rewrite uint8_testbit by (unfold OCIE1A; lia).
  rewrite Z.land_spec, Z.lnot_spec by (unfold OCIE1A; lia).
  apply andb_false_r.
Qed.

Lemma stop_processing_idle_unbusy st : idle (set_busy false (stepper_stop_processing st)).
Proof.
  pose proof (stop_processing_idle st) as I.
  forget (stepper_stop_processing st) as s1. exact I.
Qed.

Lemma stop_processing_idle_flushed st :
  idle (set_busy false (planner_reset_block_buffer (stepper_stop_processing st))).
Proof.
  pose proof (stop_processing_idle st) as I.
  forget (stepper_stop_processing st) as s1. exact I.
Qed.

Lemma process_block_processing b st :
  processing_flag (process_block cfg b st) = processing_flag st.
Proof.
  unfold process_block.
  assert (M : processing_flag (speed_adjustment cfg b (bresenham cfg b st)) =
              processing_flag st).
  { pose proof (bresenham_elsewhere b st) as ((_ & _ & E1 & _) & _).
    forget (bresenham cfg b st) as s1.
    pose proof (speed_adjustment_frame b s1) as (_ & (_ & _ & E2 & _) & _).
    congruence. }
  unfold discard, planner_discard_current_block, control_air_assist,
    control_aux1_assist, control_aux2_assist.
  destruct (type b), (DRIVEBOARD_USB cfg); solve [exact M | reflexivity].
Qed.

(** A run of the interrupt either goes idle or leaves the processing flag
    as it was. *)
Lemma ISR_idle_or_processing i st :
  idle (ISR_TIMER1_COMPA cfg i st) \/
  processing_flag (ISR_TIMER1_COMPA cfg i st) = processing_flag st.
Proof.
  unfold ISR_TIMER1_COMPA. destruct (busy st); [right; reflexivity|]. cbv zeta.
  change (stop_requested (set_busy true st)) with (stop_requested st).
  destruct (stop_requested st) eqn:Hs.
  { left. apply stop_processing_idle_flushed. }
  destruct (limit_hit cfg i).
  { right. unfold stepper_request_stop, serial_stop, honor_interlocks, control_laser_intensity.
    split_ifs; reflexivity. }
  fold (prologue i st).
  pose proof (prologue_supervisor i st) as (_ & _ & E & _).
  unfold planner_get_current_block.
  forget (prologue i st) as s1.
  destruct (current_block s1).
  { right. cbn. rewrite process_block_processing. exact E. }
  destruct (hd_error (planner_queue s1)) as [b|].
  - right.
    assert (E2 : processing_flag
                   (if is_motion b
                    then start_line_block cfg b (set_current_block (Some b) s1)
                    else set_current_block (Some b) s1) = processing_flag s1).
    { destruct (is_motion b); [|reflexivity].
      pose proof (start_line_block_frame b (set_current_block (Some b) s1))
        as (_ & _ & _ & _ & (_ & _ & E2 & _) & _).
      exact E2. }
    match goal with
    | |- context [process_block cfg b ?s] => forget_term s s2
    end.
    cbn. rewrite process_block_processing. congruence.
  - left. apply stop_processing_idle_unbusy.
Qed.

(** C10.  [stepper_stop_processing] leaves the idle state from any state:
    processing flag false, no current block, step-event interrupt disabled,
    laser intensity 0.  Whenever a run of the interrupt turns the
    processing flag off it leaves that idle state; it does so both when it
    observes a stop request and when the queue has no block. *)
Theorem idle_through_stop_processing :
  (forall st, idle (stepper_stop_processing st)) /\
  (forall i st,
     processing_flag st = true -> processing_flag (ISR_TIMER1_COMPA cfg i st) = false ->
     idle (ISR_TIMER1_COMPA cfg i st)) /\
  (forall i st,
     busy st = false -> stop_requested st = true -> idle (ISR_TIMER1_COMPA cfg i st)) /\
  (forall i st,
     busy st = false -> stop_requested st = false -> limit_hit cfg i = None ->
     current_block st = None -> planner_queue st = [] ->
     idle (ISR_TIMER1_COMPA cfg i st)).
Proof.
  split; [exact stop_processing_idle|]. split; [|split].
  - intros i st H1 H2.
    destruct (ISR_idle_or_processing i st) as [I|E]; [exact I | congruence].
  - intros i st Hb Hs. unfold ISR_TIMER1_COMPA. rewrite Hb. cbv zeta.
    change (stop_requested (set_busy true st)) with (stop_requested st). rewrite Hs.
    apply stop_processing_idle_flushed.
  - intros i st Hb Hs Hl Hc Hq. unfold ISR_TIMER1_COMPA. rewrite Hb. cbv zeta.
    change (stop_requested (set_busy true st)) with (stop_requested st). rewrite Hs, Hl.
    fold (prologue i st).
    destruct (prologue_feed i st) as (E1 & E2).
    unfold planner_get_current_block. rewrite E1, E2, Hc, Hq. cbn [hd_error].
    apply stop_processing_idle_unbusy.
Qed.

(** *** Limit-triggered stop *)

Lemma ISR_limit_hit i st status :
  busy st = false -> stop_requested st = false -> limit_hit cfg i = Some status ->
  let st' := ISR_TIMER1_COMPA cfg i st in
  stop_status st' = status /\ stop_requested st' = true /\ busy st' = false /\
  serial_stopped st' = true /\
  processing_flag st' = processing_flag st /\ planner_queue st' = planner_queue st /\
  current_block st' = current_block st.
Proof.
  intros Hb Hs Hl. unfold ISR_TIMER1_COMPA. rewrite Hb. cbv zeta.
  change (stop_requested (set_busy true st)) with (stop_requested st). rewrite Hs, Hl.
  unfold stepper_request_stop, serial_stop, honor_interlocks, control_laser_intensity.
  destruct (ENABLE_LASER_INTERLOCKS cfg && (SENSE_DOOR_OPEN i || SENSE_CHILLER_OFF i));
    cbn; rewrite Hs; cbn; repeat split.
Qed.

Lemma ISR_stop_requested i st :
  busy st = false -> stop_requested st = true ->
  let st' := ISR_TIMER1_COMPA cfg i st in
  idle st' /\ planner_queue st' = [] /\ busy st' = false /\
  stop_status st' = stop_status st /\ stop_requested st' = true.
Proof.
  intros Hb Hs. unfold ISR_TIMER1_COMPA. rewrite Hb. cbv zeta.
  change (stop_requested (set_busy true st)) with (stop_requested st). rewrite Hs.
  split; [apply stop_processing_idle_flushed|].
  unfold stepper_stop_processing, planner_reset_block_buffer, control_laser_intensity.
  cbn. auto.
Qed.

(** C5, amended.  With interlocks compiled in, when X1_LIMIT is asserted in
    a run of the interrupt that is not busy and has no stop requested: on
    exit from that run [stop_status] is [LIMIT_HIT_X1] and the stop is
    requested, while the processing flag and the planner queue are as they
    were; on exit from the next run of the interrupt [stop_status] is still
    [LIMIT_HIT_X1], [stepper_processing()] is false and the planner block
    buffer is reset. *)
Theorem limit_stop_goes_idle_on_next_run i i' st :
  ENABLE_LASER_INTERLOCKS cfg = true -> SENSE_X1_LIMIT i = true ->
  busy st = false -> stop_requested st = false ->
  let st1 := ISR_TIMER1_COMPA cfg i st in
  let st2 := ISR_TIMER1_COMPA cfg i' st1 in
  (stop_status st1 = STOPERROR_LIMIT_HIT_X1 cfg /\ stop_requested st1 = true /\
   stepper_processing st1 = stepper_processing st /\
   planner_queue st1 = planner_queue st) /\
  (stop_status st2 = STOPERROR_LIMIT_HIT_X1 cfg /\
   stepper_processing st2 = false /\ planner_queue st2 = []).
Proof.
  intros He Hx Hb Hs. cbv zeta.
  assert (Hl : limit_hit cfg i = Some (STOPERROR_LIMIT_HIT_X1 cfg))
    by (unfold limit_hit; rewrite He, Hx; reflexivity).
  pose proof (ISR_limit_hit i st _ Hb Hs Hl) as (S1 & R1 & B1 & _ & P1 & Q1 & _).
  cbv zeta in *.
  forget (ISR_TIMER1_COMPA cfg i st) as st1.
  pose proof (ISR_stop_requested i' st1 B1 R1) as ((I & _) & Q2 & _ & S2 & _).
  cbv zeta in *. unfold stepper_processing.
  repeat split; congruence.
Qed.

End Properties.

(** ** The step timer *)

Lemma shiftr_fits cycles shift bound :
  0 <= shift -> 0 <= cycles <= bound -> bound / 2 ^ shift = 65535 ->
  (Z.shiftr cycles shift <=? 65535) = true /\ 0 <= Z.shiftr cycles shift <= 65535.
Proof.
  intros Hs Hc Hb. rewrite Z.shiftr_div_pow2 by assumption.
  assert (0 < 2 ^ shift) by (apply Z.pow_pos_nonneg; lia).
  assert (cycles / 2 ^ shift <= 65535) by (rewrite <- Hb; apply Z.div_le_mono; lia).
  assert (0 <= cycles / 2 ^ shift) by (apply Z.div_pos; lia).
  split; [apply Z.leb_le|]; lia.
Qed.

Lemma shiftr_overflows cycles shift bound :
  0 <= shift -> bound < cycles -> (bound + 1) / 2 ^ shift = 65536 ->
  (Z.shiftr cycles shift <=? 65535) = false.
Proof.
  intros Hs Hc Hb. rewrite Z.shiftr_div_pow2 by assumption.
  assert (0 < 2 ^ shift) by (apply Z.pow_pos_nonneg; lia).
  assert (65536 <= cycles / 2 ^ shift) by (rewrite <- Hb; apply Z.div_le_mono; lia).
  apply Z.leb_gt. lia.
Qed.

(** Up to the largest period the timer can hold, [config_step_timer]
    returns what the specification says. *)
Lemma config_step_timer_in_range cycles st :
  0 <= cycles <= 67108863 ->
  fst (config_step_timer cycles st) = spec_step_timer_cycles cycles.
Proof.
  intros Hc. unfold config_step_timer, spec_step_timer_cycles, prescaler_shifts.
  assert (F : fst (fst (step_timer_setting cycles)) * 0 + snd (step_timer_setting cycles) =
              match find (fun shift => Z.shiftr cycles shift <=? 65535) [0; 3; 6; 8; 10] with
              | Some shift => Z.shiftr cycles shift * 2 ^ shift
              | None => 65535 * 1024
              end).
  { unfold step_timer_setting. cbn [find].
    destruct (Z.leb_spec cycles 65535).
    { destruct (shiftr_fits cycles 0 65535) as (-> & R); [lia|lia|reflexivity|].
      cbn [fst snd]. rewrite Z.shiftr_0_r in *.
      rewrite (uint32_small (uint16 cycles)); unfold uint16, wrap_unsigned, UINT32_MAX;
        rewrite Z.mod_small; lia. }
    rewrite (shiftr_overflows cycles 0 65535) by (lia || reflexivity).
    destruct (Z.leb_spec cycles 524287).
    { destruct (shiftr_fits cycles 3 524287) as (-> & R); [lia|lia|reflexivity|].
      cbn [fst snd]. unfold uint16, wrap_unsigned. rewrite Z.mod_small by lia.
      rewrite int32_small, uint32_small; unfold INT32_MAX, UINT32_MAX; lia. }
    rewrite (shiftr_overflows cycles 3 524287) by (lia || reflexivity).
    destruct (Z.leb_spec cycles 4194303).
    { destruct (shiftr_fits cycles 6 4194303) as (-> & R); [lia|lia|reflexivity|].
      cbn [fst snd]. unfold uint16, wrap_unsigned. rewrite Z.mod_small by lia.
      rewrite int32_small, uint32_small; unfold INT32_MAX, UINT32_MAX; lia. }
    rewrite (shiftr_overflows cycles 6 4194303) by (lia || reflexivity).
    destruct (Z.leb_spec cycles 16777215).
    { destruct (shiftr_fits cycles 8 16777215) as (-> & R); [lia|lia|reflexivity|].
      cbn [fst snd]. unfold uint16, wrap_unsigned. rewrite Z.mod_small by lia.
      rewrite int32_small, uint32_small; unfold INT32_MAX, UINT32_MAX; lia. }
    rewrite (shiftr_overflows cycles 8 16777215) by (lia || reflexivity).
    destruct (Z.leb_spec cycles 67108863); [|lia].
    destruct (shiftr_fits cycles 10 67108863) as (-> & R); [lia|lia|reflexivity|].
    cbn [fst snd]. unfold uint16, wrap_unsigned. rewrite Z.mod_small by lia.
    rewrite int32_small, uint32_small; unfold INT32_MAX, UINT32_MAX; lia. }
  rewrite <- F. destruct (step_timer_setting cycles) as [[c p] a]. cbn. lia.
Qed.

(** C4, at the failing input.  For a period beyond the timer's range, here
    [cycles = 0x4000000], the specification clamps to [0xFFFF * 1024 =
    67107840], while [config_step_timer] returns 64512: its last branch
    computes [0xffff * 1024] in 16-bit [unsigned int] arithmetic. *)
Theorem config_step_timer_clamp_wraps st :
  fst (config_step_timer 67108864 st) = 64512 /\
  spec_step_timer_cycles 67108864 = 67107840.
Proof. split; reflexivity. Qed.

(** ** Homing *)

(** *** Overshoot of a homing axis *)

Section Homing_overshoot.

Import Homing.

Variable cfg : config.
Variable reverse_direction : bool.

Local Abbreviation LIMIT_BIT := (LIMIT_BIT cfg).
Local Abbreviation pulsed_on := (pulsed_on cfg).
Local Abbreviation homed := (homed cfg).
Local Abbreviation step_lines_ok := (step_lines_ok cfg).
Local Abbreviation step_pins_ok := (step_pins_ok cfg).
Local Abbreviation inverted := (inverted cfg).
Local Abbreviation seat := (seat cfg).
Local Abbreviation seated := (seated cfg).
Local Abbreviation end_stop := (end_stop cfg reverse_direction).

Lemma toggle_bit o k d :
  0 <= k < 8 -> 0 <= d < 8 ->
  Z.testbit (uint8 (Z.lxor o (Z.shiftl 1 k))) d = xorb (Z.testbit o d) (d =? k).
Proof.
  intros Hk Hd. rewrite uint8_testbit, Z.lxor_spec, Z.shiftl_spec by lia.
  f_equal. destruct (Z.eqb_spec d k) as [->|Hne].
  - rewrite Z.sub_diag. reflexivity.
  - destruct (Z.ltb_spec d k).
    + apply Z.testbit_neg_r. lia.
    + change 1 with (2 ^ 0). apply Z.pow2_bits_false. lia.
Qed.

Lemma step_pins_lines : step_pins_ok -> step_lines_ok.
Proof. intros (R & D & M & Md & _). repeat split; auto; apply R. Qed.

Lemma step_bits_distinct :
  step_lines_ok ->
  (X_STEP_BIT cfg =? Y_STEP_BIT cfg) = false /\ (X_STEP_BIT cfg =? Z_STEP_BIT cfg) = false /\
  (Y_STEP_BIT cfg =? X_STEP_BIT cfg) = false /\ (Y_STEP_BIT cfg =? Z_STEP_BIT cfg) = false /\
  (Z_STEP_BIT cfg =? X_STEP_BIT cfg) = false /\ (Z_STEP_BIT cfg =? Y_STEP_BIT cfg) = false.
Proof.
  intros (_ & D & _).
  repeat split; apply Z.eqb_neq;
    [apply (D X_AXIS Y_AXIS) | apply (D X_AXIS Z_AXIS) | apply (D Y_AXIS X_AXIS)
    |apply (D Y_AXIS Z_AXIS) | apply (D Z_AXIS X_AXIS) | apply (D Z_AXIS Y_AXIS)];
    discriminate.
Qed.

Lemma overshoot_x_seat pin l a :
  step_lines_ok ->
  seat a (overshoot_x cfg reverse_direction pin l) =
  match a with X_AXIS => seat_next (end_stop X_AXIS pin) (seat a l) | _ => seat a l end.
Proof.
  intros Hp. destruct (step_bits_distinct Hp) as (Dxy & Dxz & Dyx & Dyz & Dzx & Dzy).
  destruct Hp as (R & D & _).
  pose proof (R X_AXIS). pose proof (R a).
  unfold overshoot_x, seat, seat_next, end_stop, LIMIT_BIT.
  destruct (x_axis l) eqn:A; cbn [andb];
    [destruct (sense_limit cfg reverse_direction pin (X1_LIMIT_BIT cfg))|];
    [destruct (x_overshoot_count l =? 0) eqn:C| |];
    destruct a; cbn in *; rewrite ?A, ?C; cbn; rewrite ?toggle_bit by assumption;
    rewrite ?Z.eqb_refl, ?Dxy, ?Dxz, ?Dyx, ?Dyz, ?Dzx, ?Dzy, ?xorb_true_r, ?xorb_false_r;
    reflexivity.
Qed.

Lemma overshoot_y_seat pin l a :
  step_lines_ok ->
  seat a (overshoot_y cfg reverse_direction pin l) =
  match a with Y_AXIS => seat_next (end_stop Y_AXIS pin) (seat a l) | _ => seat a l end.
Proof.
  intros Hp. destruct (step_bits_distinct Hp) as (Dxy & Dxz & Dyx & Dyz & Dzx & Dzy).
  destruct Hp as (R & D & _).
  pose proof (R Y_AXIS). pose proof (R a).
  unfold overshoot_y, seat, seat_next, end_stop, LIMIT_BIT.
  destruct (y_axis l) eqn:A; cbn [andb];
    [destruct (sense_limit cfg reverse_direction pin (Y1_LIMIT_BIT cfg))|];
    [destruct (y_overshoot_count l =? 0) eqn:C| |];
    destruct a; cbn in *; rewrite ?A, ?C; cbn; rewrite ?toggle_bit by assumption;
    rewrite ?Z.eqb_refl, ?Dxy, ?Dxz, ?Dyx, ?Dyz, ?Dzx, ?Dzy, ?xorb_true_r, ?xorb_false_r;
    reflexivity.
Qed.

Lemma overshoot_z_seat pin l a :
  step_lines_ok ->
  seat a (overshoot_z cfg reverse_direction pin l) =
  match a, ENABLE_3AXES cfg with
  | Z_AXIS, Some _ => seat_next (end_stop Z_AXIS pin) (seat a l)
  | _, _ => seat a l
  end.
Proof.
  intros Hp. destruct (step_bits_distinct Hp) as (Dxy & Dxz & Dyx & Dyz & Dzx & Dzy).
  destruct Hp as (R & D & _).
  pose proof (R Z_AXIS). pose proof (R a).
  unfold overshoot_z, seat, seat_next, end_stop, LIMIT_BIT.
  destruct (ENABLE_3AXES cfg); [|destruct a; reflexivity].
  destruct (z_axis l) eqn:A; cbn [andb];
    [destruct (sense_limit cfg reverse_direction pin (Z1_LIMIT_BIT cfg))|];
    [destruct (z_overshoot_count l =? 0) eqn:C| |];
    destruct a; cbn in *; rewrite ?A, ?C; cbn; rewrite ?toggle_bit by assumption;
    rewrite ?Z.eqb_refl, ?Dxy, ?Dxz, ?Dyx, ?Dyz, ?Dzx, ?Dzy, ?xorb_true_r, ?xorb_false_r;
    reflexivity.
Qed.

(** The two port writes of a step pulse exactly the pins whose step bit is
    set in [out_bits]. *)
Lemma pulse_writes a l :
  0 <= STEP_BIT cfg a < 8 -> Z.testbit (STEPPING_MASK cfg) (STEP_BIT cfg a) = true ->
  pulsed_on a (raised cfg l, port (step_all cfg l)) =
    Z.testbit (out_bits l) (STEP_BIT cfg a).
Proof.
  intros R M. unfold pulsed_on, step_all, raised, step_bits. cbn [fst snd port].
  rewrite !uint8_testbit, Z.lxor_spec, uint8_testbit, Z.lor_spec, Z.land_spec, M
    by assumption.
  rewrite andb_true_r.
  destruct (Z.testbit (port l) (STEP_BIT cfg a)),
           (Z.testbit (out_bits l) (STEP_BIT cfg a)); reflexivity.
Qed.

Lemma iteration_seat a pin l :
  step_lines_ok ->
  (a = Z_AXIS -> ENABLE_3AXES cfg <> None) ->
  seat a (fst (iteration cfg reverse_direction pin l)) =
    seat_next (end_stop a pin) (seat a l) /\
  match snd (iteration cfg reverse_direction pin l) with
  | Some w =>
      pulsed_on a w = snd (seat a (fst (iteration cfg reverse_direction pin l)))
  | None => axis_active a (fst (iteration cfg reverse_direction pin l)) = false
  end.
Proof.
  intros Hp Hz. unfold iteration. cbv zeta.
  assert (S3 : seat a (overshoot_z cfg reverse_direction pin
                         (overshoot_y cfg reverse_direction pin
                            (overshoot_x cfg reverse_direction pin l))) =
               seat_next (end_stop a pin) (seat a l)).
  { rewrite overshoot_z_seat, overshoot_y_seat, overshoot_x_seat by assumption.
    destruct a; try reflexivity.
    destruct (ENABLE_3AXES cfg); [reflexivity | exfalso; apply Hz; reflexivity]. }
  destruct Hp as (R & _ & M & _).
  generalize dependent (overshoot_z cfg reverse_direction pin
                          (overshoot_y cfg reverse_direction pin
                             (overshoot_x cfg reverse_direction pin l))).
  intros l3 S3.
  destruct (x_axis l3 || y_axis l3 || z_axis l3) eqn:A; cbn [fst snd].
  - split; [exact S3|].
    rewrite (pulse_writes a l3 (R a) (M a)). reflexivity.
  - split; [exact S3|].
    apply orb_false_elim in A. destruct A as (A & Az).
    apply orb_false_elim in A. destruct A as (Ax & Ay).
    destruct a; assumption.
Qed.

(** One iteration on an axis whose end-stop asserts from iteration [N] on:
    the seat it leaves and, when it stepped, whether it pulsed the axis. *)
Lemma seated_step a (limit_pin : nat -> Z) N t l :
  step_lines_ok ->
  (a = Z_AXIS -> ENABLE_3AXES cfg <> None) ->
  end_stop a (limit_pin t) = (N <=? t)%nat ->
  seated a N t l ->
  match snd (iteration cfg reverse_direction (limit_pin t) l) with
  | Some w =>
      seated a N (S t) (fst (iteration cfg reverse_direction (limit_pin t) l)) /\
      pulsed_on a w = xorb (inverted a) (t <? N + 6)%nat
  | None =>
      seated a N (S t) (fst (iteration cfg reverse_direction (limit_pin t) l)) /\
      (N + 6 <= t)%nat
  end.
Proof.
  intros Hp Hz He Hs.
  destruct (iteration_seat a (limit_pin t) l Hp Hz) as (S1 & O1).
  destruct (iteration cfg reverse_direction (limit_pin t) l) as [l' out].
  cbn [fst snd] in *. rewrite He in S1. unfold seated in *.
  destruct (Nat.leb_spec t (N + 6)) as [Le|Gt].
  - rewrite Hs in S1. cbn [seat_next andb] in S1.
    destruct (Nat.leb_spec N t) as [Ge|Lt].
    + destruct (Z.eqb_spec (6 - Z.of_nat (t - N)) 0) as [E|E].
      * destruct (Nat.leb_spec (S t) (N + 6)); [lia|].
        destruct (Nat.ltb_spec t (N + 6)); [lia|].
        rewrite negb_involutive in S1.
        assert (Sd : axis_active a l' = false /\
                     Z.testbit (out_bits l') (STEP_BIT cfg a) = inverted a)
          by (unfold seat in S1; split; congruence).
        destruct out as [w|]; [|split; [exact Sd|lia]].
        split; [exact Sd|]. rewrite O1, S1, xorb_false_r. reflexivity.
      * destruct (Nat.leb_spec (S t) (N + 6)); [|lia].
        destruct (Nat.ltb_spec t (N + 6)); [|lia].
        assert (Sd : seat a l' = (true, 6 - Z.of_nat (S t - N), negb (inverted a))).
        { rewrite S1. do 2 f_equal. rewrite uint8_small by lia. lia. }
        destruct out as [w|].
        -- split; [exact Sd|]. rewrite O1, S1, xorb_true_r. reflexivity.
        -- unfold seat in S1. rewrite O1 in S1. discriminate.
    + destruct (Nat.leb_spec (S t) (N + 6)); [|lia].
      destruct (Nat.ltb_spec t (N + 6)); [|lia].
      assert (Sd : seat a l' = (true, 6 - Z.of_nat (S t - N), negb (inverted a))).
      { rewrite S1. do 2 f_equal. lia. }
      destruct out as [w|].
      * split; [exact Sd|]. rewrite O1, S1, xorb_true_r. reflexivity.
      * unfold seat in S1. rewrite O1 in S1. discriminate.
  - destruct Hs as (Ha & Hb).
    destruct (Nat.leb_spec (S t) (N + 6)); [lia|].
    destruct (Nat.ltb_spec t (N + 6)); [lia|].
    assert (S2 : seat a l' = seat a l)
      by (rewrite S1; unfold seat; rewrite Ha; reflexivity).
    assert (Sd : axis_active a l' = false /\
                 Z.testbit (out_bits l') (STEP_BIT cfg a) = inverted a)
      by (unfold seat in S2; split; congruence).
    destruct out as [w|]; [|split; [exact Sd|lia]].
    split; [exact Sd|]. rewrite O1, S2, xorb_false_r. unfold seat. cbn [snd]. exact Hb.
Qed.

Lemma loop_overshoot a (limit_pin : nat -> Z) N :
  step_lines_ok ->
  (a = Z_AXIS -> ENABLE_3AXES cfg <> None) ->
  (forall t, end_stop a (limit_pin t) = (N <=? t)%nat) ->
  forall fuel t l,
    seated a N t l ->
    let tr := fst (loop cfg reverse_direction fuel limit_pin t l) in
    (Nat.min fuel (N + 6 - t) <= length tr)%nat /\
    forall i, (i < length tr)%nat ->
      pulsed_on a (nth i tr no_write) = xorb (inverted a) (t + i <? N + 6)%nat.
Proof.
  intros Hp Hz He fuel.
  induction fuel as [|fuel IH]; intros t l Hs; cbv zeta.
  - cbn. split; [lia|]. intros i Hi. lia.
  - cbn [loop].
    pose proof (seated_step a limit_pin N t l Hp Hz (He t) Hs) as Step.
    destruct (iteration cfg reverse_direction (limit_pin t) l) as [l' out].
    cbn [fst snd] in *.
    destruct out as [w|].
    + destruct Step as (Hs' & Pb).
      specialize (IH (S t) l' Hs'). cbv zeta in IH.
      destruct (loop cfg reverse_direction fuel limit_pin (S t) l') as [rest final].
      cbn [fst length] in *. destruct IH as (IL & IP).
      split; [lia|].
      intros [|i] Hi; cbn [nth].
      * rewrite Pb, Nat.add_0_r. reflexivity.
      * rewrite IP by lia. do 2 f_equal. lia.
    + cbn [fst length]. split; [lia|]. intros i Hi. lia.
Qed.

Lemma end_stop_from (a : axis) (limit_pin : nat -> Z) N :
  (forall t, (t < N)%nat -> end_stop a (limit_pin t) = false) ->
  (forall t, (N <= t)%nat -> end_stop a (limit_pin t) = true) ->
  forall t, end_stop a (limit_pin t) = (N <=? t)%nat.
Proof.
  intros Hlo Hhi t. destruct (Nat.leb_spec N t); [apply Hhi|apply Hlo]; assumption.
Qed.

Lemma toggle_mask (r : bool) o m d :
  0 <= d < 8 ->
  Z.testbit (if r then uint8 (Z.lxor o m) else o) d =
  xorb (Z.testbit o d) (r && Z.testbit m d).
Proof.
  intros Hd. destruct r; cbn [andb].
  - rewrite uint8_testbit, Z.lxor_spec by assumption. reflexivity.
  - rewrite xorb_false_r. reflexivity.
Qed.

Lemma start_step_bit a x y z stepping_port :
  step_lines_ok ->
  Z.testbit (out_bits (start cfg reverse_direction x y z stepping_port)) (STEP_BIT cfg a) =
  xorb (match a with X_AXIS => x | Y_AXIS => y | Z_AXIS => z end) (inverted a).
Proof.
  intros Hp. destruct (step_bits_distinct Hp) as (Dxy & Dxz & Dyx & Dyz & Dzx & Dzy).
  destruct Hp as (R & D & _ & Md).
  pose proof (R X_AXIS) as Rx. pose proof (R Y_AXIS) as Ry. pose proof (R Z_AXIS) as Rz.
  pose proof (R a) as Ra.
  unfold start, inverted. cbv zeta. cbn [out_bits].
  rewrite uint8_testbit, Z.lxor_spec, toggle_mask, !set_step_bit, uint8_testbit
    by assumption.
  rewrite (Md a), andb_false_r. cbn [orb xorb]. f_equal.
  destruct a; cbn [STEP_BIT];
    rewrite Z.eqb_refl, ?Dxy, ?Dxz, ?Dyx, ?Dyz, ?Dzx, ?Dzy;
    destruct x, y, z; reflexivity.
Qed.

Lemma start_seated a x y z stepping_port N :
  step_lines_ok -> homed a x y z ->
  seated a N 0 (start cfg reverse_direction x y z stepping_port).
Proof.
  intros Hp H. unfold seated, seat. cbn [Nat.leb].
  rewrite start_step_bit by assumption.
  destruct a; cbn in H |- *; [subst x|subst y|destruct H as (-> & _)]; reflexivity.
Qed.

(** C9.  The overshoot of a homing axis, on the stepping port.  The step
    bits being distinct bits of the stepping mask outside the direction
    mask, take an axis being homed whose end-stop first asserts at
    iteration [N] and stays asserted.  The loop runs at least through
    iteration [N+5] and masks the axis out in iteration [N+6].  When the
    step line of the axis is not inverted, the two port writes of every
    iteration up to [N+5] pulse its pin, six of them after the end-stop
    asserted, and no later iteration does, however long the other axes keep
    the loop going.  When the step line is inverted (its step bit is in
    [INVERT_MASK]) it is the other way round: no iteration up to [N+5]
    pulses the pin, and every later iteration does. *)
Theorem homing_overshoot_by_step_line a x y z stepping_port (limit_pin : nat -> Z) N fuel :
  step_lines_ok -> homed a x y z ->
  (forall t, (t < N)%nat -> end_stop a (limit_pin t) = false) ->
  (forall t, (N <= t)%nat -> end_stop a (limit_pin t) = true) ->
  (N + 6 <= fuel)%nat ->
  let tr := fst (loop cfg reverse_direction fuel limit_pin 0
                   (start cfg reverse_direction x y z stepping_port)) in
  (N + 6 <= length tr)%nat /\
  (forall t, (t < N + 6)%nat -> pulsed_on a (nth t tr no_write) = negb (inverted a)) /\
  (forall t, (N + 6 <= t < length tr)%nat -> pulsed_on a (nth t tr no_write) = inverted a).
Proof.
  intros Hp Hh Hlo Hhi Hf. cbv zeta.
  assert (Hz : a = Z_AXIS -> ENABLE_3AXES cfg <> None)
    by (intros ->; destruct Hh as (_ & Hz); exact Hz).
  destruct (loop_overshoot a limit_pin N Hp Hz (end_stop_from a limit_pin N Hlo Hhi)
              fuel 0 (start cfg reverse_direction x y z stepping_port)
              (start_seated a x y z stepping_port N Hp Hh)) as (L & P).
  cbv zeta in *.
  split; [lia|]. split; intros t Ht.
  - rewrite P by lia. cbn [Nat.add].
    destruct (Nat.ltb_spec t (N + 6)); [apply xorb_true_r|lia].
  - rewrite P by lia. cbn [Nat.add].
    destruct (Nat.ltb_spec t (N + 6)); [lia|apply xorb_false_r].
Qed.

End Homing_overshoot.

(** * The properties on the concrete board *)

Ltac conjuncts := repeat match goal with |- _ /\ _ => split end.

Ltac evaluated := vm_compute; conjuncts; try reflexivity; try discriminate.

Ltac axes := try match goal with |- forall a : axis, _ => intros [] end.

(** Splits a goal [H /\ C] into [H], left to [tac], and [C] under [H]. *)
Ltac under_hypotheses tac :=
  cbv zeta;
  match goal with
  | |- ?H /\ _ => let Hh := fresh "Hh" in assert (Hh : H); [tac | split; [exact Hh|]; revert Hh]
  end.

Lemma board_pins_ok : pins_ok board.
Proof. evaluated. Qed.

Lemma board_step_lines_ok : step_lines_ok board.
Proof.
  unfold step_lines_ok. split; [|split; [|split]].
  - intros []; evaluated.
  - intros [] [] H; try congruence; evaluated.
  - intros []; evaluated.
  - intros []; evaluated.
Qed.

Lemma board_step_pins_ok : step_pins_ok board.
Proof.
  unfold step_pins_ok. split; [|split; [|split; [|split]]].
  - intros []; evaluated.
  - intros [] [] H; try congruence; evaluated.
  - intros []; evaluated.
  - intros []; evaluated.
  - intros []; evaluated.
Qed.

Lemma quiet_runs n : Forall (no_limit board) (repeat quiet n).
Proof. induction n; cbn [repeat]; constructor; [reflexivity | assumption]. Qed.

Lemma armed_waiting b q raster : waiting b q (armed (b :: q) raster).
Proof. repeat split. Qed.

(** A block of no step event is discarded by the run that fetches it, with
    [step_events_completed] at 1, not at its [step_event_count] of 0. *)
Lemma empty_block_completes_late :
  let st := ISR_TIMER1_COMPA board quiet (armed [still] []) in
  is_motion still = true /\
  (forall a, steps_of a still <= step_event_count still) /\
  current_block (armed [still] []) = None /\ planner_queue (armed [still] []) = [still] /\
  current_block st = None /\ planner_queue st = [] /\
  step_events_completed st = 1 /\ step_event_count still = 0.
Proof. cbv zeta. conjuncts; axes; evaluated. Qed.

(** The diagonal block on [board], traced to completion in four runs. *)
Lemma block_completes_on_diagonal :
  let b := diag34 in
  let st0 := armed [diag34] [] in
  let ins := repeat quiet 4 in
  (pins_ok board /\ direction_only board b /\ is_motion b = true /\
   1 <= step_event_count b <= INT32_MAX /\
   (forall a, 0 <= steps_of a b <= step_event_count b) /\
   (forall a, - 2147483648 <= stepper_position st0 a <= INT32_MAX) /\
   waiting b [] st0 /\ Forall (no_limit board) ins /\
   1 <= Z.of_nat (length ins) <= step_event_count b) /\
  let k := Z.of_nat (length ins) in
  let st := run_isr board ins st0 in
  step_events_completed st = k /\
  (k < step_event_count b -> current_block st = Some b /\ planner_queue st = [b]) /\
  (current_block st = None <-> k = step_event_count b) /\
  (k = step_event_count b ->
   planner_queue st = [] /\
   forall a,
     step_pulses board a (trace_isr board ins st0) = steps_of a b /\
     stepper_position st a =
       int32 (stepper_position st0 a + direction board b a * steps_of a b)).
Proof.
  under_hypotheses
    ltac:(conjuncts; axes; try apply quiet_runs; evaluated).
  intros (H1 & H2 & H3 & H4 & H5 & H6 & H7 & H8 & H9).
  exact (block_completes_with_all_steps board diag34 [] (armed [diag34] [])
           (repeat quiet 4) H1 H2 H3 H4 H5 H6 H7 H8 H9).
Defined.

(** The third step event of the diagonal block on [board]. *)
Lemma bresenham_counters_on_diagonal :
  let b := diag34 in
  let st0 := armed [diag34] [] in
  let ins := [quiet; quiet] in
  (is_motion b = true /\ 1 <= step_event_count b <= INT32_MAX /\
   (forall a, 0 <= steps_of a b <= step_event_count b) /\
   waiting b [] st0 /\ Forall (no_limit board) (ins ++ [quiet]) /\
   Z.of_nat (length ins) < step_event_count b) /\
  let n := step_event_count b in
  let st := run_isr board ins st0 in
  let e := entry board b quiet st in
  let st' := ISR_TIMER1_COMPA board quiet st in
  forall a,
    (ins = [] -> counter_of a e = - (n / 2)) /\
    - n < counter_of a e <= 0 /\
    - n < int32 (counter_of a e + steps_of a b) <= n /\
    - n < counter_of a st' <= 0.
Proof.
  under_hypotheses
    ltac:(conjuncts; axes; try apply (quiet_runs 3); evaluated).
  intros (H1 & H2 & H3 & H4 & H5 & H6).
  exact (bresenham_counters_bounded board diag34 [] (armed [diag34] [])
           [quiet; quiet] quiet H1 H2 H3 H4 H5 H6).
Defined.

(** Rates below the minimum: a block entered from standstill has
    [adjusted_rate] at 100 after its first step event, and a block braking to
    standstill has it at 1000 after its sixth, with
    [MINIMUM_STEPS_PER_MINUTE] at 1600. *)
Lemma rate_falls_below_minimum :
  (is_motion crawl = true /\
   initial_rate crawl <= nominal_rate crawl /\ final_rate crawl <= nominal_rate crawl /\
   adjusted_rate (run_isr board [quiet] (armed [crawl] [])) = 100) /\
  (is_motion halt = true /\
   initial_rate halt <= nominal_rate halt /\ final_rate halt <= nominal_rate halt /\
   adjusted_rate (run_isr board (repeat quiet 6) (armed [halt] [])) = 1000) /\
  MINIMUM_STEPS_PER_MINUTE board = 1600.
Proof. evaluated. Qed.

(** The trapezoid block on [board], two step events into its deceleration. *)
Lemma adjusted_rate_on_ramp :
  let b := ramp in
  let st0 := armed [ramp] [] in
  let ins := repeat quiet 10 in
  (is_motion b = true /\ 1 <= step_event_count b <= INT32_MAX /\
   rates_ok (MINIMUM_STEPS_PER_MINUTE board) b /\ waiting b [] st0 /\
   Forall (no_limit board) ins /\
   1 <= Z.of_nat (length ins) <= step_event_count b) /\
  MINIMUM_STEPS_PER_MINUTE board <= adjusted_rate (run_isr board ins st0) <= nominal_rate b.
Proof.
  under_hypotheses ltac:(conjuncts; try apply quiet_runs; evaluated).
  intros (H1 & H2 & H3 & H4 & H5 & H6).
  exact (adjusted_rate_bounded board ramp [] (armed [ramp] []) (repeat quiet 10)
           H1 H2 H3 H4 H5 H6).
Defined.

(** The X1 limit switch asserted one step event into the diagonal block: on
    exit of that run the stop is recorded, but the stepper is still
    processing and the planner queue still holds the block. *)
Lemma limit_stop_not_idle_within_run :
  let st := run_isr board [quiet] (armed [diag34] []) in
  let st1 := ISR_TIMER1_COMPA board x1_hit st in
  ENABLE_LASER_INTERLOCKS board = true /\ SENSE_X1_LIMIT x1_hit = true /\
  current_block st = Some diag34 /\ busy st = false /\ stop_requested st = false /\
  stop_status st1 = STOPERROR_LIMIT_HIT_X1 board /\
  stepper_processing st1 = true /\ planner_queue st1 = [diag34].
Proof. evaluated. Qed.

(** The same limit hit on [board], followed by one more run. *)
Lemma limit_stop_on_board :
  let st := run_isr board [quiet] (armed [diag34] []) in
  (ENABLE_LASER_INTERLOCKS board = true /\ SENSE_X1_LIMIT x1_hit = true /\
   busy st = false /\ stop_requested st = false) /\
  let st1 := ISR_TIMER1_COMPA board x1_hit st in
  let st2 := ISR_TIMER1_COMPA board quiet st1 in
  (stop_status st1 = STOPERROR_LIMIT_HIT_X1 board /\ stop_requested st1 = true /\
   stepper_processing st1 = stepper_processing st /\
   planner_queue st1 = planner_queue st) /\
  (stop_status st2 = STOPERROR_LIMIT_HIT_X1 board /\ stepper_processing st2 = false /\
   planner_queue st2 = []).
Proof.
  under_hypotheses ltac:(evaluated).
  intros (H1 & H2 & H3 & H4).
  exact (limit_stop_goes_idle_on_next_run board x1_hit quiet
           (run_isr board [quiet] (armed [diag34] [])) H1 H2 H3 H4).
Defined.

(** The raster block on [board]: the byte 255 sets the intensity to 199,
    not to the nominal 200. *)
Lemma raster_second_pixel_is_199 :
  let st := run_isr board (repeat quiet 20) (armed [raster100] pixels) in
  type raster100 = TYPE_RASTER_LINE /\ pixel_steps raster100 = 10 /\
  step_event_count raster100 = 100 /\ nominal_laser_intensity raster100 = 200 /\
  step_events_completed st = 20 /\
  laser_intensity st = 199 /\ laser_intensity st <> 200.
Proof. evaluated. Qed.

(** The raster block on [board], twenty step events in. *)
Lemma raster_cruise_on_board :
  let b := raster100 in
  let st0 := armed [raster100] pixels in
  let ins := repeat quiet 20 in
  (type b = TYPE_RASTER_LINE /\ pixel_steps b = 10 /\ step_event_count b = 100 /\
   nominal_laser_intensity b = 200 /\ accelerate_until b <= 10 /\
   30 < decelerate_after b /\ waiting b [] st0 /\
   raster_stream st0 = 128 :: 255 :: 192 :: [] /\ Forall (no_limit board) ins) /\
  let st := run_isr board ins st0 in
  (length ins = 10%nat -> laser_intensity st = 0 /\ raster_stream st = [255; 192]) /\
  (length ins = 20%nat -> laser_intensity st = 199 /\ raster_stream st = [192]) /\
  (length ins = 30%nat -> laser_intensity st = 100 /\ raster_stream st = []).
Proof.
  under_hypotheses ltac:(conjuncts; try apply quiet_runs; evaluated).
  intros (H1 & H2 & H3 & H4 & H5 & H6 & H7 & H8 & H9).
  exact (raster_cruise_intensities board raster100 [] (armed [raster100] pixels) []
           (repeat quiet 20) H1 H2 H3 H4 H5 H6 H7 H8 H9).
Defined.

(** The diagonal block on [board]: the second step event pulses Y alone; X
    is pulsed on step events 1, 3 and 4. *)
Lemma diagonal_second_event_has_no_x_pulse :
  let tr := trace_isr board (repeat quiet 4) (armed [diag34] []) in
  steps_x diag34 = 3 /\ steps_y diag34 = 4 /\ steps_z diag34 = 0 /\
  step_event_count diag34 = 4 /\
  map counter_x tr = [-3; 0; -1; -2] /\
  map (stepped board (X_STEP_BIT board)) tr = [true; false; true; true] /\
  map (stepped board (Y_STEP_BIT board)) tr = [true; true; true; true].
Proof. evaluated. Qed.

(** The pulses of the diagonal block on [board]. *)
Lemma diagonal_pulses_on_board :
  let b := diag34 in
  let st0 := armed [diag34] [] in
  let ins := repeat quiet 4 in
  (pins_ok board /\ direction_only board b /\ is_motion b = true /\
   steps_x b = 3 /\ steps_y b = 4 /\ steps_z b = 0 /\ step_event_count b = 4 /\
   waiting b [] st0 /\ Forall (no_limit board) ins /\ length ins = 4%nat) /\
  let tr := trace_isr board ins st0 in
  map (stepped board (X_STEP_BIT board)) tr = [true; false; true; true] /\
  map (stepped board (Y_STEP_BIT board)) tr = [true; true; true; true] /\
  map (stepped board (Z_STEP_BIT board)) tr = [false; false; false; false].
Proof.
  under_hypotheses ltac:(conjuncts; try apply quiet_runs; evaluated).
  intros (H1 & H2 & H3 & H4 & H5 & H6 & H7 & H8 & H9 & H10).
  exact (diagonal_3_4_pulses board diag34 [] (armed [diag34] []) (repeat quiet 4)
           H1 H2 H3 H4 H5 H6 H7 H8 H9 H10).
Defined.

(** Two stop requests on the armed board: an X1 limit hit, then a Z1 limit
    hit. *)
Lemma request_stop_twice_on_board :
  let st := armed [diag34] [] in
  stop_requested st = false /\
  let st1 := stepper_request_stop (STOPERROR_LIMIT_HIT_X1 board) st in
  let st2 := stepper_request_stop (STOPERROR_LIMIT_HIT_Z1 board) st1 in
  stop_status st2 = STOPERROR_LIMIT_HIT_X1 board /\ stop_requested st2 = true /\ st2 = st1.
Proof.
  under_hypotheses ltac:(reflexivity).
  intros H.
  exact (request_stop_first_wins (STOPERROR_LIMIT_HIT_X1 board)
           (STOPERROR_LIMIT_HIT_Z1 board) (armed [diag34] []) H).
Defined.

Lemma inverted_board_step_lines_ok : step_lines_ok inverted_board.
Proof.
  unfold step_lines_ok. split; [|split; [|split]].
  - intros []; evaluated.
  - intros [] [] H; try congruence; evaluated.
  - intros []; evaluated.
  - intros []; evaluated.
Qed.

(** Homing X and Y with the X1 switch seating at iteration 3 and the Y1
    switch never, twelve iterations of the loop.  On [board] the X pin is
    pulsed in iterations 0 to 8 and left alone from then on; on
    [inverted_board], whose X step line is inverted, the port writes leave
    the X pin high in iterations 0 to 8 and pulse it in every iteration
    from 9 on. *)
Lemma homing_pulses_by_step_line :
  let plain := fst (Homing.loop board false 12 (x1_seats_at 3) 0
                      (Homing.start board false true true false 0)) in
  let inv := fst (Homing.loop inverted_board false 12 (x1_seats_at 3) 0
                    (Homing.start inverted_board false true true false 9)) in
  INVERT_MASK board = 0 /\ INVERT_MASK inverted_board = 9 /\
  map (pulsed_on board X_AXIS) plain =
    [true; true; true; true; true; true; true; true; true; false; false; false] /\
  inv = [(51, 49); (51, 49); (51, 49); (51, 49); (51, 49); (51, 49); (51, 49); (51, 49);
         (51, 49); (51, 48); (51, 48); (51, 48)] /\
  map (pulsed_on inverted_board X_AXIS) inv =
    [false; false; false; false; false; false; false; false; false; true; true; true].
Proof. evaluated. Qed.

(** The same homing run on [inverted_board]. *)
Lemma homing_overshoot_on_inverted_board :
  let limit_pin := x1_seats_at 3 in
  (step_lines_ok inverted_board /\ homed inverted_board X_AXIS true true false /\
   (forall t, (t < 3)%nat -> end_stop inverted_board false X_AXIS (limit_pin t) = false) /\
   (forall t, (3 <= t)%nat -> end_stop inverted_board false X_AXIS (limit_pin t) = true) /\
   (3 + 6 <= 12)%nat) /\
  let tr := fst (Homing.loop inverted_board false 12 limit_pin 0
                   (Homing.start inverted_board false true true false 9)) in
  (3 + 6 <= length tr)%nat /\
  (forall t, (t < 3 + 6)%nat ->
     pulsed_on inverted_board X_AXIS (nth t tr no_write) = false) /\
  (forall t, (3 + 6 <= t < length tr)%nat ->
     pulsed_on inverted_board X_AXIS (nth t tr no_write) = true).
Proof.
  under_hypotheses
    ltac:(split; [exact inverted_board_step_lines_ok|]; split; [reflexivity|];
          split; [|split]; [| |lia]; intros t Ht; unfold x1_seats_at;
          destruct (Nat.ltb_spec t 3); try lia; reflexivity).
  intros (H1 & H2 & H3 & H4 & H5).
  exact (homing_overshoot_by_step_line inverted_board false X_AXIS true true false 9
           (x1_seats_at 3) 3 12 H1 H2 H3 H4 H5).
Defined.

(** A queue underrun on [board]: the run that finds no block goes idle. *)
Lemma underrun_goes_idle_on_board :
  let st := armed [] [] in
  (busy st = false /\ stop_requested st = false /\ limit_hit board quiet = None /\
   current_block st = None /\ planner_queue st = []) /\
  idle (ISR_TIMER1_COMPA board quiet st).
Proof.
  under_hypotheses ltac:(evaluated).
  intros (H1 & H2 & H3 & H4 & H5).
  exact (proj2 (proj2 (proj2 (idle_through_stop_processing board)))
           quiet (armed [] []) H1 H2 H3 H4 H5).
Defined.

(** * Further properties of stepper.c *)

(** ** Bits of the port and timer registers *)

Lemma testbit_above c m n : 0 <= c < 2 ^ m -> 0 <= m <= n -> Z.testbit c n = false.
Proof.
  intros Hc Hm. destruct (Z.eq_dec c 0) as [->|Hz]; [apply Z.bits_0|].
  apply Z.bits_above_log2; [lia|].
  apply Z.lt_le_trans with m; [|lia]. apply Z.log2_lt_pow2; lia.
Qed.

Lemma testbit_7 n : 0 <= n -> Z.testbit 7 n = (n <? 3).
Proof. intros Hn. change 7 with (Z.ones 3). apply Z.testbit_ones_nonneg; lia. Qed.

(** Writing the clock-select bits [c] of timer 1 leaves the other bits. *)
Lemma clock_select_bits t c :
  0 <= c < 8 ->
  let t' := uint8 (Z.lor (Z.land t (Z.lnot (Z.shiftl 7 CS10))) (Z.shiftl c CS10)) in
  Z.land t' 7 = c /\
  forall k, 3 <= k < 8 -> Z.testbit t' k = Z.testbit t k.
Proof.
  intros Hc. cbv zeta. unfold CS10. rewrite !Z.shiftl_0_r. split.
  - apply Z.bits_inj'. intros n Hn. rewrite Z.land_spec, testbit_7 by assumption.
    destruct (Z.ltb_spec n 3).
    + rewrite uint8_testbit, Z.lor_spec, Z.land_spec, Z.lnot_spec, testbit_7 by lia.
      destruct (Z.ltb_spec n 3); [|lia].
      cbn. rewrite andb_false_r, andb_true_r. reflexivity.
    + rewrite andb_false_r. symmetry. apply (testbit_above c 3); lia.
  - intros k Hk.
    rewrite uint8_testbit, Z.lor_spec, Z.land_spec, Z.lnot_spec, testbit_7 by lia.
    destruct (Z.ltb_spec k 3); [lia|].
    rewrite (testbit_above c 3) by lia. cbn. rewrite andb_true_r, orb_false_r. reflexivity.
Qed.

(** ** The step timer within its range *)

(** Linear arithmetic with division by constants. *)
Ltac lia_div := Z.div_mod_to_equations; lia.

Lemma step_timer_setting_in_range cycles :
  0 <= cycles <= 67108863 ->
  step_timer_setting cycles =
    if cycles <=? 65535 then (cycles, 0, cycles)
    else if cycles <=? 524287 then (cycles / 8, 1, cycles / 8 * 8)
    else if cycles <=? 4194303 then (cycles / 64, 2, cycles / 64 * 64)
    else if cycles <=? 16777215 then (cycles / 256, 3, cycles / 256 * 256)
    else (cycles / 1024, 4, cycles / 1024 * 1024).
Proof.
  intros Hc. unfold step_timer_setting.
  rewrite !Z.shiftr_div_pow2 by lia.
  change (2 ^ 3) with 8. change (2 ^ 6) with 64. change (2 ^ 8) with 256.
  change (2 ^ 10) with 1024.
  destruct (Z.leb_spec cycles 65535);
    [|destruct (Z.leb_spec cycles 524287);
      [|destruct (Z.leb_spec cycles 4194303);
        [|destruct (Z.leb_spec cycles 16777215);
          [|destruct (Z.leb_spec cycles 67108863); [|lia]]]]];
    unfold uint16, wrap_unsigned; rewrite Z.mod_small by lia_div;
    rewrite ?int32_small, uint32_small by (unfold INT32_MAX, UINT32_MAX; lia_div);
    reflexivity.
Qed.

(** X1.  For a period within the range of timer 1 (up to [0x3ffffff]
    cycles), [config_step_timer] returns exactly the period it programs,
    the compare value [OCR1A] times the divider selected in [TCCR1B]; that
    period is never longer than the one asked for and falls short of it by
    less than one divider step; the other bits of [TCCR1B] (the waveform
    mode) are left as they were. *)
Theorem step_timer_registers cycles st :
  0 <= cycles <= 67108863 ->
  let actual := fst (config_step_timer cycles st) in
  let st' := snd (config_step_timer cycles st) in
  let divider := timer_prescale (Z.land (TCCR1B st') 7) in
  actual = OCR1A st' * divider /\ 0 <= OCR1A st' <= 65535 /\
  actual <= cycles < actual + divider /\
  (forall k, 3 <= k < 8 -> Z.testbit (TCCR1B st') k = Z.testbit (TCCR1B st) k).
Proof.
  intros Hc. unfold config_step_timer.
  rewrite step_timer_setting_in_range by assumption.
  assert (B : forall p, 0 <= p < 5 ->
            let t' := uint8 (Z.lor (Z.land (TCCR1B st) (Z.lnot (Z.shiftl 7 CS10)))
                                   (Z.shiftl (p + 1) CS10)) in
            Z.land t' 7 = p + 1 /\
            forall k, 3 <= k < 8 -> Z.testbit t' k = Z.testbit (TCCR1B st) k)
    by (intros p Hp; apply clock_select_bits; lia).
  destruct (Z.leb_spec cycles 65535);
    [destruct (B 0) as (B1 & B2); [lia|]
    |destruct (Z.leb_spec cycles 524287);
      [destruct (B 1) as (B1 & B2); [lia|]
      |destruct (Z.leb_spec cycles 4194303);
        [destruct (B 2) as (B1 & B2); [lia|]
        |destruct (Z.leb_spec cycles 16777215);
          [destruct (B 3) as (B1 & B2); [lia|]
          |destruct (B 4) as (B1 & B2); [lia|]]]]];
    cbn; cbv zeta in B1; rewrite B1;
    [change (timer_prescale (0 + 1)) with 1
    |change (timer_prescale (1 + 1)) with 8
    |change (timer_prescale (2 + 1)) with 64
    |change (timer_prescale (3 + 1)) with 256
    |change (timer_prescale (4 + 1)) with 1024];
    (split; [lia|split; [lia_div|split; [lia_div|exact B2]]]).
Qed.

(** A period of 600000 cycles on [board]: compare value 9375, divider 64. *)
Lemma step_timer_registers_on_board :
  let st := armed [] [] in
  0 <= 600000 <= 67108863 /\
  let actual := fst (config_step_timer 600000 st) in
  let st' := snd (config_step_timer 600000 st) in
  let divider := timer_prescale (Z.land (TCCR1B st') 7) in
  actual = OCR1A st' * divider /\ 0 <= OCR1A st' <= 65535 /\
  actual <= 600000 < actual + divider /\
  (forall k, 3 <= k < 8 -> Z.testbit (TCCR1B st') k = Z.testbit (TCCR1B st) k).
Proof.
  under_hypotheses ltac:(lia).
  intros H. exact (step_timer_registers 600000 (armed [] []) H).
Defined.

Lemma step_timer_monotone c1 c2 :
  0 <= c2 <= c1 -> c1 <= 67108863 ->
  snd (step_timer_setting c2) <= snd (step_timer_setting c1).
Proof.
  intros H1 H2. rewrite !step_timer_setting_in_range by lia.
  destruct (Z.leb_spec c2 65535), (Z.leb_spec c1 65535),
    (Z.leb_spec c2 524287), (Z.leb_spec c1 524287),
    (Z.leb_spec c2 4194303), (Z.leb_spec c1 4194303),
    (Z.leb_spec c2 16777215), (Z.leb_spec c1 16777215);
    cbn [snd]; lia_div.
Qed.

(** ** The step period [adjust_speed] programs *)

Section Step_period.

Variable cfg : config.

Lemma CYCLES_PER_MINUTE_range : 0 <= CYCLES_PER_MINUTE cfg <= UINT32_MAX.
Proof.
  unfold CYCLES_PER_MINUTE, uint32, wrap_unsigned, UINT32_MAX.
  pose proof (Z.mod_pos_bound (60 * F_CPU cfg) (2 ^ 32)). lia.
Qed.

(** The period asked of the timer for the rate [r]: the rate is first
    raised to [MINIMUM_STEPS_PER_MINUTE]. *)
Lemma adjust_speed_cycles r st :
  cycles_per_step_event (adjust_speed cfg r st) =
    snd (step_timer_setting
           (CYCLES_PER_MINUTE cfg / Z.max r (MINIMUM_STEPS_PER_MINUTE cfg))) /\
  adjusted_rate (adjust_speed cfg r st) = adjusted_rate st.
Proof.
  unfold adjust_speed, config_step_timer.
  replace (if r <? MINIMUM_STEPS_PER_MINUTE cfg
           then MINIMUM_STEPS_PER_MINUTE cfg else r)
    with (Z.max r (MINIMUM_STEPS_PER_MINUTE cfg))
    by (destruct (Z.ltb_spec r (MINIMUM_STEPS_PER_MINUTE cfg)); lia).
  destruct (step_timer_setting _) as [[c p] a]. cbn. split; reflexivity.
Qed.

Lemma wanted_cycles_range r :
  1 <= MINIMUM_STEPS_PER_MINUTE cfg ->
  0 <= CYCLES_PER_MINUTE cfg / Z.max r (MINIMUM_STEPS_PER_MINUTE cfg)
    <= CYCLES_PER_MINUTE cfg / MINIMUM_STEPS_PER_MINUTE cfg.
Proof.
  intros Hm. pose proof CYCLES_PER_MINUTE_range as (Hc & _). split.
  - apply Z.div_pos; lia.
  - apply Z.div_le_compat_l; lia.
Qed.

(** X2.  Whatever rate is asked of [adjust_speed], the step period it
    programs is the one of that rate raised to [MINIMUM_STEPS_PER_MINUTE]:
    at most [CYCLES_PER_MINUTE / max(rate, MINIMUM_STEPS_PER_MINUTE)]
    cycles and less than 1024 cycles short of it, hence never longer than
    the period of the minimum rate; [adjusted_rate] itself is not touched.
    The minimum rate is positive and its period within the range of
    timer 1. *)
Theorem adjust_speed_period r st :
  1 <= MINIMUM_STEPS_PER_MINUTE cfg ->
  CYCLES_PER_MINUTE cfg / MINIMUM_STEPS_PER_MINUTE cfg <= 67108863 ->
  let st' := adjust_speed cfg r st in
  let wanted := CYCLES_PER_MINUTE cfg / Z.max r (MINIMUM_STEPS_PER_MINUTE cfg) in
  cycles_per_step_event st' <= wanted < cycles_per_step_event st' + 1024 /\
  wanted <= CYCLES_PER_MINUTE cfg / MINIMUM_STEPS_PER_MINUTE cfg /\
  adjusted_rate st' = adjusted_rate st.
Proof.
  intros Hm Hr. cbv zeta.
  destruct (adjust_speed_cycles r st) as (-> & ->).
  pose proof (wanted_cycles_range r Hm) as Hw.
  forget (CYCLES_PER_MINUTE cfg / Z.max r (MINIMUM_STEPS_PER_MINUTE cfg)) as w.
  rewrite step_timer_setting_in_range by lia.
  repeat split; try lia;
    destruct (Z.leb_spec w 65535), (Z.leb_spec w 524287), (Z.leb_spec w 4194303),
      (Z.leb_spec w 16777215); cbn [snd]; lia_div.
Qed.

(** X3.  A higher rate never gets a longer step period from
    [adjust_speed], whatever the states it is called in. *)
Theorem adjust_speed_monotone r1 r2 st1 st2 :
  1 <= MINIMUM_STEPS_PER_MINUTE cfg ->
  CYCLES_PER_MINUTE cfg / MINIMUM_STEPS_PER_MINUTE cfg <= 67108863 ->
  r1 <= r2 ->
  cycles_per_step_event (adjust_speed cfg r2 st2) <=
  cycles_per_step_event (adjust_speed cfg r1 st1).
Proof.
  intros Hm Hr H12.
  destruct (adjust_speed_cycles r1 st1) as (-> & _).
  destruct (adjust_speed_cycles r2 st2) as (-> & _).
  pose proof (wanted_cycles_range r1 Hm) as H1.
  pose proof (wanted_cycles_range r2 Hm) as H2.
  pose proof CYCLES_PER_MINUTE_range as (Hc & _).
  apply step_timer_monotone; [|lia]. split; [lia|].
  apply Z.div_le_compat_l; lia.
Qed.

End Step_period.

(** The rates 0 and 60000 on [board]: periods of 600000 and 16000 cycles. *)
Lemma adjust_speed_period_on_board :
  let st := armed [] [] in
  (1 <= MINIMUM_STEPS_PER_MINUTE board /\
   CYCLES_PER_MINUTE board / MINIMUM_STEPS_PER_MINUTE board <= 67108863) /\
  let st' := adjust_speed board 0 st in
  let wanted := CYCLES_PER_MINUTE board / Z.max 0 (MINIMUM_STEPS_PER_MINUTE board) in
  cycles_per_step_event st' <= wanted < cycles_per_step_event st' + 1024 /\
  wanted <= CYCLES_PER_MINUTE board / MINIMUM_STEPS_PER_MINUTE board /\
  adjusted_rate st' = adjusted_rate st.
Proof.
  under_hypotheses ltac:(evaluated).
  intros (H1 & H2). exact (adjust_speed_period board 0 (armed [] []) H1 H2).
Defined.

Lemma adjust_speed_monotone_on_board :
  let st := armed [] [] in
  (1 <= MINIMUM_STEPS_PER_MINUTE board /\
   CYCLES_PER_MINUTE board / MINIMUM_STEPS_PER_MINUTE board <= 67108863 /\
   6000 <= 60000) /\
  cycles_per_step_event (adjust_speed board 60000 st) <=
  cycles_per_step_event (adjust_speed board 6000 st).
Proof.
  under_hypotheses ltac:(evaluated).
  intros (H1 & H2 & H3).
  exact (adjust_speed_monotone board 6000 60000 (armed [] []) (armed [] []) H1 H2 H3).
Defined.

(** ** The laser pulse *)

(** X4.  The timer-0 setting of a laser pulse of [cycles] cycles: the count
    fits the 8-bit timer; count times divider is never more than [cycles];
    below 262144 cycles it is less than one divider step short; from 262144
    cycles on the pulse is clamped to the count 255 at the divider 1024. *)
Theorem laser_timer_setting_pulse cycles :
  0 <= cycles ->
  let count := fst (laser_timer_setting cycles) in
  let divider := timer_prescale (snd (laser_timer_setting cycles)) in
  0 <= count <= 255 /\ count * divider <= cycles /\
  (cycles < 262144 -> cycles < (count + 1) * divider) /\
  (262144 <= cycles -> count = 255 /\ divider = 1024).
Proof.
  intros Hc. unfold laser_timer_setting. cbv zeta.
  rewrite !Z.shiftr_div_pow2 by lia.
  change (2 ^ 3) with 8. change (2 ^ 2) with 4.
  destruct (Z.ltb_spec cycles 256);
    [|destruct (Z.ltb_spec (cycles / 8) 256);
      [|destruct (Z.ltb_spec (cycles / 8 / 8) 256);
        [|destruct (Z.ltb_spec (cycles / 8 / 8 / 4) 256);
          [|destruct (Z.ltb_spec (cycles / 8 / 8 / 4 / 4) 256)]]]];
    cbn [fst snd];
    [change (timer_prescale (_BV CS00)) with 1
    |change (timer_prescale (_BV CS01)) with 8
    |change (timer_prescale (Z.lor (_BV CS01) (_BV CS00))) with 64
    |change (timer_prescale (_BV CS02)) with 256
    |change (timer_prescale (Z.lor (_BV CS02) (_BV CS00))) with 1024
    |change (timer_prescale (Z.lor (_BV CS02) (_BV CS00))) with 1024];
    lia_div.
Qed.

(** A pulse of 30000 cycles: 117 counts at the divider 256. *)
Lemma laser_timer_setting_of_30000 :
  0 <= 30000 /\
  let count := fst (laser_timer_setting 30000) in
  let divider := timer_prescale (snd (laser_timer_setting 30000)) in
  0 <= count <= 255 /\ count * divider <= 30000 /\
  (30000 < 262144 -> 30000 < (count + 1) * divider) /\
  (262144 <= 30000 -> count = 255 /\ divider = 1024).
Proof.
  under_hypotheses ltac:(lia).
  intros H. exact (laser_timer_setting_pulse 30000 H).
Defined.

Section Pulses.

Variable cfg : config.

Lemma pulse_laser_counter st :
  STATIC_PWM_FREQ cfg = false ->
  pwm_counter (pulse_laser cfg st) =
    if pwm_counter st <? CONFIG_BEAMDYNAMICS_EVERY cfg
    then uint8 (pwm_counter st + 1) else 1.
Proof.
  intros Hs. unfold pulse_laser, control_get_intensity. rewrite Hs.
  destruct (pwm_counter st <? CONFIG_BEAMDYNAMICS_EVERY cfg); [reflexivity|].
  cbv zeta. split_ifs; reflexivity.
Qed.

Lemma next_in_cycle x e :
  1 <= e ->
  (x + 1) mod e = if x mod e + 1 <? e then x mod e + 1 else 0.
Proof.
  intros He. pose proof (Z.mod_pos_bound x e ltac:(lia)) as Hm.
  rewrite <- Z.add_mod_idemp_l by lia.
  destruct (Z.ltb_spec (x mod e + 1) e).
  - apply Z.mod_small. lia.
  - replace (x mod e + 1) with e by lia. apply Z_mod_same_full.
Qed.

(** X5.  Without [STATIC_PWM_FREQ], [pwm_counter] cycles through
    [1 .. CONFIG_BEAMDYNAMICS_EVERY]: after [n] calls of the laser-pulse
    part of the interrupt it is [1 + (c - 1 + n) mod
    CONFIG_BEAMDYNAMICS_EVERY], [c] being its value before; the call that
    finds it at [CONFIG_BEAMDYNAMICS_EVERY] generates the pulse, so a pulse
    is generated on every [CONFIG_BEAMDYNAMICS_EVERY]-th call. *)
Theorem pulse_laser_every n st :
  STATIC_PWM_FREQ cfg = false ->
  1 <= CONFIG_BEAMDYNAMICS_EVERY cfg <= 255 ->
  1 <= pwm_counter st <= CONFIG_BEAMDYNAMICS_EVERY cfg ->
  pwm_counter (Nat.iter n (pulse_laser cfg) st) =
    1 + (pwm_counter st - 1 + Z.of_nat n) mod CONFIG_BEAMDYNAMICS_EVERY cfg.
Proof.
  intros Hs He Hc. induction n as [|n IH].
  - unfold Nat.iter. cbn [nat_rect]. change (Z.of_nat 0) with 0.
    rewrite Z.add_0_r, Z.mod_small; lia.
  - rewrite Nat.iter_succ, pulse_laser_counter, IH by assumption.
    replace (pwm_counter st - 1 + Z.of_nat (S n))
      with (pwm_counter st - 1 + Z.of_nat n + 1) by lia.
    rewrite (next_in_cycle (pwm_counter st - 1 + Z.of_nat n)) by lia.
    pose proof (Z.mod_pos_bound (pwm_counter st - 1 + Z.of_nat n)
                  (CONFIG_BEAMDYNAMICS_EVERY cfg) ltac:(lia)) as Hm.
    forget ((pwm_counter st - 1 + Z.of_nat n) mod CONFIG_BEAMDYNAMICS_EVERY cfg) as m.
    destruct (Z.ltb_spec (1 + m) (CONFIG_BEAMDYNAMICS_EVERY cfg)),
      (Z.ltb_spec (m + 1) (CONFIG_BEAMDYNAMICS_EVERY cfg)); try lia.
    rewrite uint8_small; lia.
Qed.

(** X6.  One step pulse, pin by pin of the 8-bit stepping port: the
    interrupt drives every step and direction pin with its bit of
    [out_bits] (a pin in neither mask can only be raised), and starts
    timer 2; the reset interrupt of timer 2 then puts every step pin back
    at its level in [INVERT_MASK], leaves the other pins, and stops the
    timer. *)
Theorem step_pulse_cycle st k :
  0 <= k < 8 ->
  let st1 := pulse_steppers cfg st in
  let st2 := ISR_TIMER2_OVF cfg st1 in
  let step := Z.testbit (STEPPING_MASK cfg) k in
  let dir := Z.testbit (DIRECTION_MASK cfg) k in
  Z.testbit (STEPPING_PORT st1) k =
    (if step || dir then Z.testbit (out_bits st) k
     else Z.testbit (STEPPING_PORT st) k || Z.testbit (out_bits st) k) /\
  Z.testbit (STEPPING_PORT st2) k =
    (if step then Z.testbit (INVERT_MASK cfg) k else Z.testbit (STEPPING_PORT st1) k) /\
  TCCR2B st1 = _BV CS21 /\ TCCR2B st2 = 0.
Proof.
  intros Hk. unfold ISR_TIMER2_OVF, pulse_steppers. cbn.
  repeat (progress rewrite ?uint8_testbit, ?Z.lor_spec, ?Z.land_spec, ?Z.lnot_spec by lia).
  destruct (Z.testbit (STEPPING_MASK cfg) k), (Z.testbit (DIRECTION_MASK cfg) k),
    (Z.testbit (out_bits st) k), (Z.testbit (STEPPING_PORT st) k),
    (Z.testbit (INVERT_MASK cfg) k); repeat split.
Qed.

(** What a call of the laser-pulse part does to the assist port. *)
Lemma pulse_laser_port st :
  STATIC_PWM_FREQ cfg = false -> 0 <= LASER_PWM_BIT cfg < 8 ->
  let st' := pulse_laser cfg st in
  let pin := LASER_PWM_BIT cfg in
  if pwm_counter st <? CONFIG_BEAMDYNAMICS_EVERY cfg
  then ASSIST_PORT st' = ASSIST_PORT st /\ TCCR0B st' = TCCR0B st /\
       TCNT0 st' = TCNT0 st
  else Z.testbit (ASSIST_PORT st') pin = negb (laser_intensity st =? 0) /\
       (forall k, 0 <= k < 8 -> k <> pin ->
          Z.testbit (ASSIST_PORT st') k = Z.testbit (ASSIST_PORT st) k) /\
       (242 <= laser_intensity st -> TCCR0B st' = 0).
Proof.
  intros Hs Hp. cbv zeta.
  unfold pulse_laser, control_get_intensity, _BV. rewrite Hs.
  destruct (pwm_counter st <? CONFIG_BEAMDYNAMICS_EVERY cfg); [repeat split|].
  cbv zeta.
  destruct (Z.eqb_spec (laser_intensity st) 0) as [E|E]; cbn [negb].
  - cbn. split; [|split].
    + rewrite uint8_testbit, Z.land_spec, Z.lnot_spec, Z.shiftl_spec by lia.
      rewrite Z.sub_diag. apply andb_false_r.
    + intros k Hk Hne.
      rewrite uint8_testbit, Z.land_spec, Z.lnot_spec, Z.shiftl_spec by lia.
      replace (Z.testbit 1 (k - LASER_PWM_BIT cfg)) with false; [apply andb_true_r|].
      symmetry. destruct (Z.ltb_spec k (LASER_PWM_BIT cfg)).
      * apply Z.testbit_neg_r. lia.
      * apply (testbit_above 1 1); lia.
    + lia.
  - assert (P :
              Z.testbit (uint8 (Z.lor (ASSIST_PORT st) (Z.shiftl 1 (LASER_PWM_BIT cfg))))
                (LASER_PWM_BIT cfg) = true /\
              forall k, 0 <= k < 8 -> k <> LASER_PWM_BIT cfg ->
                Z.testbit (uint8 (Z.lor (ASSIST_PORT st) (Z.shiftl 1 (LASER_PWM_BIT cfg)))) k =
                Z.testbit (ASSIST_PORT st) k).
    { split.
      - rewrite uint8_testbit, testbit_set_bit by lia.
        rewrite Z.eqb_refl. apply orb_true_r.
      - intros k Hk Hne. rewrite uint8_testbit, testbit_set_bit by lia.
        rewrite (eqb_distinct _ _ Hne). apply orb_false_r. }
    destruct P as (P1 & P2).
    destruct (Z.ltb_spec (laser_intensity st) 242).
    + destruct (laser_timer_setting _) as [c p]. cbn.
      split; [exact P1|split; [exact P2|lia]].
    + cbn. split; [exact P1|split; [exact P2|reflexivity]].
Qed.

(** X7.  The laser pin, without [STATIC_PWM_FREQ].  A call that generates
    the pulse switches the laser pin of the assist port on when the
    intensity is not 0 and off when it is 0, leaves the other pins of the
    port, and with an intensity of 242 or more leaves timer 0 stopped, so
    that the pin stays on; a call that only counts leaves port and timer
    alone.  The reset interrupt of timer 0 switches the pin off and stops
    the timer. *)
Theorem laser_pin st :
  STATIC_PWM_FREQ cfg = false -> 0 <= LASER_PWM_BIT cfg < 8 ->
  let st' := pulse_laser cfg st in
  let pin := LASER_PWM_BIT cfg in
  (if pwm_counter st <? CONFIG_BEAMDYNAMICS_EVERY cfg
   then ASSIST_PORT st' = ASSIST_PORT st /\ TCCR0B st' = TCCR0B st /\
        TCNT0 st' = TCNT0 st
   else Z.testbit (ASSIST_PORT st') pin = negb (laser_intensity st =? 0) /\
        (forall k, 0 <= k < 8 -> k <> pin ->
           Z.testbit (ASSIST_PORT st') k = Z.testbit (ASSIST_PORT st) k) /\
        (242 <= laser_intensity st -> TCCR0B st' = 0)) /\
  Z.testbit (ASSIST_PORT (ISR_TIMER0_OVF cfg st')) pin = false /\
  TCCR0B (ISR_TIMER0_OVF cfg st') = 0.
Proof.
  intros Hs Hp. cbv zeta. split; [exact (pulse_laser_port st Hs Hp)|].
  unfold ISR_TIMER0_OVF. cbn. split; [|reflexivity].
  rewrite uint8_testbit, Z.land_spec, Z.lnot_spec, Z.shiftl_spec by lia.
  rewrite Z.sub_diag. apply andb_false_r.
Qed.

(** The pins [pulse_steppers] drives. *)
Lemma pulse_steppers_pin st k :
  0 <= k < 8 ->
  Z.testbit (STEPPING_PORT (pulse_steppers cfg st)) k =
    (if Z.testbit (STEPPING_MASK cfg) k || Z.testbit (DIRECTION_MASK cfg) k
     then Z.testbit (out_bits st) k
     else Z.testbit (STEPPING_PORT st) k || Z.testbit (out_bits st) k).
Proof.
  intros Hk. unfold pulse_steppers. cbn.
  repeat (progress rewrite ?uint8_testbit, ?Z.lor_spec, ?Z.land_spec, ?Z.lnot_spec by lia).
  destruct (Z.testbit (STEPPING_MASK cfg) k), (Z.testbit (DIRECTION_MASK cfg) k),
    (Z.testbit (out_bits st) k), (Z.testbit (STEPPING_PORT st) k); reflexivity.
Qed.

End Pulses.

(** Twenty calls from the counter's initial value 1 on [board], where a
    pulse is generated every 8th call. *)
Lemma pulse_laser_every_on_board :
  let st := armed [] [] in
  (STATIC_PWM_FREQ board = false /\ 1 <= CONFIG_BEAMDYNAMICS_EVERY board <= 255 /\
   1 <= pwm_counter st <= CONFIG_BEAMDYNAMICS_EVERY board) /\
  pwm_counter (Nat.iter 20 (pulse_laser board) st) =
    1 + (pwm_counter st - 1 + Z.of_nat 20) mod CONFIG_BEAMDYNAMICS_EVERY board.
Proof.
  under_hypotheses ltac:(evaluated).
  intros (H1 & H2 & H3). exact (pulse_laser_every board 20 (armed [] []) H1 H2 H3).
Defined.

(** The X step pin after the first step event of the diagonal block. *)
Lemma step_pulse_cycle_on_board :
  let st := ISR_TIMER1_COMPA board quiet (armed [diag34] []) in
  0 <= 0 < 8 /\
  let st1 := pulse_steppers board st in
  let st2 := ISR_TIMER2_OVF board st1 in
  let step := Z.testbit (STEPPING_MASK board) 0 in
  let dir := Z.testbit (DIRECTION_MASK board) 0 in
  Z.testbit (STEPPING_PORT st1) 0 =
    (if step || dir then Z.testbit (out_bits st) 0
     else Z.testbit (STEPPING_PORT st) 0 || Z.testbit (out_bits st) 0) /\
  Z.testbit (STEPPING_PORT st2) 0 =
    (if step then Z.testbit (INVERT_MASK board) 0 else Z.testbit (STEPPING_PORT st1) 0) /\
  TCCR2B st1 = _BV CS21 /\ TCCR2B st2 = 0.
Proof.
  under_hypotheses ltac:(lia).
  intros H.
  exact (step_pulse_cycle board (ISR_TIMER1_COMPA board quiet (armed [diag34] [])) 0 H).
Defined.

(** The eighth run of the trapezoid block on [board] generates a pulse at
    the intensity the seventh left. *)
Lemma laser_pin_on_board :
  let st := run_isr board (repeat quiet 7) (armed [ramp] []) in
  (STATIC_PWM_FREQ board = false /\ 0 <= LASER_PWM_BIT board < 8) /\
  let st' := pulse_laser board st in
  let pin := LASER_PWM_BIT board in
  (if pwm_counter st <? CONFIG_BEAMDYNAMICS_EVERY board
   then ASSIST_PORT st' = ASSIST_PORT st /\ TCCR0B st' = TCCR0B st /\
        TCNT0 st' = TCNT0 st
   else Z.testbit (ASSIST_PORT st') pin = negb (laser_intensity st =? 0) /\
        (forall k, 0 <= k < 8 -> k <> pin ->
           Z.testbit (ASSIST_PORT st') k = Z.testbit (ASSIST_PORT st) k) /\
        (242 <= laser_intensity st -> TCCR0B st' = 0)) /\
  Z.testbit (ASSIST_PORT (ISR_TIMER0_OVF board st')) pin = false /\
  TCCR0B (ISR_TIMER0_OVF board st') = 0.
Proof.
  under_hypotheses ltac:(evaluated).
  intros (H1 & H2).
  exact (laser_pin board (run_isr board (repeat quiet 7) (armed [ramp] [])) H1 H2).
Defined.

(** ** The stop supervisor, continued *)

Section Supervisor.

Variable cfg : config.

Local Abbreviation no_limit := (no_limit cfg).

Lemma ISR_stop_frame i st :
  busy st = false -> stop_requested st = true ->
  let st' := ISR_TIMER1_COMPA cfg i st in
  pins st' = pins st /\ same_tracer st' st.
Proof.
  intros Hb Hs. unfold ISR_TIMER1_COMPA. rewrite Hb. cbv zeta.
  change (stop_requested (set_busy true st)) with (stop_requested st). rewrite Hs.
  unfold stepper_stop_processing, planner_reset_block_buffer, control_laser_intensity,
    same_tracer, pins.
  cbn. repeat split.
Qed.

(** X8.  A stop request latches.  From a state with a stop requested,
    however many runs of the interrupt follow and whatever they sense: the
    stop stays requested with its status, nothing is written to the ports,
    the tracer's variables (out_bits, counters, positions) stay as they
    are; and from the first of these runs on the stepper is idle with the
    planner buffer empty. *)
Theorem stop_latch ins st :
  busy st = false -> stop_requested st = true ->
  let st' := run_isr cfg ins st in
  stop_requested st' = true /\ stop_status st' = stop_status st /\ busy st' = false /\
  pins st' = pins st /\ same_tracer st' st /\
  (ins <> [] -> idle st' /\ planner_queue st' = []).
Proof.
  revert st. induction ins as [|i ins IH]; intros st Hb Hs; cbv zeta.
  - cbn [run_isr]. unfold same_tracer. repeat split; try assumption; congruence.
  - cbn [run_isr].
    pose proof (ISR_stop_requested cfg i st Hb Hs) as (I & Q & B & S & R).
    pose proof (ISR_stop_frame i st Hb Hs) as (P & T).
    cbv zeta in *.
    forget (ISR_TIMER1_COMPA cfg i st) as s1.
    specialize (IH s1 B R). cbv zeta in IH.
    destruct IH as (R' & S' & B' & P' & T' & L).
    split; [assumption|]. split; [congruence|]. split; [assumption|].
    split; [congruence|]. split; [unfold same_tracer in *; intuition congruence|].
    intros _. destruct ins as [|j ins'].
    + cbn [run_isr]. split; assumption.
    + apply L. discriminate.
Qed.

(** X9.  Starting the stepper from the idle state with blocks in the
    planner buffer: the interrupt is enabled and finds the head block to
    fetch, with [out_bits] at the idle level [INVERT_MASK], so that no step
    bit of an earlier run is pulsed; starting it while it is processing
    changes nothing. *)
Theorem start_processing_arms b q st :
  idle st -> busy st = false -> stop_requested st = false ->
  planner_queue st = b :: q ->
  let st' := stepper_start_processing cfg st in
  waiting b q st' /\ stepper_processing st' = true /\
  step_interrupt_enabled st' = true /\ out_bits st' = uint8 (INVERT_MASK cfg) /\
  stepper_start_processing cfg st' = st'.
Proof.
  intros (P & C & _) Hb Hs Hq. cbv zeta.
  unfold stepper_start_processing, waiting, stepper_processing, step_interrupt_enabled.
  rewrite P. cbn. repeat split; try assumption.
  rewrite uint8_testbit by (unfold OCIE1A; lia).
  rewrite Z.lor_spec, Z.shiftl_spec by (unfold OCIE1A; lia).
  rewrite Z.sub_diag. apply orb_true_r.
Qed.

(** X10.  A stop is cleared by [stepper_stop_resume] only, and a resumed
    stepper records the next stop: after a request with status [k1], a
    resume and a request with status [k2], the status is [k2]; the resume
    itself leaves no stop requested and the status [STOPERROR_OK], and
    touches neither the processing flag nor the planner buffer. *)
Theorem stop_resume_rearms k1 k2 st :
  let st1 := stepper_request_stop k1 st in
  let st2 := stepper_stop_resume cfg st1 in
  let st3 := stepper_request_stop k2 st2 in
  stop_requested st1 = true /\
  stop_requested st2 = false /\ stop_status st2 = STOPERROR_OK cfg /\
  processing_flag st2 = processing_flag st /\ planner_queue st2 = planner_queue st /\
  current_block st2 = current_block st /\
  stop_requested st3 = true /\ stop_status st3 = k2.
Proof.
  unfold stepper_request_stop, stepper_stop_resume, serial_stop.
  destruct (stop_requested st) eqn:E; cbn; rewrite ?E; cbn; repeat split.
Qed.

End Supervisor.

(** ** The ports during a run of the interrupt *)

Section Ports.

Variable cfg : config.

Local Abbreviation prologue := (prologue cfg).
Local Abbreviation no_limit := (no_limit cfg).

Lemma pins_set_out_bits v st : pins (set_out_bits v st) = pins st.
Proof. reflexivity. Qed.

Lemma pins_set_step_events_completed v st : pins (set_step_events_completed v st) = pins st.
Proof. reflexivity. Qed.

Lemma pins_set_counter_x v st : pins (set_counter_x v st) = pins st.
Proof. reflexivity. Qed.

Lemma pins_set_counter_y v st : pins (set_counter_y v st) = pins st.
Proof. reflexivity. Qed.

Lemma pins_set_counter_z v st : pins (set_counter_z v st) = pins st.
Proof. reflexivity. Qed.

Lemma pins_set_busy v st : pins (set_busy v st) = pins st.
Proof. reflexivity. Qed.

Lemma pins_set_current_block v st : pins (set_current_block v st) = pins st.
Proof. reflexivity. Qed.

Lemma pins_set_adjusted_rate v st : pins (set_adjusted_rate v st) = pins st.
Proof. reflexivity. Qed.

Lemma pins_set_acceleration_tick_counter v st :
  pins (set_acceleration_tick_counter v st) = pins st.
Proof. reflexivity. Qed.

Lemma apply_rate_pins b st : pins (apply_rate cfg b st) = pins st.
Proof.
  unfold apply_rate, adjust_speed, config_step_timer, adjust_beam_dynamics,
    control_laser_intensity.
  destruct (step_timer_setting _) as [[? ?] ?]. destruct (type b); reflexivity.
Qed.

Lemma acceleration_tick_pins st : pins (snd (acceleration_tick cfg st)) = pins st.
Proof. unfold acceleration_tick. cbv zeta. split_ifs; reflexivity. Qed.

Lemma accelerating_pins b st : pins (accelerating cfg b st) = pins st.
Proof.
  unfold accelerating. pose proof (acceleration_tick_pins st) as P.
  destruct (acceleration_tick cfg st) as [tick s1]. cbn [snd] in P.
  destruct tick; [|exact P]. cbv zeta. rewrite apply_rate_pins, <- P.
  split_ifs; reflexivity.
Qed.

Lemma decelerating_pins b st : pins (decelerating cfg b st) = pins st.
Proof.
  unfold decelerating. pose proof (acceleration_tick_pins st) as P.
  destruct (acceleration_tick cfg st) as [tick s1]. cbn [snd] in P.
  destruct tick; [|exact P]. cbv zeta. rewrite apply_rate_pins, <- P.
  split_ifs; reflexivity.
Qed.

Lemma cruising_pins b st : pins (cruising cfg b st) = pins st.
Proof.
  unfold cruising. cbv zeta.
  assert (P : pins (if negb (adjusted_rate st =? nominal_rate b)
                    then apply_rate cfg b (set_adjusted_rate (nominal_rate b) st)
                    else st) = pins st).
  { destruct (negb _); [rewrite apply_rate_pins|]; reflexivity. }
  forget (if negb (adjusted_rate st =? nominal_rate b) then _ else _) as s1.
  unfold serial_raster_read, control_laser_intensity.
  destruct (type b); try exact P.
  destruct (_ =? 0); [|exact P]. rewrite <- P. reflexivity.
Qed.

Lemma speed_adjustment_pins b st : pins (speed_adjustment cfg b st) = pins st.
Proof.
  unfold speed_adjustment.
  destruct (step_events_completed st <? step_event_count b).
  - destruct (step_events_completed st <? accelerate_until b);
      [apply accelerating_pins|].
    destruct (step_events_completed st =? decelerate_after b); [reflexivity|].
    destruct (decelerate_after b <=? step_events_completed st);
      [apply decelerating_pins|apply cruising_pins].
  - unfold planner_discard_current_block, serial_consume_data.
    destruct (type b); reflexivity.
Qed.

Lemma bresenham_pins b st : pins (bresenham cfg b st) = pins st.
Proof.
  assert (X : forall s, pins (bresenham_x cfg b s) = pins s)
    by (intros s; unfold bresenham_x; cbv zeta; split_ifs; reflexivity).
  assert (Y : forall s, pins (bresenham_y cfg b s) = pins s)
    by (intros s; unfold bresenham_y; cbv zeta; split_ifs; reflexivity).
  assert (Z' : forall s, pins (bresenham_z cfg b s) = pins s)
    by (intros s; unfold bresenham_z; cbv zeta; split_ifs; reflexivity).
  unfold bresenham. cbv zeta.
  rewrite pins_set_out_bits, pins_set_step_events_completed, Z', Y, X.
  apply pins_set_out_bits.
Qed.

Lemma start_line_block_pins b st : pins (start_line_block cfg b st) = pins st.
Proof.
  unfold start_line_block. cbv zeta.
  rewrite pins_set_step_events_completed, pins_set_counter_z, pins_set_counter_y,
    pins_set_counter_x, apply_rate_pins, pins_set_acceleration_tick_counter.
  apply pins_set_adjusted_rate.
Qed.

Lemma process_block_pins b st : pins (process_block cfg b st) = pins st.
Proof.
  unfold process_block, discard, planner_discard_current_block, control_air_assist,
    control_aux1_assist, control_aux2_assist.
  destruct (type b), (DRIVEBOARD_USB cfg);
    try (rewrite speed_adjustment_pins; apply bresenham_pins); reflexivity.
Qed.

(** Past the pulses at its start, a run of the interrupt leaves the ports
    and their timers alone. *)
Lemma ISR_pins i st :
  busy st = false -> stop_requested st = false -> limit_hit cfg i = None ->
  pins (ISR_TIMER1_COMPA cfg i st) = pins (prologue i st).
Proof.
  intros Hb Hs Hl. unfold ISR_TIMER1_COMPA. rewrite Hb. cbv zeta.
  change (stop_requested (set_busy true st)) with (stop_requested st). rewrite Hs, Hl.
  fold (prologue i st). unfold planner_get_current_block.
  forget (prologue i st) as s1.
  destruct (current_block s1).
  { rewrite pins_set_busy. apply process_block_pins. }
  destruct (hd_error (planner_queue s1)) as [b|].
  - rewrite pins_set_busy, process_block_pins.
    destruct (is_motion b); [rewrite start_line_block_pins|];
      apply pins_set_current_block.
  - unfold stepper_stop_processing, control_laser_intensity. reflexivity.
Qed.

End Ports.

Section Run_ports.

Variable cfg : config.

Local Abbreviation prologue := (prologue cfg).
Local Abbreviation no_limit := (no_limit cfg).

Lemma prologue_port i st k :
  0 <= k < 8 ->
  Z.testbit (STEPPING_PORT (prologue i st)) k =
    (if Z.testbit (STEPPING_MASK cfg) k || Z.testbit (DIRECTION_MASK cfg) k
     then Z.testbit (out_bits st) k
     else Z.testbit (STEPPING_PORT st) k || Z.testbit (out_bits st) k).
Proof.
  intros Hk. unfold prologue. rewrite pulse_steppers_pin by assumption.
  assert (E : out_bits (pulse_laser cfg (honor_interlocks cfg i (set_busy true st))) =
              out_bits st /\
              STEPPING_PORT (pulse_laser cfg (honor_interlocks cfg i (set_busy true st))) =
              STEPPING_PORT st).
  { unfold pulse_laser, honor_interlocks, control_laser_intensity, control_get_intensity.
    frame_tac. }
  destruct E as (-> & ->). reflexivity.
Qed.

Lemma ISR_port i st :
  busy st = false -> stop_requested st = false -> limit_hit cfg i = None ->
  STEPPING_PORT (ISR_TIMER1_COMPA cfg i st) = STEPPING_PORT (prologue i st) /\
  ASSIST_PORT (ISR_TIMER1_COMPA cfg i st) = ASSIST_PORT (prologue i st).
Proof.
  intros Hb Hs Hl. pose proof (ISR_pins cfg i st Hb Hs Hl) as P.
  unfold pins in P. split; congruence.
Qed.

(** X11.  The step bits are pulsed one run late.  A run of the interrupt
    that is neither stopped nor sees a limit switch drives every step and
    direction pin of the stepping port with its bit of [out_bits] as the
    run before left it; what the run itself computes into [out_bits] does
    not reach the port before the next run. *)
Theorem run_drives_previous_out_bits i st k :
  busy st = false -> stop_requested st = false -> no_limit i ->
  0 <= k < 8 ->
  Z.testbit (STEPPING_MASK cfg) k || Z.testbit (DIRECTION_MASK cfg) k = true ->
  Z.testbit (STEPPING_PORT (ISR_TIMER1_COMPA cfg i st)) k = Z.testbit (out_bits st) k.
Proof.
  intros Hb Hs Hl Hk Hm.
  destruct (ISR_port i st Hb Hs Hl) as (-> & _).
  rewrite prologue_port, Hm by assumption. reflexivity.
Qed.

End Run_ports.

(** The second step event of the diagonal block on [board] pulses the X
    step pin for the first. *)
Lemma run_drives_previous_out_bits_on_board :
  let st := ISR_TIMER1_COMPA board quiet (armed [diag34] []) in
  (busy st = false /\ stop_requested st = false /\ no_limit board quiet /\
   0 <= 0 < 8 /\
   Z.testbit (STEPPING_MASK board) 0 || Z.testbit (DIRECTION_MASK board) 0 = true) /\
  Z.testbit (STEPPING_PORT (ISR_TIMER1_COMPA board quiet st)) 0 =
  Z.testbit (out_bits st) 0.
Proof.
  under_hypotheses ltac:(evaluated).
  intros (H1 & H2 & H3 & H4 & H5).
  exact (run_drives_previous_out_bits board quiet
           (ISR_TIMER1_COMPA board quiet (armed [diag34] [])) 0 H1 H2 H3 H4 H5).
Defined.

(** ** Command blocks *)

Section Commands.

Variable cfg : config.

Local Abbreviation prologue := (prologue cfg).
Local Abbreviation no_limit := (no_limit cfg).
Local Abbreviation has_case := (has_case cfg).

Lemma has_case_command b : has_case b = true -> is_motion b = false.
Proof. unfold has_case, is_motion. destruct (type b); congruence. Qed.

(** The run that fetches a command block the [switch] has a case for. *)
Lemma ISR_command b q i st :
  waiting b q st -> has_case b = true -> no_limit i ->
  let st1 := ISR_TIMER1_COMPA cfg i st in
  current_block st1 = None /\ planner_queue st1 = q /\ same_tracer st1 st /\
  busy st1 = false /\ stop_requested st1 = false /\
  (type b = TYPE_AIR_ASSIST_ENABLE -> air_assist st1 = true) /\
  (type b = TYPE_AIR_ASSIST_DISABLE -> air_assist st1 = false).
Proof.
  intros (Hb & Hs & Hc & Hq) Hh Hl. unfold no_limit in Hl.
  pose proof (has_case_command b Hh) as Hm.
  unfold ISR_TIMER1_COMPA. rewrite Hb. cbv zeta.
  change (stop_requested (set_busy true st)) with (stop_requested st). rewrite Hs, Hl.
  fold (prologue i st).
  pose proof (prologue_tracer cfg i st) as T.
  pose proof (prologue_supervisor cfg i st) as (S1 & _).
  pose proof (prologue_feed cfg i st) as (Fc & Fq).
  forget (prologue i st) as s1.
  rewrite Fc, Hc. unfold planner_get_current_block. rewrite Fq, Hq. cbn [hd_error].
  rewrite Hm.
  unfold process_block, discard, planner_discard_current_block, control_air_assist,
    control_aux1_assist, control_aux2_assist.
  unfold has_case in Hh. unfold same_tracer in *.
  destruct (type b); try discriminate Hh;
    try (destruct (DRIVEBOARD_USB cfg); try discriminate Hh);
    cbn; rewrite Fq, Hq, S1, Hs; cbn; repeat split; try discriminate; intuition.
Qed.

(** X12.  A command block between motion blocks.  The run that fetches an
    assist command the [switch] has a case for carries it out and discards
    it at once, and leaves the tracer's variables, [out_bits] among them,
    as they were.  So that run and the run after it both drive the step
    pins with the [out_bits] the run before left: the step bits of the last
    step event before the command are pulsed twice, while the position
    counted them once. *)
Theorem command_block_repeats_step_bits b q i i' st k :
  waiting b q st -> has_case b = true -> no_limit i -> no_limit i' ->
  0 <= k < 8 -> Z.testbit (STEPPING_MASK cfg) k = true ->
  let st1 := ISR_TIMER1_COMPA cfg i st in
  let st2 := ISR_TIMER1_COMPA cfg i' st1 in
  current_block st1 = None /\ planner_queue st1 = q /\
  (type b = TYPE_AIR_ASSIST_ENABLE -> air_assist st1 = true) /\
  (type b = TYPE_AIR_ASSIST_DISABLE -> air_assist st1 = false) /\
  (forall a, stepper_position st1 a = stepper_position st a) /\
  out_bits st1 = out_bits st /\
  Z.testbit (STEPPING_PORT st1) k = Z.testbit (out_bits st) k /\
  Z.testbit (STEPPING_PORT st2) k = Z.testbit (out_bits st) k.
Proof.
  intros W Hh Hl Hl' Hk Hm. cbv zeta.
  pose proof (ISR_command b q i st W Hh Hl) as (C & Q & T & B & S & A1 & A2).
  cbv zeta in *.
  destruct W as (Hb & Hs & _).
  destruct (ISR_port cfg i st Hb Hs Hl) as (P1 & _).
  destruct (ISR_port cfg i' _ B S Hl') as (P2 & _).
  rewrite P2, P1, !prologue_port, Hm by assumption. cbn [orb].
  forget (ISR_TIMER1_COMPA cfg i st) as s1.
  unfold same_tracer in T. destruct T as (To & _ & _ & _ & Tx & Ty & Tz & _).
  repeat split; try assumption; try congruence.
  intros []; assumption.
Qed.

(** The run of a command block the [switch] has no case for. *)
Lemma ISR_uncased b q i st :
  feeding b q st -> is_motion b = false -> has_case b = false -> no_limit i ->
  let st1 := ISR_TIMER1_COMPA cfg i st in
  feeding b q st1 /\ current_block st1 = Some b /\ same_tracer st1 st /\
  processing_flag st1 = processing_flag st.
Proof.
  intros (Hb & Hs & Hq & Hc) Hm Hh Hl. unfold no_limit in Hl.
  unfold ISR_TIMER1_COMPA. rewrite Hb. cbv zeta.
  change (stop_requested (set_busy true st)) with (stop_requested st). rewrite Hs, Hl.
  fold (prologue i st).
  pose proof (prologue_tracer cfg i st) as T.
  pose proof (prologue_supervisor cfg i st) as (S1 & _ & S3 & _).
  pose proof (prologue_feed cfg i st) as (Fc & Fq).
  forget (prologue i st) as s1.
  assert (N : forall s, process_block cfg b s = s).
  { intros s. unfold process_block. unfold has_case, is_motion in *.
    destruct (type b); try discriminate;
      destruct (DRIVEBOARD_USB cfg); try discriminate; reflexivity. }
  unfold planner_get_current_block. rewrite Fc, Fq, Hq. cbn [hd_error].
  rewrite Hm, !N. unfold feeding, same_tracer in *.
  destruct Hc as [Hc|Hc]; rewrite Hc; cbn; rewrite ?N; cbn;
    rewrite ?Fq, ?Hq, ?S1, ?Hs, ?S3, ?Fc, ?Hc;
    repeat split; try tauto; try congruence; right; reflexivity.
Qed.

(** X13.  With [DRIVEBOARD_USB] defined the [switch] has no case for the
    aux-assist commands: such a block at the head of the planner buffer is
    fetched and never discarded.  However many runs follow, it stays the
    current block at the head of the buffer, no step event is traced and
    the stepper keeps processing. *)
Theorem uncased_command_stalls b q ins st :
  waiting b q st -> is_motion b = false -> has_case b = false ->
  Forall no_limit ins -> ins <> [] ->
  let st' := run_isr cfg ins st in
  current_block st' = Some b /\ planner_queue st' = b :: q /\
  same_tracer st' st /\ processing_flag st' = processing_flag st.
Proof.
  intros W Hm Hh Hl Hne. cbv zeta.
  assert (G : forall ins s, feeding b q s -> Forall no_limit ins -> ins <> [] ->
            feeding b q (run_isr cfg ins s) /\
            current_block (run_isr cfg ins s) = Some b /\
            same_tracer (run_isr cfg ins s) s /\
            processing_flag (run_isr cfg ins s) = processing_flag s).
  { clear W Hl Hne. intros ins0.
    induction ins0 as [|i ins0 IH]; intros s F L Hne; [congruence|].
    inversion L as [|? ? Li Lr]; subst. cbn [run_isr].
    pose proof (ISR_uncased b q i s F Hm Hh Li) as (F1 & C1 & T1 & P1).
    cbv zeta in *. forget (ISR_TIMER1_COMPA cfg i s) as s1.
    destruct ins0 as [|j ins']; [cbn [run_isr]; auto|].
    destruct (IH s1 F1 Lr ltac:(discriminate)) as (F2 & C2 & T2 & P2).
    split; [exact F2|]. split; [exact C2|].
    split; [unfold same_tracer in *; intuition congruence|congruence]. }
  destruct (G ins st (waiting_feeding b q st W) Hl Hne) as ((_ & _ & Q & _) & C & T & P).
  auto.
Qed.

End Commands.

(** A limit hit one step event into the diagonal block on [board], and the
    three runs after it. *)
Lemma stop_latch_on_board :
  let st := ISR_TIMER1_COMPA board x1_hit (run_isr board [quiet] (armed [diag34] [])) in
  let ins := [quiet; x1_hit; quiet] in
  (busy st = false /\ stop_requested st = true) /\
  let st' := run_isr board ins st in
  stop_requested st' = true /\ stop_status st' = stop_status st /\ busy st' = false /\
  pins st' = pins st /\ same_tracer st' st /\
  (ins <> [] -> idle st' /\ planner_queue st' = []).
Proof.
  under_hypotheses ltac:(evaluated).
  intros (H1 & H2).
  exact (stop_latch board [quiet; x1_hit; quiet]
           (ISR_TIMER1_COMPA board x1_hit (run_isr board [quiet] (armed [diag34] [])))
           H1 H2).
Defined.

(** The diagonal block queued while the stepper of [board] is idle. *)
Lemma start_processing_arms_on_board :
  let st := set_planner_queue [diag34] (stepper_stop_processing (armed [] [])) in
  (idle st /\ busy st = false /\ stop_requested st = false /\
   planner_queue st = [diag34]) /\
  let st' := stepper_start_processing board st in
  waiting diag34 [] st' /\ stepper_processing st' = true /\
  step_interrupt_enabled st' = true /\ out_bits st' = uint8 (INVERT_MASK board) /\
  stepper_start_processing board st' = st'.
Proof.
  under_hypotheses ltac:(evaluated).
  intros (H1 & H2 & H3 & H4).
  exact (start_processing_arms board diag34 []
           (set_planner_queue [diag34] (stepper_stop_processing (armed [] [])))
           H1 H2 H3 H4).
Defined.

(** An air-assist command after the diagonal block on [board]: the X step
    bit of the block's last step event. *)
Lemma command_block_repeats_step_bits_on_board :
  let st := run_isr board (repeat quiet 4) (armed [diag34; air_on] []) in
  (waiting air_on [] st /\ has_case board air_on = true /\ no_limit board quiet /\
   no_limit board quiet /\ 0 <= 0 < 8 /\ Z.testbit (STEPPING_MASK board) 0 = true) /\
  let st1 := ISR_TIMER1_COMPA board quiet st in
  let st2 := ISR_TIMER1_COMPA board quiet st1 in
  current_block st1 = None /\ planner_queue st1 = [] /\
  (type air_on = TYPE_AIR_ASSIST_ENABLE -> air_assist st1 = true) /\
  (type air_on = TYPE_AIR_ASSIST_DISABLE -> air_assist st1 = false) /\
  (forall a, stepper_position st1 a = stepper_position st a) /\
  out_bits st1 = out_bits st /\
  Z.testbit (STEPPING_PORT st1) 0 = Z.testbit (out_bits st) 0 /\
  Z.testbit (STEPPING_PORT st2) 0 = Z.testbit (out_bits st) 0.
Proof.
  under_hypotheses ltac:(evaluated).
  intros (H1 & H2 & H3 & H4 & H5 & H6).
  exact (command_block_repeats_step_bits board air_on [] quiet quiet
           (run_isr board (repeat quiet 4) (armed [diag34; air_on] [])) 0
           H1 H2 H3 H4 H5 H6).
Defined.

(** An aux-assist command ahead of the diagonal block on [usb_board]. *)
Lemma uncased_command_stalls_on_usb_board :
  let st := armed [aux1_on; diag34] [] in
  let ins := repeat quiet 3 in
  (waiting aux1_on [diag34] st /\ is_motion aux1_on = false /\
   has_case usb_board aux1_on = false /\ Forall (no_limit usb_board) ins /\
   ins <> []) /\
  let st' := run_isr usb_board ins st in
  current_block st' = Some aux1_on /\ planner_queue st' = [aux1_on; diag34] /\
  same_tracer st' st /\ processing_flag st' = processing_flag st.
Proof.
  under_hypotheses
    ltac:(conjuncts; try (repeat constructor); try discriminate; evaluated).
  intros (H1 & H2 & H3 & H4 & H5).
  exact (uncased_command_stalls usb_board aux1_on [diag34] (repeat quiet 3)
           (armed [aux1_on; diag34] []) H1 H2 H3 H4 H5).
Defined.

(** ** The door and chiller interlock *)

Section Interlock.

Variable cfg : config.

Local Abbreviation prologue := (prologue cfg).
Local Abbreviation no_limit := (no_limit cfg).

(** X14.  With interlocks compiled in and without [STATIC_PWM_FREQ], a run
    of the interrupt that senses the door open or the chiller off never
    switches the laser pin on: if the run generates the laser pulse the pin
    is off when the run ends, and if the run only counts towards the next
    pulse the assist port is as it was.  The run is otherwise not held up:
    it is neither stopped nor does it see a limit switch. *)
Theorem interlock_keeps_laser_pin_off i st :
  ENABLE_LASER_INTERLOCKS cfg = true -> STATIC_PWM_FREQ cfg = false ->
  0 <= LASER_PWM_BIT cfg < 8 ->
  SENSE_DOOR_OPEN i || SENSE_CHILLER_OFF i = true ->
  busy st = false -> stop_requested st = false -> no_limit i ->
  let st' := ISR_TIMER1_COMPA cfg i st in
  if pwm_counter st <? CONFIG_BEAMDYNAMICS_EVERY cfg
  then ASSIST_PORT st' = ASSIST_PORT st
  else Z.testbit (ASSIST_PORT st') (LASER_PWM_BIT cfg) = false.
Proof.
  intros He Hs Hp Hd Hb Hr Hl. cbv zeta.
  destruct (ISR_port cfg i st Hb Hr Hl) as (_ & ->).
  unfold prologue.
  change (ASSIST_PORT (pulse_steppers cfg ?s)) with (ASSIST_PORT s).
  unfold honor_interlocks. rewrite He, Hd. cbn [andb].
  pose proof (pulse_laser_port cfg (control_laser_intensity 0 (set_busy true st)) Hs Hp)
    as P.
  cbv zeta in P.
  change (pwm_counter (control_laser_intensity 0 (set_busy true st)))
    with (pwm_counter st) in P.
  change (ASSIST_PORT (control_laser_intensity 0 (set_busy true st)))
    with (ASSIST_PORT st) in P.
  change (laser_intensity (control_laser_intensity 0 (set_busy true st)))
    with (uint8 0) in P.
  rewrite (uint8_small 0) in P by lia.
  destruct (pwm_counter st <? CONFIG_BEAMDYNAMICS_EVERY cfg).
  - apply P.
  - destruct P as (P & _). rewrite P. reflexivity.
Qed.

End Interlock.

(** The eighth run of the trapezoid block on [board], the door open. *)
Lemma interlock_keeps_laser_pin_off_on_board :
  let st := run_isr board (repeat quiet 7) (armed [ramp] []) in
  (ENABLE_LASER_INTERLOCKS board = true /\ STATIC_PWM_FREQ board = false /\
   0 <= LASER_PWM_BIT board < 8 /\
   SENSE_DOOR_OPEN door_open || SENSE_CHILLER_OFF door_open = true /\
   busy st = false /\ stop_requested st = false /\ no_limit board door_open) /\
  let st' := ISR_TIMER1_COMPA board door_open st in
  if pwm_counter st <? CONFIG_BEAMDYNAMICS_EVERY board
  then ASSIST_PORT st' = ASSIST_PORT st
  else Z.testbit (ASSIST_PORT st') (LASER_PWM_BIT board) = false.
Proof.
  under_hypotheses ltac:(evaluated).
  intros (H1 & H2 & H3 & H4 & H5 & H6 & H7).
  exact (interlock_keeps_laser_pin_off board door_open
           (run_isr board (repeat quiet 7) (armed [ramp] [])) H1 H2 H3 H4 H5 H6 H7).
Defined.

(** ** The planner buffer, block after block *)

Section Queue.

Variable cfg : config.

Local Abbreviation pins_ok := (pins_ok cfg).
Local Abbreviation no_limit := (no_limit cfg).
Local Abbreviation traceable := (traceable cfg).
Local Abbreviation direction := (direction cfg).
Local Abbreviation displacement := (displacement cfg).

Lemma run_isr_concat l1 l2 st :
  run_isr cfg (l1 ++ l2) st = run_isr cfg l2 (run_isr cfg l1 st).
Proof.
  revert st. induction l1 as [|i l1 IH]; intros st; cbn [app run_isr]; auto.
Qed.

(** A traceable block traced from the first to the last of its step
    events. *)
Lemma block_traced b q st0 ins :
  pins_ok -> traceable b ->
  (forall a, - 2147483648 <= stepper_position st0 a <= INT32_MAX) ->
  waiting b q st0 -> Forall no_limit ins ->
  Z.of_nat (length ins) = step_event_count b ->
  let st := run_isr cfg ins st0 in
  waiting_next q st /\
  forall a, stepper_position st a =
            int32 (stepper_position st0 a + direction b a * steps_of a b).
Proof.
  intros Hp (Hm & Hn & Hs & Hd) Hr W Hl Hlen. cbv zeta.
  pose proof (pulses_traced cfg b q st0 Hp Hd Hm Hn Hs Hr W ins Hl ltac:(lia)) as (P & A).
  cbv zeta in *.
  assert (L : length ins = Z.to_nat (step_event_count b)) by lia.
  forget (run_isr cfg ins st0) as st.
  unfold progress in P. rewrite Hlen, Z.ltb_irrefl in P.
  destruct P as (Pb & Ps & _ & Pc & Pq).
  split; [unfold waiting_next; auto|].
  intros a. destruct (A a) as (_ & _ & ->).
  rewrite L, (pulses_total _ _ Hn (Hs a)). reflexivity.
Qed.

Lemma total_events_nonneg bs : Forall traceable bs -> 0 <= total_events bs.
Proof.
  induction 1 as [|b bs (_ & Hn & _) _ IH]; cbn [total_events]; lia.
Qed.

(** X15.  The planner buffer is traced in order.  From a state in which
    the interrupt is about to fetch, with the traceable blocks [bs] at the
    head of the buffer, as many runs as the blocks have step events, none
    stopped or seeing a limit switch, leave the interrupt about to fetch
    what follows [bs]; every axis has then moved by the sum of the blocks'
    steps on it, each counted in the direction of its block. *)
Theorem queue_traced_in_order bs q st0 ins :
  pins_ok -> Forall traceable bs ->
  (forall a, - 2147483648 <= stepper_position st0 a <= INT32_MAX) ->
  waiting_next (bs ++ q) st0 -> Forall no_limit ins ->
  Z.of_nat (length ins) = total_events bs ->
  let st := run_isr cfg ins st0 in
  waiting_next q st /\
  forall a, stepper_position st a =
            int32 (stepper_position st0 a + displacement a bs).
Proof.
  intros Hp Hb. revert st0 ins.
  induction Hb as [|b bs Hb Hbs IH]; intros st0 ins Hr W Hl Hlen; cbv zeta.
  - cbn [total_events] in Hlen. destruct ins; [|cbn in Hlen; lia].
    cbn [run_isr displacement app] in *. split; [exact W|].
    intros a. rewrite Z.add_0_r, int32_small; auto.
  - cbn [total_events] in Hlen.
    pose proof (total_events_nonneg bs Hbs) as Ht.
    destruct Hb as (Hm & Hn & Hs & Hd).
    rewrite <- (firstn_skipn (Z.to_nat (step_event_count b)) ins) in Hl |- *.
    apply Forall_app in Hl. destruct Hl as (Hl1 & Hl2).
    rewrite run_isr_concat.
    assert (W1 : waiting b (bs ++ q) st0)
      by (unfold waiting_next, waiting in *; cbn [app] in W; exact W).
    assert (L1 : Z.of_nat (length (firstn (Z.to_nat (step_event_count b)) ins)) =
                 step_event_count b) by (rewrite length_firstn; lia).
    pose proof (block_traced b (bs ++ q) st0 _ Hp (conj Hm (conj Hn (conj Hs Hd)))
                  Hr W1 Hl1 L1) as (W2 & P).
    cbv zeta in *.
    forget (run_isr cfg (firstn (Z.to_nat (step_event_count b)) ins) st0) as st1.
    assert (R1 : forall a, - 2147483648 <= stepper_position st1 a <= INT32_MAX)
      by (intros a; rewrite P; apply int32_range).
    assert (L2 : Z.of_nat (length (skipn (Z.to_nat (step_event_count b)) ins)) =
                 total_events bs) by (rewrite length_skipn; lia).
    destruct (IH st1 _ R1 W2 Hl2 L2) as (W3 & P3).
    split; [exact W3|].
    intros a. rewrite P3, P, int32_add_l. cbn [displacement]. f_equal. lia.
Qed.

End Queue.

(** Two blocks on [board]: the diagonal, then the trapezoid. *)
Lemma queue_traced_in_order_on_board :
  let bs := [diag34; ramp] in
  let st0 := armed [diag34; ramp] [] in
  let ins := repeat quiet 16 in
  (pins_ok board /\ Forall (traceable board) bs /\
   (forall a, - 2147483648 <= stepper_position st0 a <= INT32_MAX) /\
   waiting_next (bs ++ []) st0 /\ Forall (no_limit board) ins /\
   Z.of_nat (length ins) = total_events bs) /\
  let st := run_isr board ins st0 in
  waiting_next [] st /\
  forall a, stepper_position st a =
            int32 (stepper_position st0 a + displacement board a bs).
Proof.
  under_hypotheses
    ltac:(conjuncts; axes; try apply quiet_runs;
          try (match goal with |- Forall _ _ => repeat apply Forall_cons end;
               try apply Forall_nil; unfold traceable; conjuncts; axes);
          evaluated).
  intros (H1 & H2 & H3 & H4 & H5 & H6).
  exact (queue_traced_in_order board [diag34; ramp] [] (armed [diag34; ramp] [])
           (repeat quiet 16) H1 H2 H3 H4 H5 H6).
Defined.

(** ** One step per run *)

Section One_step.

Variable cfg : config.

Local Abbreviation prologue := (prologue cfg).

Lemma one_step_next d p z : one_step z (next_position d p z).
Proof. unfold one_step, next_position. destruct p, d; auto. Qed.

Lemma bresenham_position b st a :
  one_step (stepper_position st a) (stepper_position (bresenham cfg b st) a).
Proof.
  unfold bresenham. cbv zeta.
  pose proof (bresenham_z_tracer cfg b
    (bresenham_y cfg b (bresenham_x cfg b (set_out_bits (uint8 (direction_bits b)) st))))
    as Tz.
  cbv zeta in Tz. destruct Tz as (_ & Z2 & _ & _ & _ & Z6 & Z7 & _).
  forget (bresenham_z cfg b _) as s3.
  pose proof (bresenham_y_tracer cfg b
    (bresenham_x cfg b (set_out_bits (uint8 (direction_bits b)) st))) as Ty.
  cbv zeta in Ty. destruct Ty as (_ & Y2 & _ & _ & _ & Y6 & Y7 & _).
  forget (bresenham_y cfg b _) as s2.
  pose proof (bresenham_x_tracer cfg b (set_out_bits (uint8 (direction_bits b)) st))
    as Tx.
  cbv zeta in Tx. destruct Tx as (_ & X2 & _ & _ & _ & X6 & X7 & _).
  forget (bresenham_x cfg b _) as s1.
  destruct a; cbn in *.
  - rewrite Z6, Y6, X2. apply one_step_next.
  - rewrite Z7, Y2, X6. apply one_step_next.
  - rewrite Z2, Y7, X7. apply one_step_next.
Qed.

Lemma process_block_position b st a :
  one_step (stepper_position st a) (stepper_position (process_block cfg b st) a).
Proof.
  assert (M : one_step (stepper_position st a)
                (stepper_position (speed_adjustment cfg b (bresenham cfg b st)) a)).
  { pose proof (bresenham_position b st a) as B.
    forget (bresenham cfg b st) as s1.
    pose proof (speed_adjustment_frame cfg b s1) as (T & _).
    cbv zeta in T. forget (speed_adjustment cfg b s1) as s2.
    unfold same_tracer in T. destruct T as (_ & _ & _ & _ & Tx & Ty & Tz & _).
    destruct a; cbn in *; congruence. }
  unfold process_block, discard, planner_discard_current_block, control_air_assist,
    control_aux1_assist, control_aux2_assist.
  destruct (type b), (DRIVEBOARD_USB cfg); try exact M;
    left; destruct a; reflexivity.
Qed.

(** X16.  A run of the interrupt moves no axis by more than one step:
    whatever the state and the sense inputs, each position is afterwards
    what it was or one step from it. *)
Theorem one_step_per_run i st :
  forall a,
    one_step (stepper_position st a) (stepper_position (ISR_TIMER1_COMPA cfg i st) a).
Proof.
  intros a. unfold ISR_TIMER1_COMPA.
  destruct (busy st); [left; reflexivity|]. cbv zeta.
  change (stop_requested (set_busy true st)) with (stop_requested st).
  destruct (stop_requested st).
  { left. unfold stepper_stop_processing, planner_reset_block_buffer,
      control_laser_intensity. destruct a; reflexivity. }
  destruct (limit_hit cfg i).
  { left. unfold stepper_request_stop, serial_stop, honor_interlocks,
      control_laser_intensity. split_ifs; destruct a; reflexivity. }
  fold (prologue i st).
  pose proof (prologue_tracer cfg i st) as (_ & _ & _ & _ & Tx & Ty & Tz & _).
  assert (E : stepper_position (prologue i st) a = stepper_position st a)
    by (destruct a; cbn; assumption).
  rewrite <- E. clear E Tx Ty Tz.
  unfold planner_get_current_block.
  forget (prologue i st) as s1.
  assert (B : forall b s, stepper_position (set_busy false (process_block cfg b s)) a =
                          stepper_position (process_block cfg b s) a)
    by (intros; destruct a; reflexivity).
  destruct (current_block s1).
  { rewrite B. apply process_block_position. }
  destruct (hd_error (planner_queue s1)) as [b|].
  - rewrite B.
    assert (E : stepper_position
                  (if is_motion b
                   then start_line_block cfg b (set_current_block (Some b) s1)
                   else set_current_block (Some b) s1) a = stepper_position s1 a).
    { destruct (is_motion b); [|destruct a; reflexivity].
      pose proof (start_line_block_frame cfg b (set_current_block (Some b) s1))
        as (_ & P & _).
      rewrite P. destruct a; reflexivity. }
    rewrite <- E. apply process_block_position.
  - left. unfold stepper_stop_processing, control_laser_intensity.
    destruct a; reflexivity.
Qed.

End One_step.

(** ** The speed profile, run by run *)

Section Profile.

Variable cfg : config.

Local Abbreviation prologue := (prologue cfg).
Local Abbreviation entry := (entry cfg).
Local Abbreviation no_limit := (no_limit cfg).
Local Abbreviation timer_in_step := (timer_in_step cfg).

(** The rate [speed_adjustment] leaves, phase by phase. *)
Lemma speed_adjustment_phase b st :
  let k := step_events_completed st in
  let r := adjusted_rate st in
  let r' := adjusted_rate (speed_adjustment cfg b st) in
  k < step_event_count b ->
  (k < accelerate_until b -> r' = r \/ r' = accelerated b r) /\
  (accelerate_until b <= k < decelerate_after b -> r' = nominal_rate b) /\
  (accelerate_until b <= k -> k = decelerate_after b -> r' = r) /\
  (accelerate_until b <= k -> decelerate_after b < k ->
   r' = r \/ r' = decelerated b r).
Proof.
  cbv zeta. intros Hk. unfold speed_adjustment.
  destruct (Z.ltb_spec (step_events_completed st) (step_event_count b)); [|lia].
  destruct (Z.ltb_spec (step_events_completed st) (accelerate_until b)).
  { pose proof (accelerating_frame cfg b st) as (_ & _ & R).
    repeat split; intros; try lia; exact R. }
  destruct (Z.eqb_spec (step_events_completed st) (decelerate_after b)).
  { repeat split; intros; try lia; reflexivity. }
  destruct (Z.leb_spec (decelerate_after b) (step_events_completed st)).
  { pose proof (decelerating_frame cfg b st) as (_ & _ & R).
    repeat split; intros; try lia; exact R. }
  pose proof (cruising_frame cfg b st) as (_ & R & _).
  repeat split; intros; try lia; exact R.
Qed.

Lemma ISR_rate b q i st :
  feeding b q st -> is_motion b = true -> no_limit i ->
  let e := entry b i st in
  let s := bresenham cfg b e in
  adjusted_rate e = rate_before b st /\
  adjusted_rate s = rate_before b st /\
  step_events_completed (ISR_TIMER1_COMPA cfg i st) = step_events_completed s /\
  adjusted_rate (ISR_TIMER1_COMPA cfg i st) = adjusted_rate (speed_adjustment cfg b s).
Proof.
  intros F Hm Hl. cbv zeta.
  rewrite (ISR_motion cfg b q i st F Hm Hl).
  pose proof (entry_frame cfg b q i st F) as E. cbv zeta in E.
  destruct E as (_ & _ & _ & _ & _ & _ & E).
  assert (R : adjusted_rate (entry b i st) = rate_before b st).
  { unfold rate_before. destruct (current_block st); intuition. }
  clear E.
  pose proof (bresenham_elsewhere cfg b (entry b i st)) as (_ & _ & (P & _) & _).
  forget (entry b i st) as e.
  forget (bresenham cfg b e) as s.
  pose proof (speed_adjustment_frame cfg b s) as (T & _). cbv zeta in T.
  unfold same_tracer in T. destruct T as (_ & _ & _ & _ & _ & _ & _ & T).
  forget (speed_adjustment cfg b s) as s'.
  cbn. repeat split; congruence.
Qed.

(** X17.  The trapezoid, run by run of a motion block that is not
    finished.  While accelerating the rate stays or grows by at most
    [rate_delta], never past the nominal rate; while cruising it is exactly
    the nominal rate; the run that reaches [decelerate_after] leaves it; and
    while decelerating it stays or falls by at most [rate_delta], never
    below the final rate.  The rate before the run is non-negative and its
    sum with [rate_delta] fits 32 bits. *)
Theorem trapezoid_step b q i st :
  feeding b q st -> is_motion b = true -> no_limit i ->
  0 <= rate_delta b -> 0 <= rate_before b st ->
  rate_before b st + rate_delta b <= UINT32_MAX ->
  let r := rate_before b st in
  let st' := ISR_TIMER1_COMPA cfg i st in
  let k := step_events_completed st' in
  let r' := adjusted_rate st' in
  k < step_event_count b ->
  (k < accelerate_until b -> r <= nominal_rate b ->
   r <= r' <= r + rate_delta b /\ r' <= nominal_rate b) /\
  (accelerate_until b <= k < decelerate_after b -> r' = nominal_rate b) /\
  (accelerate_until b <= k -> k = decelerate_after b -> r' = r) /\
  (accelerate_until b <= k -> decelerate_after b < k -> final_rate b <= r ->
   r - rate_delta b <= r' <= r /\ final_rate b <= r').
Proof.
  intros F Hm Hl Hd Hr Ho. cbv zeta.
  pose proof (ISR_rate b q i st F Hm Hl) as (_ & R & K & R'). cbv zeta in *.
  rewrite K, R'. intros Hk.
  pose proof (speed_adjustment_phase b (bresenham cfg b (entry b i st)) Hk) as P.
  cbv zeta in P. rewrite R in P.
  forget (bresenham cfg b (entry b i st)) as s.
  forget (adjusted_rate (speed_adjustment cfg b s)) as r'.
  forget (rate_before b st) as r.
  destruct P as (P1 & P2 & P3 & P4).
  split; [|split; [|split]].
  - intros H1 H2. unfold accelerated in P1. cbv zeta in P1.
    rewrite uint32_small in P1 by lia.
    destruct (Z.ltb_spec (nominal_rate b) (r + rate_delta b));
      destruct (P1 H1); lia.
  - exact P2.
  - exact P3.
  - intros H1 H2 H3. unfold decelerated in P4. cbv zeta in P4.
    destruct (Z.ltb_spec (rate_delta b) r).
    + rewrite uint32_small in P4 by (unfold UINT32_MAX in *; lia).
      destruct (Z.ltb_spec (r - rate_delta b) (final_rate b));
        destruct (P4 H1 H2); lia.
    + destruct (Z.ltb_spec 0 (final_rate b)); destruct (P4 H1 H2); lia.
Qed.

End Profile.

Section Timer_in_step.

Variable cfg : config.

Local Abbreviation prologue := (prologue cfg).
Local Abbreviation entry := (entry cfg).
Local Abbreviation no_limit := (no_limit cfg).
Local Abbreviation timer_in_step := (timer_in_step cfg).

Lemma apply_rate_in_step b st : timer_in_step (apply_rate cfg b st).
Proof.
  unfold timer_in_step, apply_rate.
  destruct (adjust_speed_cycles cfg (adjusted_rate st) st) as (C & R).
  forget (adjust_speed cfg (adjusted_rate st) st) as s1.
  unfold adjust_beam_dynamics, control_laser_intensity.
  destruct (type b); cbn; rewrite C, R; reflexivity.
Qed.

Lemma accelerating_in_step b st :
  timer_in_step st -> timer_in_step (accelerating cfg b st).
Proof.
  intros H. unfold accelerating.
  pose proof (acceleration_tick_frame cfg st) as (_ & R & C & _).
  destruct (acceleration_tick cfg st) as [tick s1]. cbn [snd] in R, C.
  destruct tick; [apply apply_rate_in_step|].
  unfold timer_in_step in *. congruence.
Qed.

Lemma decelerating_in_step b st :
  timer_in_step st -> timer_in_step (decelerating cfg b st).
Proof.
  intros H. unfold decelerating.
  pose proof (acceleration_tick_frame cfg st) as (_ & R & C & _).
  destruct (acceleration_tick cfg st) as [tick s1]. cbn [snd] in R, C.
  destruct tick; [apply apply_rate_in_step|].
  unfold timer_in_step in *. congruence.
Qed.

Lemma cruising_in_step b st :
  timer_in_step st -> timer_in_step (cruising cfg b st).
Proof.
  intros H. unfold cruising. cbv zeta.
  assert (P : timer_in_step
                (if negb (adjusted_rate st =? nominal_rate b)
                 then apply_rate cfg b (set_adjusted_rate (nominal_rate b) st)
                 else st))
    by (destruct (negb _); [apply apply_rate_in_step|exact H]).
  forget (if negb (adjusted_rate st =? nominal_rate b) then _ else _) as s1.
  unfold serial_raster_read, control_laser_intensity.
  destruct (type b); try exact P.
  destruct (_ =? 0); exact P.
Qed.

Lemma speed_adjustment_in_step b st :
  timer_in_step st -> timer_in_step (speed_adjustment cfg b st).
Proof.
  intros H. unfold speed_adjustment.
  destruct (step_events_completed st <? step_event_count b).
  - destruct (step_events_completed st <? accelerate_until b);
      [apply accelerating_in_step; exact H|].
    destruct (step_events_completed st =? decelerate_after b); [exact H|].
    destruct (decelerate_after b <=? step_events_completed st);
      [apply decelerating_in_step|apply cruising_in_step]; exact H.
  - unfold planner_discard_current_block, serial_consume_data.
    destruct (type b); exact H.
Qed.

Lemma start_line_block_in_step b st : timer_in_step (start_line_block cfg b st).
Proof.
  unfold start_line_block. cbv zeta.
  pose proof (apply_rate_in_step b
    (set_acceleration_tick_counter (CYCLES_PER_ACCELERATION_TICK cfg / 2)
       (set_adjusted_rate (initial_rate b) st))) as P.
  forget (apply_rate cfg b _) as s1. exact P.
Qed.

Lemma timer_in_step_set_busy v st : timer_in_step st -> timer_in_step (set_busy v st).
Proof. intros H. exact H. Qed.

(** A run on a motion block leaves the step timer set for the rate. *)
Lemma ISR_in_step b q i st :
  feeding b q st -> is_motion b = true -> no_limit i ->
  current_block st = None \/ timer_in_step st ->
  timer_in_step (ISR_TIMER1_COMPA cfg i st).
Proof.
  intros F Hm Hl H.
  rewrite (ISR_motion cfg b q i st F Hm Hl).
  assert (E : timer_in_step (entry b i st)).
  { unfold entry. destruct (current_block st).
    - destruct H as [H|H]; [discriminate|].
      pose proof (prologue_profile cfg i st) as (R & _ & C).
      unfold timer_in_step in *. congruence.
    - apply start_line_block_in_step. }
  pose proof (bresenham_elsewhere cfg b (entry b i st)) as (_ & _ & (R & _ & C) & _).
  assert (B : timer_in_step (bresenham cfg b (entry b i st)))
    by (unfold timer_in_step in *; congruence).
  forget (bresenham cfg b (entry b i st)) as s.
  apply timer_in_step_set_busy, speed_adjustment_in_step, B.
Qed.


End Timer_in_step.

(** The trapezoid block on [board], its second and its tenth run. *)
Lemma trapezoid_step_on_board :
  let st := run_isr board (repeat quiet 9) (armed [ramp] []) in
  (feeding ramp [] st /\ is_motion ramp = true /\ no_limit board quiet /\
   0 <= rate_delta ramp /\ 0 <= rate_before ramp st /\
   rate_before ramp st + rate_delta ramp <= UINT32_MAX) /\
  let r := rate_before ramp st in
  let st' := ISR_TIMER1_COMPA board quiet st in
  let k := step_events_completed st' in
  let r' := adjusted_rate st' in
  k < step_event_count ramp ->
  (k < accelerate_until ramp -> r <= nominal_rate ramp ->
   r <= r' <= r + rate_delta ramp /\ r' <= nominal_rate ramp) /\
  (accelerate_until ramp <= k < decelerate_after ramp -> r' = nominal_rate ramp) /\
  (accelerate_until ramp <= k -> k = decelerate_after ramp -> r' = r) /\
  (accelerate_until ramp <= k -> decelerate_after ramp < k -> final_rate ramp <= r ->
   r - rate_delta ramp <= r' <= r /\ final_rate ramp <= r').
Proof.
  under_hypotheses
    ltac:(conjuncts; try (unfold feeding; conjuncts; try (right; reflexivity));
          evaluated).
  intros (H1 & H2 & H3 & H4 & H5 & H6).
  exact (trapezoid_step board ramp [] quiet
           (run_isr board (repeat quiet 9) (armed [ramp] [])) H1 H2 H3 H4 H5 H6).
Defined.


(** ** The end of a homing cycle *)

Section Homing_end.

Import Homing.

Variable cfg : config.
Variable reverse_direction : bool.

Local Abbreviation step_lines_ok := (step_lines_ok cfg).
Local Abbreviation seat := (seat cfg).
Local Abbreviation seated := (seated cfg).
Local Abbreviation homed := (homed cfg).
Local Abbreviation end_stop := (end_stop cfg reverse_direction).
Local Abbreviation iteration := (iteration cfg reverse_direction).
Local Abbreviation loop := (loop cfg reverse_direction).

Lemma seated_iteration a (limit_pin : nat -> Z) N t l :
  step_lines_ok -> (a = Z_AXIS -> ENABLE_3AXES cfg <> None) ->
  end_stop a (limit_pin t) = (N <=? t)%nat ->
  seated a N t l -> seated a N (S t) (fst (iteration (limit_pin t) l)).
Proof.
  intros Hp Hz He Hs.
  pose proof (seated_step cfg reverse_direction a limit_pin N t l Hp Hz He Hs) as T.
  fold (iteration (limit_pin t) l) in T.
  destruct (snd (iteration (limit_pin t) l)); apply T.
Qed.

Lemma seated_active a N t l :
  seated a N t l -> axis_active a l = (t <=? N + 6)%nat.
Proof.
  unfold seated, seat. destruct (t <=? N + 6)%nat; [congruence|tauto].
Qed.

(** An axis that is done stays done. *)
Lemma iteration_inactive a pin l :
  axis_active a l = false -> axis_active a (fst (iteration pin l)) = false.
Proof.
  intros H. unfold iteration, Homing.iteration. cbv zeta.
  assert (X : forall m, axis_active a (overshoot_x cfg reverse_direction pin m) = true ->
                        axis_active a m = true)
    by (intros m; unfold overshoot_x; split_ifs; destruct a; cbn; congruence).
  assert (Y : forall m, axis_active a (overshoot_y cfg reverse_direction pin m) = true ->
                        axis_active a m = true)
    by (intros m; unfold overshoot_y; split_ifs; destruct a; cbn; congruence).
  assert (Z' : forall m, axis_active a (overshoot_z cfg reverse_direction pin m) = true ->
                         axis_active a m = true)
    by (intros m; unfold overshoot_z; destruct (ENABLE_3AXES cfg); [|auto];
        split_ifs; destruct a; cbn; congruence).
  destruct (axis_active a (overshoot_z cfg reverse_direction pin
              (overshoot_y cfg reverse_direction pin
                 (overshoot_x cfg reverse_direction pin l)))) eqn:E.
  { apply Z', Y, X in E. congruence. }
  forget (overshoot_z cfg reverse_direction pin _) as l3.
  destruct (x_axis l3 || y_axis l3 || z_axis l3); cbn [fst]; [|exact E].
  destruct a; exact E.
Qed.

(** The loop breaks in the iteration that leaves no axis homing. *)
Lemma iteration_break pin l :
  match snd (iteration pin l) with
  | Some _ => exists a, axis_active a (fst (iteration pin l)) = true
  | None => forall a, axis_active a (fst (iteration pin l)) = false
  end.
Proof.
  unfold iteration, Homing.iteration. cbv zeta.
  forget (overshoot_z cfg reverse_direction pin _) as l3.
  destruct (x_axis l3) eqn:Ex; cbn [orb fst snd].
  { exists X_AXIS. exact Ex. }
  destruct (y_axis l3) eqn:Ey; cbn [orb fst snd].
  { exists Y_AXIS. exact Ey. }
  destruct (z_axis l3) eqn:Ez; cbn [orb fst snd].
  { exists Z_AXIS. exact Ez. }
  intros []; assumption.
Qed.

Section Seats.

Variables (x y z : bool) (limit_pin : nat -> Z) (N : axis -> nat).
Hypothesis pins : step_lines_ok.
Hypothesis z_enabled : z = true -> ENABLE_3AXES cfg <> None.
Hypothesis seats :
  forall a, selected x y z a = true ->
  forall t, end_stop a (limit_pin t) = (N a <=? t)%nat.

Lemma selected_enabled a :
  selected x y z a = true -> a = Z_AXIS -> ENABLE_3AXES cfg <> None.
Proof. intros H ->. apply z_enabled. exact H. Qed.

Lemma loop_ends fuel :
  forall t l,
    (forall a, if selected x y z a then seated a (N a) t l else axis_active a l = false) ->
    (homing_pulses N x y z - t < fuel)%nat ->
    length (fst (loop fuel limit_pin t l)) = (homing_pulses N x y z - t)%nat /\
    exists l', snd (loop fuel limit_pin t l) = Some l'.
Proof.
  induction fuel as [|fuel IH]; intros t l Inv Hf; [lia|].
  cbn [loop Homing.loop].
  assert (Inv' : forall a, if selected x y z a
                           then seated a (N a) (S t) (fst (iteration (limit_pin t) l))
                           else axis_active a (fst (iteration (limit_pin t) l)) = false).
  { intros a. specialize (Inv a). destruct (selected x y z a) eqn:Sa.
    - apply seated_iteration;
        [exact pins|exact (selected_enabled a Sa)|exact (seats a Sa t)|exact Inv].
    - apply iteration_inactive. exact Inv. }
  assert (Act : forall a, axis_active a (fst (iteration (limit_pin t) l)) =
                          selected x y z a && (t <? N a + 6)%nat).
  { intros a. specialize (Inv' a). destruct (selected x y z a).
    - rewrite (seated_active _ _ _ _ Inv'). cbn [andb].
      destruct (Nat.leb_spec (S t) (N a + 6)), (Nat.ltb_spec t (N a + 6)); lia.
    - exact Inv'. }
  pose proof (iteration_break (limit_pin t) l) as Br.
  fold (iteration (limit_pin t) l).
  destruct (iteration (limit_pin t) l) as [l' out]. cbn [fst snd] in *.
  destruct out as [w|].
  - destruct Br as (a & Ha). rewrite Act in Ha.
    apply andb_prop in Ha. destruct Ha as (Sa & Ta).
    apply Nat.ltb_lt in Ta.
    assert (Lt : (t < homing_pulses N x y z)%nat).
    { unfold homing_pulses. destruct a; cbn in Sa; rewrite Sa; lia. }
    destruct (IH (S t) l' Inv' ltac:(lia)) as (L & l'' & E).
    fold (loop fuel limit_pin (S t) l') in *.
    destruct (loop fuel limit_pin (S t) l') as [rest final]. cbn [fst snd length] in *.
    split; [lia|]. exists l''. exact E.
  - cbn [fst snd length]. split; [|exists l'; reflexivity].
    assert (Ge : (homing_pulses N x y z <= t)%nat); [|lia].
    pose proof (Br X_AXIS) as Bx. pose proof (Br Y_AXIS) as By.
    pose proof (Br Z_AXIS) as Bz. rewrite Act in Bx, By, Bz.
    unfold homing_pulses. cbn [selected] in Bx, By, Bz.
    destruct x, y, z; cbn [andb] in *;
      repeat match goal with
             | H : (_ <? _)%nat = false |- _ => apply Nat.ltb_ge in H
             end; lia.
Qed.

(** A homing cycle whose end-stops all seat ends, six pulsing iterations
    past the last of them, with the position cleared. *)
Lemma homing_cycle_ends fuel st :
  (homing_pulses N x y z < fuel)%nat ->
  let r := homing_cycle cfg reverse_direction fuel x y z limit_pin st in
  length (fst r) = homing_pulses N x y z /\
  exists st', snd r = Some st' /\ forall a, stepper_position st' a = 0.
Proof.
  intros Hf. cbv zeta. unfold homing_cycle.
  destruct (loop_ends fuel 0 (start cfg reverse_direction x y z (STEPPING_PORT st)))
    as (L & l' & E).
  { intros a. destruct (selected x y z a) eqn:Sa.
    - apply start_seated; [exact pins|].
      destruct a; cbn in Sa |- *; auto.
    - destruct a; cbn in Sa |- *; exact Sa. }
  { lia. }
  fold (loop fuel limit_pin 0 (start cfg reverse_direction x y z (STEPPING_PORT st))).
  destruct (loop fuel limit_pin 0 _) as [tr final]. cbn [fst snd] in *. subst final.
  split; [lia|]. eexists. split; [reflexivity|]. intros []; reflexivity.
Qed.

End Seats.

End Homing_end.

Section Homing_cycles.

Import Homing.

Variable cfg : config.

Local Abbreviation step_lines_ok := (step_lines_ok cfg).
Local Abbreviation step_pins_ok := (step_pins_ok cfg).
Local Abbreviation homed := (homed cfg).
Local Abbreviation seat := (seat cfg).
Local Abbreviation pulsed_on := (pulsed_on cfg).
Local Abbreviation inverted := (inverted cfg).

(** X19.  [stepper_homing_cycle] ends when the end-stops seat.  If, in the
    approach and again in the leave, the end-stop of every homed axis
    asserts from some iteration on, both loops end: each pulses through the
    sixth iteration after the last of its end-stops asserted and breaks in
    the next, and the cycle returns with the position cleared on every
    axis.  The step bits are plain bits of the stepping mask. *)
Theorem stepper_homing_cycle_ends approach leave (Na Nl : axis -> nat) fuel st :
  step_pins_ok ->
  let z := match ENABLE_3AXES cfg with Some _ => true | None => false end in
  (forall a, selected true true z a = true ->
   forall t, end_stop cfg false a (approach t) = (Na a <=? t)%nat) ->
  (forall a, selected true true z a = true ->
   forall t, end_stop cfg true a (leave t) = (Nl a <=? t)%nat) ->
  (homing_pulses Na true true z < fuel)%nat ->
  (homing_pulses Nl true true z < fuel)%nat ->
  let r := stepper_homing_cycle cfg fuel approach leave st in
  length (fst (fst r)) = homing_pulses Na true true z /\
  length (snd (fst r)) = homing_pulses Nl true true z /\
  exists st', snd r = Some st' /\ forall a, stepper_position st' a = 0.
Proof.
  intros Hp z Ha Hl Hfa Hfl. cbv zeta. unfold stepper_homing_cycle. fold z.
  assert (Hz : z = true -> ENABLE_3AXES cfg <> None)
    by (unfold z; destruct (ENABLE_3AXES cfg); congruence).
  pose proof (step_pins_lines cfg Hp) as Hq.
  pose proof (homing_cycle_ends cfg false true true z approach Na Hq Hz Ha fuel st Hfa)
    as (L1 & st1 & E1 & _).
  destruct (homing_cycle cfg false fuel true true z approach st) as [towards r1].
  cbn [fst snd] in L1, E1. subst r1.
  pose proof (homing_cycle_ends cfg true true true z leave Nl Hq Hz Hl fuel st1 Hfl)
    as (L2 & st2 & E2 & P2).
  destruct (homing_cycle cfg true fuel true true z leave st1) as [away r2].
  cbn [fst snd] in *. subst r2.
  split; [exact L1|]. split; [exact L2|]. exists st2. split; [reflexivity|exact P2].
Qed.

(** X20.  A homing loop has no other way out than the end-stops.  The
    step bits being distinct bits of the stepping mask outside the
    direction mask, when the end-stop of a homed axis never asserts the
    loop does not end, however many iterations it is given; in every
    iteration its port writes pulse the step pin of that axis when the step
    line is not inverted, and in no iteration when it is (its step bit is
    in [INVERT_MASK]). *)
Theorem homing_without_end_stop reverse_direction a x y z stepping_port
    (limit_pin : nat -> Z) fuel :
  step_lines_ok -> homed a x y z ->
  (forall t, end_stop cfg reverse_direction a (limit_pin t) = false) ->
  let r := loop cfg reverse_direction fuel limit_pin 0
             (start cfg reverse_direction x y z stepping_port) in
  length (fst r) = fuel /\ snd r = None /\
  forall t, (t < fuel)%nat ->
    pulsed_on a (nth t (fst r) no_write) = negb (inverted a).
Proof.
  intros Hp Hh He. cbv zeta.
  assert (Hz : a = Z_AXIS -> ENABLE_3AXES cfg <> None)
    by (intros ->; cbn in Hh; tauto).
  assert (G : forall fuel t l c,
            seat a l = (true, c, negb (inverted a)) ->
            length (fst (loop cfg reverse_direction fuel limit_pin t l)) = fuel /\
            snd (loop cfg reverse_direction fuel limit_pin t l) = None /\
            forall i, (i < fuel)%nat ->
              pulsed_on a (nth i (fst (loop cfg reverse_direction fuel limit_pin t l))
                             no_write) =
              negb (inverted a)).
  { clear fuel. induction fuel as [|fuel IH]; intros t l c Hs.
    - cbn. repeat split. intros i Hi. lia.
    - cbn [loop].
      destruct (iteration_seat cfg reverse_direction a (limit_pin t) l Hp Hz) as (S1 & O1).
      rewrite He, Hs in S1. cbn [seat_next andb] in S1.
      destruct (iteration cfg reverse_direction (limit_pin t) l) as [l' out].
      cbn [fst snd] in *.
      destruct out as [w|].
      + rewrite S1 in O1. cbn [snd] in O1.
        destruct (IH (S t) l' c S1) as (L & E & P).
        destruct (loop cfg reverse_direction fuel limit_pin (S t) l') as [rest final].
        cbn [fst snd length] in *. split; [lia|]. split; [exact E|].
        intros [|i] Hi; cbn [nth]; [exact O1|apply P; lia].
      + unfold seat in S1. rewrite O1 in S1. discriminate. }
  pose proof (start_seated cfg reverse_direction a x y z stepping_port 0 Hp Hh) as S0.
  unfold seated in S0. cbn [Nat.leb Nat.add] in S0.
  exact (G fuel 0%nat _ _ S0).
Qed.

(** X21.  The direction pins of the two homing loops.  Setting out, a
    homing loop drives every direction pin of the stepping port to the
    inverse of its bit of [INVERT_MASK] when it approaches the switches and
    to that bit itself when it leaves them, opposite to the approach; the
    pins outside [DIRECTION_MASK] are as it found them. *)
Theorem homing_direction_pins x y z stepping_port k :
  0 <= k < 8 ->
  let approach := port (start cfg false x y z stepping_port) in
  let leave := port (start cfg true x y z stepping_port) in
  if Z.testbit (DIRECTION_MASK cfg) k
  then Z.testbit approach k = negb (Z.testbit (INVERT_MASK cfg) k) /\
       Z.testbit leave k = Z.testbit (INVERT_MASK cfg) k
  else Z.testbit approach k = Z.testbit stepping_port k /\
       Z.testbit leave k = Z.testbit stepping_port k.
Proof.
  intros Hk. cbv zeta. unfold start. cbv zeta. cbn [port].
  destruct x, y, z;
    repeat (progress rewrite ?uint8_testbit, ?Z.lor_spec, ?Z.land_spec, ?Z.lxor_spec,
              ?Z.lnot_spec by lia);
    repeat match goal with
           | |- context [Z.testbit ?u ?v] => destruct (Z.testbit u v)
           end; split; reflexivity.
Qed.

End Homing_cycles.

Lemma seats_at_end_stop nx ny nz leaving a t :
  end_stop board leaving a (seats_at nx ny nz leaving t) =
  (seat_times nx ny nz a <=? t)%nat.
Proof.
  unfold end_stop, Homing.sense_limit, Homing.limit_bits, seats_at, seat_times.
  destruct (Nat.ltb_spec t nx), (Nat.ltb_spec t ny), (Nat.ltb_spec t nz), leaving, a;
    cbn [xorb];
    match goal with
    | |- _ = (?n <=? t)%nat => destruct (Nat.leb_spec n t); try lia
    end; reflexivity.
Qed.

(** Homing the three axes of [board]: the switches are reached after 3, 5
    and 2 iterations, and left after 1, 4 and 2. *)
Lemma stepper_homing_cycle_ends_on_board :
  let approach := seats_at 3 5 2 false in
  let leave := seats_at 1 4 2 true in
  let Na := seat_times 3 5 2 in
  let Nl := seat_times 1 4 2 in
  let st := armed [] [] in
  (step_pins_ok board /\
   let z := match ENABLE_3AXES board with Some _ => true | None => false end in
   (forall a, selected true true z a = true ->
    forall t, end_stop board false a (approach t) = (Na a <=? t)%nat) /\
   (forall a, selected true true z a = true ->
    forall t, end_stop board true a (leave t) = (Nl a <=? t)%nat) /\
   (homing_pulses Na true true z < 20)%nat /\
   (homing_pulses Nl true true z < 20)%nat) /\
  let z := match ENABLE_3AXES board with Some _ => true | None => false end in
  let r := stepper_homing_cycle board 20 approach leave st in
  length (fst (fst r)) = homing_pulses Na true true z /\
  length (snd (fst r)) = homing_pulses Nl true true z /\
  exists st', snd r = Some st' /\ forall a, stepper_position st' a = 0.
Proof.
  under_hypotheses
    ltac:(split; [exact board_step_pins_ok|]; conjuncts;
          try (intros a _ t; apply seats_at_end_stop); cbn; lia).
  intros (H1 & H2 & H3 & H4 & H5).
  exact (stepper_homing_cycle_ends board (seats_at 3 5 2 false) (seats_at 1 4 2 true)
           (seat_times 3 5 2) (seat_times 1 4 2) 20 (armed [] []) H1 H2 H3 H4 H5).
Defined.

(** Homing X on [board] with the X1 switch never reached. *)
Lemma homing_without_end_stop_on_board :
  let limit_pin := fun _ : nat => 63 in
  (step_lines_ok board /\ homed board X_AXIS true false false /\
   (forall t, end_stop board false X_AXIS (limit_pin t) = false)) /\
  let r := Homing.loop board false 10 limit_pin 0
             (Homing.start board false true false false 0) in
  length (fst r) = 10%nat /\ snd r = None /\
  forall t, (t < 10)%nat -> pulsed_on board X_AXIS (nth t (fst r) no_write) = true.
Proof.
  under_hypotheses
    ltac:(split; [exact board_step_lines_ok|]; split; [reflexivity|];
          intros t; reflexivity).
  intros (H1 & H2 & H3).
  exact (homing_without_end_stop board false X_AXIS true false false 0
           (fun _ : nat => 63) 10 H1 H2 H3).
Defined.

(** The X direction pin of [board]. *)
Lemma homing_direction_pins_on_board :
  0 <= 3 < 8 /\
  let approach := Homing.port (Homing.start board false true true true 0) in
  let leave := Homing.port (Homing.start board true true true true 0) in
  if Z.testbit (DIRECTION_MASK board) 3
  then Z.testbit approach 3 = negb (Z.testbit (INVERT_MASK board) 3) /\
       Z.testbit leave 3 = Z.testbit (INVERT_MASK board) 3
  else Z.testbit approach 3 = Z.testbit 0 3 /\
       Z.testbit leave 3 = Z.testbit 0 3.
Proof.
  under_hypotheses ltac:(lia).
  intros H. exact (homing_direction_pins board true true true 0 3 H).
Defined.

(** ** The raster intensity *)

Lemma int16_small z : - 32768 <= z <= 32767 -> int16 z = z.
Proof.
  intros H. unfold int16, wrap_signed. change (2 ^ (16 - 1)) with 32768.
  change (2 ^ 16) with 65536. rewrite Z.mod_small; lia.
Qed.

Lemma raster_intensity_exact chr nominal :
  128 <= chr -> 0 <= nominal -> (chr - 128) * 2 * nominal <= 32767 ->
  raster_intensity chr nominal = (chr - 128) * 2 * nominal / 255.
Proof.
  intros Hc Hn Hp. unfold raster_intensity.
  assert (0 <= (chr - 128) * 2 * nominal) by nia.
  rewrite int16_small by lia. apply Z.quot_div_nonneg; lia.
Qed.

(** X22.  The intensity of a raster byte, as long as the product
    [(byte-128)*2*nominal_laser_intensity] fits the 16-bit [int] it is
    computed in: it is that product divided by 255, rounded down; it is 0
    for the byte 128, grows with the byte, and stays below the nominal
    intensity even for the byte 255, since the bytes span 254 and not 255
    steps. *)
Theorem raster_intensity_scale chr chr' nominal :
  128 <= chr <= chr' -> chr' <= 255 -> 1 <= nominal ->
  (chr' - 128) * 2 * nominal <= 32767 ->
  raster_intensity chr' nominal = (chr' - 128) * 2 * nominal / 255 /\
  raster_intensity 128 nominal = 0 /\
  0 <= raster_intensity chr nominal <= raster_intensity chr' nominal /\
  raster_intensity chr' nominal < nominal.
Proof.
  intros Hc Hc' Hn Hp.
  assert (P : (chr - 128) * 2 * nominal <= (chr' - 128) * 2 * nominal) by nia.
  assert (P0 : 0 <= (chr - 128) * 2 * nominal) by nia.
  rewrite !raster_intensity_exact by lia.
  split; [reflexivity|]. split; [reflexivity|]. split; [split|].
  - apply Z.div_pos; lia.
  - apply Z.div_le_mono; lia.
  - apply Z.div_lt_upper_bound; [lia|]. nia.
Qed.

(** The bytes 192 and 255 at the nominal intensity 100. *)
Lemma raster_intensity_scale_at_100 :
  (128 <= 192 <= 255 /\ 255 <= 255 /\ 1 <= 100 /\ (255 - 128) * 2 * 100 <= 32767) /\
  raster_intensity 255 100 = (255 - 128) * 2 * 100 / 255 /\
  raster_intensity 128 100 = 0 /\
  0 <= raster_intensity 192 100 <= raster_intensity 255 100 /\
  raster_intensity 255 100 < 100.
Proof.
  under_hypotheses ltac:(lia).
  intros (H1 & H2 & H3 & H4). exact (raster_intensity_scale 192 255 100 H1 H2 H3 H4).
Defined.

(** ** Initialisation *)

Section Init.

Variable cfg : config.

Lemma step_timer_prescaler cycles :
  0 <= snd (fst (step_timer_setting cycles)) <= 4.
Proof. unfold step_timer_setting. cbv zeta. split_ifs; cbn [fst snd]; lia. Qed.

(** [adjust_speed] as the registers it writes. *)
Lemma adjust_speed_writes r st :
  exists c p a,
    0 <= p <= 4 /\
    a = snd (step_timer_setting
               (CYCLES_PER_MINUTE cfg / Z.max r (MINIMUM_STEPS_PER_MINUTE cfg))) /\
    adjust_speed cfg r st =
      set_cycles_per_step_event a
        (set_OCR1A c
           (set_TCCR1B (uint8 (Z.lor (Z.land (TCCR1B st) (Z.lnot (Z.shiftl 7 CS10)))
                                     (Z.shiftl (p + 1) CS10))) st)).
Proof.
  unfold adjust_speed, config_step_timer.
  replace (if r <? MINIMUM_STEPS_PER_MINUTE cfg
           then MINIMUM_STEPS_PER_MINUTE cfg else r)
    with (Z.max r (MINIMUM_STEPS_PER_MINUTE cfg))
    by (destruct (Z.ltb_spec r (MINIMUM_STEPS_PER_MINUTE cfg)); lia).
  pose proof (step_timer_prescaler
                (CYCLES_PER_MINUTE cfg / Z.max r (MINIMUM_STEPS_PER_MINUTE cfg))) as Hp.
  destruct (step_timer_setting _) as [[c p] a]. cbn [fst snd] in Hp.
  exists c, p, a. repeat split; lia.
Qed.


End Init.

(** [board] initialised at the origin from power-on, a queue given and the
    stepper started: the state [armed], but for the clock-select bits. *)
Lemma armed_after_init q :
  set_TCCR1B 12
    (stepper_start_processing board
       (set_planner_queue q (snd (stepper_init board 0 0 0 cleared power_on)))) =
  armed q [].
Proof. reflexivity. Qed.

(** ** A run that sees a limit switch *)

Section Limit.

Variable cfg : config.

(** X24.  A run of the interrupt that sees a limit switch stops short of
    every pulse: it records the stop with the status of the switch and
    returns, the ports and their timers, the tracer's variables, the
    current block and the planner buffer untouched; only the door or
    chiller interlock, sensed in the same run, still turns the laser
    intensity to 0. *)
Theorem limit_run_pulses_nothing i st status :
  busy st = false -> stop_requested st = false -> limit_hit cfg i = Some status ->
  let st' := ISR_TIMER1_COMPA cfg i st in
  stop_requested st' = true /\ stop_status st' = status /\ busy st' = false /\
  pins st' = pins st /\ same_tracer st' st /\ same_feed st' st /\
  processing_flag st' = processing_flag st /\
  laser_intensity st' =
    (if SENSE_DOOR_OPEN i || SENSE_CHILLER_OFF i then 0 else laser_intensity st).
Proof.
  intros Hb Hs Hl. unfold ISR_TIMER1_COMPA. rewrite Hb. cbv zeta.
  change (stop_requested (set_busy true st)) with (stop_requested st). rewrite Hs, Hl.
  assert (He : ENABLE_LASER_INTERLOCKS cfg = true).
  { unfold limit_hit in Hl. destruct (ENABLE_LASER_INTERLOCKS cfg); [reflexivity|].
    discriminate. }
  unfold stepper_request_stop, serial_stop, honor_interlocks, control_laser_intensity,
    same_tracer, same_feed, pins.
  rewrite He. cbn [andb].
  destruct (SENSE_DOOR_OPEN i || SENSE_CHILLER_OFF i); cbn; rewrite Hs; cbn;
    repeat split.
Qed.

End Limit.

(** The Z1 and X2 switches of [board] asserted together, one step event
    into the diagonal block: X2 comes first. *)
Lemma limit_run_pulses_nothing_on_board :
  let st := run_isr board [quiet] (armed [diag34] []) in
  let i := {| SENSE_DOOR_OPEN := false; SENSE_CHILLER_OFF := false;
              SENSE_X1_LIMIT := false; SENSE_X2_LIMIT := true;
              SENSE_Y1_LIMIT := false; SENSE_Y2_LIMIT := false;
              SENSE_Z1_LIMIT := true; SENSE_Z2_LIMIT := false |} in
  (busy st = false /\ stop_requested st = false /\
   limit_hit board i = Some (STOPERROR_LIMIT_HIT_X2 board)) /\
  let st' := ISR_TIMER1_COMPA board i st in
  stop_requested st' = true /\ stop_status st' = STOPERROR_LIMIT_HIT_X2 board /\
  busy st' = false /\
  pins st' = pins st /\ same_tracer st' st /\ same_feed st' st /\
  processing_flag st' = processing_flag st /\
  laser_intensity st' =
    (if SENSE_DOOR_OPEN i || SENSE_CHILLER_OFF i then 0 else laser_intensity st).
Proof.
  under_hypotheses ltac:(evaluated).
  intros (H1 & H2 & H3).
  exact (limit_run_pulses_nothing board _ _ _ H1 H2 H3).
Defined.

(** ** The laser along a block *)

Section Laser.

Variable cfg : config.

Local Abbreviation prologue := (prologue cfg).
Local Abbreviation entry := (entry cfg).
Local Abbreviation no_limit := (no_limit cfg).
Local Abbreviation laser_in_step := (laser_in_step cfg).
Local Abbreviation calm := (calm cfg).

Lemma prologue_laser i st :
  laser_intensity (prologue i st) =
    if ENABLE_LASER_INTERLOCKS cfg && (SENSE_DOOR_OPEN i || SENSE_CHILLER_OFF i)
    then 0 else laser_intensity st.
Proof.
  unfold prologue, pulse_steppers, pulse_laser, honor_interlocks,
    control_laser_intensity, control_get_intensity.
  destruct (ENABLE_LASER_INTERLOCKS cfg && (SENSE_DOOR_OPEN i || SENSE_CHILLER_OFF i));
    frame_tac.
Qed.

Lemma apply_rate_laser b st :
  laser_intensity (apply_rate cfg b st) =
    match type b with
    | TYPE_RASTER_LINE => 0
    | _ => uint8 (beam_dynamics cfg (nominal_laser_intensity b) (nominal_rate b)
                    (adjusted_rate (apply_rate cfg b st)))
    end.
Proof.
  unfold apply_rate.
  destruct (adjust_speed_cycles cfg (adjusted_rate st) st) as (_ & R).
  forget (adjust_speed cfg (adjusted_rate st) st) as s1.
  unfold adjust_beam_dynamics, control_laser_intensity.
  destruct (type b); cbn; rewrite ?R; reflexivity.
Qed.

(** The laser through [speed_adjustment] on a block that is not a raster
    line: it is changed with the rate, and only then. *)
Lemma speed_adjustment_laser b st :
  type b <> TYPE_RASTER_LINE ->
  laser_in_step b st -> laser_in_step b (speed_adjustment cfg b st).
Proof.
  intros Ht H.
  assert (A : forall s, laser_in_step b (apply_rate cfg b s)).
  { intros s. unfold laser_in_step. rewrite apply_rate_laser.
    destruct (type b); try reflexivity. congruence. }
  assert (K : forall s, adjusted_rate s = adjusted_rate st ->
                        laser_intensity s = laser_intensity st -> laser_in_step b s)
    by (intros s R L; unfold laser_in_step in *; congruence).
  unfold speed_adjustment.
  destruct (step_events_completed st <? step_event_count b).
  - destruct (step_events_completed st <? accelerate_until b).
    { unfold accelerating.
      pose proof (acceleration_tick_frame cfg st) as (_ & R & _ & L & _).
      destruct (acceleration_tick cfg st) as [tick s1]. cbn [snd] in R, L.
      destruct tick; [apply A|apply K; assumption]. }
    destruct (step_events_completed st =? decelerate_after b); [exact H|].
    destruct (decelerate_after b <=? step_events_completed st).
    { unfold decelerating.
      pose proof (acceleration_tick_frame cfg st) as (_ & R & _ & L & _).
      destruct (acceleration_tick cfg st) as [tick s1]. cbn [snd] in R, L.
      destruct tick; [apply A|apply K; assumption]. }
    unfold cruising. cbv zeta.
    assert (P : laser_in_step b
                  (if negb (adjusted_rate st =? nominal_rate b)
                   then apply_rate cfg b (set_adjusted_rate (nominal_rate b) st)
                   else st))
      by (destruct (negb _); [apply A|exact H]).
    forget (if negb (adjusted_rate st =? nominal_rate b) then _ else _) as s1.
    destruct (type b); try exact P. congruence.
  - unfold planner_discard_current_block, serial_consume_data.
    destruct (type b); exact H.
Qed.

Lemma laser_in_step_set_busy b v st : laser_in_step b st -> laser_in_step b (set_busy v st).
Proof. intros H. exact H. Qed.

Lemma ISR_laser b q i st :
  feeding b q st -> is_motion b = true -> type b <> TYPE_RASTER_LINE -> calm i ->
  current_block st = None \/ laser_in_step b st ->
  laser_in_step b (ISR_TIMER1_COMPA cfg i st).
Proof.
  intros F Hm Ht (Hl & Hc) H.
  rewrite (ISR_motion cfg b q i st F Hm Hl).
  assert (E : laser_in_step b (entry b i st)).
  { unfold entry. destruct (current_block st).
    - destruct H as [H|H]; [discriminate|].
      pose proof (prologue_profile cfg i st) as (R & _).
      pose proof (prologue_laser i st) as L. rewrite Hc in L.
      unfold laser_in_step in *. congruence.
    - unfold start_line_block. cbv zeta.
      assert (A : laser_in_step b
                    (apply_rate cfg b
                       (set_acceleration_tick_counter (CYCLES_PER_ACCELERATION_TICK cfg / 2)
                          (set_adjusted_rate (initial_rate b)
                             (set_current_block (Some b) (prologue i st)))))).
      { unfold laser_in_step. rewrite apply_rate_laser.
        destruct (type b); try reflexivity. congruence. }
      forget (apply_rate cfg b _) as s1. exact A. }
  pose proof (bresenham_elsewhere cfg b (entry b i st)) as (_ & _ & (R & _) & _ & L & _).
  assert (B : laser_in_step b (bresenham cfg b (entry b i st)))
    by (unfold laser_in_step in *; congruence).
  forget (bresenham cfg b (entry b i st)) as s.
  apply laser_in_step_set_busy, speed_adjustment_laser; assumption.
Qed.

(** X25.  On a line block the laser follows the rate.  After every step
    event of a block of type LINE, as long as no run of it trips a limit
    switch or the door or chiller interlock, the laser intensity is the one
    [adjust_beam_dynamics] computes from [adjusted_rate]: it is set anew
    when the block is fetched and whenever the rate changes, and nothing
    else of a run touches it. *)
Theorem laser_follows_rate b q st0 ins :
  type b = TYPE_LINE ->
  1 <= step_event_count b <= INT32_MAX ->
  waiting b q st0 -> Forall calm ins ->
  1 <= Z.of_nat (length ins) <= step_event_count b ->
  laser_in_step b (run_isr cfg ins st0).
Proof.
  intros Ht Hn W.
  assert (Hm : is_motion b = true) by (unfold is_motion; rewrite Ht; reflexivity).
  assert (Hr : type b <> TYPE_RASTER_LINE) by congruence.
  induction ins as [|i ins IH] using rev_ind; intros Hc Hlen; [cbn in Hlen; lia|].
  apply Forall_app in Hc as (Hc & Hi). inversion_clear Hi as [|? ? Hi' _].
  rewrite length_app, Nat2Z.inj_add in Hlen. cbn [length] in Hlen.
  rewrite run_isr_concat. cbn [run_isr].
  destruct ins as [|i0 ins0].
  - cbn [run_isr]. apply (ISR_laser b q i st0); try assumption.
    + apply waiting_feeding; assumption.
    + left. unfold waiting in W. tauto.
  - assert (Hl : Forall no_limit (i0 :: ins0)).
    { eapply Forall_impl; [|exact Hc]. intros j (H & _). exact H. }
    assert (Hk : 1 <= Z.of_nat (length (i0 :: ins0)) <= step_event_count b)
      by (cbn [length] in *; lia).
    destruct (trace_invariant cfg b q st0 (fun _ _ => True) Hm Hn W
                ltac:(intros; exact I) ltac:(intros; exact I) (i0 :: ins0) Hl Hk)
      as (Pr & _).
    destruct (progress_feeding b q _ _ Pr ltac:(lia)) as (F & _).
    apply (ISR_laser b q i _); try assumption.
    right. apply IH; assumption.
Qed.

Lemma speed_adjustment_raster_ramp b st :
  type b = TYPE_RASTER_LINE -> laser_intensity st = 0 ->
  step_events_completed st < accelerate_until b ->
  laser_intensity (speed_adjustment cfg b st) = 0.
Proof.
  intros Ht L Hk. unfold speed_adjustment.
  destruct (step_events_completed st <? step_event_count b).
  - destruct (Z.ltb_spec (step_events_completed st) (accelerate_until b)); [|lia].
    unfold accelerating.
    pose proof (acceleration_tick_frame cfg st) as (_ & _ & _ & L' & _).
    destruct (acceleration_tick cfg st) as [tick s1]. cbn [snd] in L'.
    destruct tick; [apply apply_rate_raster_laser; exact Ht | congruence].
  - rewrite Ht. unfold planner_discard_current_block, serial_consume_data. exact L.
Qed.

Lemma ISR_raster_ramp b q i st :
  feeding b q st -> type b = TYPE_RASTER_LINE -> no_limit i ->
  current_block st = None \/ laser_intensity st = 0 ->
  step_events_completed (ISR_TIMER1_COMPA cfg i st) < accelerate_until b ->
  laser_intensity (ISR_TIMER1_COMPA cfg i st) = 0.
Proof.
  intros F Ht Hl H.
  assert (Hm : is_motion b = true) by (unfold is_motion; rewrite Ht; reflexivity).
  rewrite (ISR_motion cfg b q i st F Hm Hl).
  assert (E : laser_intensity (entry b i st) = 0).
  { unfold entry. destruct (current_block st).
    - destruct H as [H|H]; [discriminate|].
      rewrite prologue_laser. destruct (_ && _); [reflexivity|exact H].
    - unfold start_line_block. cbv zeta. apply apply_rate_raster_laser. exact Ht. }
  pose proof (bresenham_elsewhere cfg b (entry b i st)) as (_ & _ & _ & _ & L & _).
  rewrite <- L in E.
  forget (bresenham cfg b (entry b i st)) as s.
  pose proof (speed_adjustment_frame cfg b s) as T. cbv zeta in T.
  destruct T as ((_ & _ & _ & _ & _ & _ & _ & K) & _).
  intros Hk.
  change (laser_intensity (speed_adjustment cfg b s) = 0).
  change (step_events_completed (speed_adjustment cfg b s) < accelerate_until b) in Hk.
  apply speed_adjustment_raster_ramp; [exact Ht|exact E|lia].
Qed.

(** X26.  A raster line keeps the laser off while it accelerates.  After
    each of the first [accelerate_until - 1] step events of a RASTER_LINE
    block the laser intensity is 0: fetching the block and every rate
    change of the ramp set it to 0, and raster bytes are read in the cruise
    phase only. *)
Theorem raster_ramp_laser_off b q st0 ins :
  type b = TYPE_RASTER_LINE ->
  1 <= step_event_count b <= INT32_MAX ->
  waiting b q st0 -> Forall no_limit ins ->
  1 <= Z.of_nat (length ins) <= step_event_count b ->
  Z.of_nat (length ins) < accelerate_until b ->
  laser_intensity (run_isr cfg ins st0) = 0.
Proof.
  intros Ht Hn W.
  assert (Hm : is_motion b = true) by (unfold is_motion; rewrite Ht; reflexivity).
  induction ins as [|i ins IH] using rev_ind; intros Hl Hlen Hacc; [cbn in Hlen; lia|].
  destruct (trace_invariant cfg b q st0 (fun _ _ => True) Hm Hn W
              ltac:(intros; exact I) ltac:(intros; exact I) (ins ++ [i]) Hl Hlen)
    as ((_ & _ & K & _) & _).
  apply Forall_app in Hl as (Hl & Hi). inversion_clear Hi as [|? ? Hi' _].
  rewrite length_app, Nat2Z.inj_add in Hlen, Hacc. cbn [length] in Hlen, Hacc.
  rewrite run_isr_concat in *. cbn [run_isr] in *.
  rewrite length_app, Nat2Z.inj_add in K. cbn [length] in K.
  destruct ins as [|i0 ins0].
  - cbn [run_isr] in *. apply (ISR_raster_ramp b q i st0); try assumption.
    + apply waiting_feeding; assumption.
    + left. unfold waiting in W. tauto.
    + lia.
  - assert (Hk : 1 <= Z.of_nat (length (i0 :: ins0)) <= step_event_count b)
      by (cbn [length] in *; lia).
    destruct (trace_invariant cfg b q st0 (fun _ _ => True) Hm Hn W
                ltac:(intros; exact I) ltac:(intros; exact I) (i0 :: ins0) Hl Hk)
      as (Pr & _).
    destruct (progress_feeding b q _ _ Pr ltac:(lia)) as (F & _).
    apply (ISR_raster_ramp b q i _); try assumption; [|lia].
    right. apply IH; try assumption. lia.
Qed.

(** X27.  A raster line reads one byte of the raster stream at every
    [pixel_steps]-th step event of its cruise phase, in order.  With the
    ramp no longer than one pixel, after [k] step events before the
    deceleration point [k / pixel_steps] bytes have been consumed, and at
    a pixel boundary the laser intensity is the one computed from the byte
    just read. *)
Theorem raster_reads_one_byte_per_pixel b q st0 ins :
  type b = TYPE_RASTER_LINE -> 1 <= step_event_count b <= INT32_MAX ->
  0 < pixel_steps b -> accelerate_until b <= pixel_steps b ->
  waiting b q st0 -> Forall no_limit ins ->
  1 <= Z.of_nat (length ins) < step_event_count b ->
  Z.of_nat (length ins) < decelerate_after b ->
  let k := Z.of_nat (length ins) in
  let st := run_isr cfg ins st0 in
  raster_stream st = skipn (Z.to_nat (k / pixel_steps b)) (raster_stream st0) /\
  (k mod pixel_steps b = 0 ->
   laser_intensity st =
     uint8 (raster_intensity
              (nth (Z.to_nat (k / pixel_steps b - 1)) (raster_stream st0) 0)
              (nominal_laser_intensity b))).
Proof.
  intros Ht Hn Hp Ha W Hl Hlen Hd.
  apply (raster_pixels cfg b q st0 Ht Hn Hp Ha W ins Hl); lia.
Qed.

End Laser.

(** ** The length of a laser pulse *)

Lemma laser_timer_setting_count cycles :
  0 <= cycles ->
  let count := fst (laser_timer_setting cycles) in
  let divider := timer_prescale (snd (laser_timer_setting cycles)) in
  0 <= count <= 255 /\ (1 <= cycles -> 1 <= count) /\
  (cycles = 0 -> count = 0 /\ divider = 1) /\
  count * divider <= cycles /\
  (cycles < 262144 -> cycles < (count + 1) * divider).
Proof.
  intros Hc. unfold laser_timer_setting. cbv zeta.
  rewrite !Z.shiftr_div_pow2 by lia.
  change (2 ^ 3) with 8. change (2 ^ 2) with 4.
  destruct (Z.ltb_spec cycles 256);
    [|destruct (Z.ltb_spec (cycles / 8) 256);
      [|destruct (Z.ltb_spec (cycles / 8 / 8) 256);
        [|destruct (Z.ltb_spec (cycles / 8 / 8 / 4) 256);
          [|destruct (Z.ltb_spec (cycles / 8 / 8 / 4 / 4) 256)]]]];
    cbn [fst snd];
    [change (timer_prescale (_BV CS00)) with 1
    |change (timer_prescale (_BV CS01)) with 8
    |change (timer_prescale (Z.lor (_BV CS01) (_BV CS00))) with 64
    |change (timer_prescale (_BV CS02)) with 256
    |change (timer_prescale (Z.lor (_BV CS02) (_BV CS00))) with 1024
    |change (timer_prescale (Z.lor (_BV CS02) (_BV CS00))) with 1024];
    lia_div.
Qed.

Section Laser_pulse.

Variable cfg : config.

(** X28.  The length of a laser pulse, without [STATIC_PWM_FREQ].  A call
    that generates the pulse with an intensity from 1 to 241 asks for
    [CONFIG_BEAMDYNAMICS_EVERY * intensity * (cycles_per_step_event >> 8)]
    cycles and sets timer 0 to overflow after a number of ticks that, times
    the divider selected, is never more than that and, below 262144 cycles,
    less than one divider step short of it.  When the step period is
    shorter than 256 cycles the product is 0 and the counter is loaded with
    256, which the 8-bit register holds as 0: the pulse then lasts the full
    256 ticks.  The products are taken within the range of their C
    types. *)
Theorem laser_pulse_length st :
  STATIC_PWM_FREQ cfg = false ->
  CONFIG_BEAMDYNAMICS_EVERY cfg <= pwm_counter st ->
  1 <= laser_intensity st < 242 ->
  0 <= CONFIG_BEAMDYNAMICS_EVERY cfg * laser_intensity st <= 32767 ->
  0 <= cycles_per_step_event st ->
  let cycles := CONFIG_BEAMDYNAMICS_EVERY cfg * laser_intensity st *
                (cycles_per_step_event st / 256) in
  cycles <= UINT32_MAX ->
  let st' := pulse_laser cfg st in
  let ticks := 256 - TCNT0 st' in
  let divider := timer_prescale (TCCR0B st') in
  (1 <= cycles ->
   1 <= ticks <= 255 /\ ticks * divider <= cycles /\
   (cycles < 262144 -> cycles < (ticks + 1) * divider)) /\
  (cycles = 0 -> ticks = 256 /\ divider = 1).
Proof.
  intros Hs Hp Hd He Hc cycles Hm. cbv zeta.
  assert (C0 : 0 <= cycles).
  { unfold cycles. apply Z.mul_nonneg_nonneg; [lia|]. apply Z.div_pos; lia. }
  unfold pulse_laser, control_get_intensity. rewrite Hs.
  destruct (Z.ltb_spec (pwm_counter st) (CONFIG_BEAMDYNAMICS_EVERY cfg)); [lia|].
  destruct (Z.eqb_spec (laser_intensity st) 0); [lia|].
  destruct (Z.ltb_spec (laser_intensity st) 242); [|lia].
  cbv zeta.
  replace (cycles_per_step_event
             (set_ASSIST_PORT
                (uint8 (Z.lor (ASSIST_PORT (set_TCCR0B 0 st)) (_BV (LASER_PWM_BIT cfg))))
                (set_TCCR0B 0 st)))
    with (cycles_per_step_event st) by reflexivity.
  rewrite int16_small by lia.
  rewrite Z.shiftr_div_pow2 by lia. change (2 ^ 8) with 256.
  fold cycles. rewrite (uint32_small cycles) by lia.
  pose proof (laser_timer_setting_count cycles C0) as T. cbv zeta in T.
  destruct T as (B & P & Z0 & L & U).
  destruct (laser_timer_setting cycles) as [count cs]. cbn [fst snd] in *.
  cbn [set_pwm_counter set_TCCR0B set_TCNT0 TCNT0 TCCR0B].
  split.
  - intros H1. specialize (P H1). rewrite uint8_small by lia.
    replace (256 - (256 - count)) with count by lia.
    split; [lia|]. split; [exact L|exact U].
  - intros Hz. destruct (Z0 Hz) as (-> & ->). split; reflexivity.
Qed.

End Laser_pulse.

Lemma calm_runs n : Forall (calm board) (repeat quiet n).
Proof. induction n; cbn [repeat]; constructor; [split; reflexivity | assumption]. Qed.

(** The laser along the ramp of the trapezoid block on [board]: the
    intensity after each of its first four step events, with the rate it
    was computed from. *)
Lemma laser_dims_on_ramp :
  map (fun st => (adjusted_rate st, laser_intensity st))
      (trace_isr board (repeat quiet 4) (armed [ramp] [])) =
    [(9000, 56); (12000, 57); (12000, 57); (60000, 80)].
Proof. evaluated. Qed.

(** The trapezoid block on [board], ten step events in. *)
Lemma laser_follows_rate_on_board :
  let st0 := armed [ramp] [] in
  let ins := repeat quiet 10 in
  (type ramp = TYPE_LINE /\ 1 <= step_event_count ramp <= INT32_MAX /\
   waiting ramp [] st0 /\ Forall (calm board) ins /\
   1 <= Z.of_nat (length ins) <= step_event_count ramp) /\
  laser_in_step board ramp (run_isr board ins st0).
Proof.
  under_hypotheses ltac:(conjuncts; try apply calm_runs; evaluated).
  intros (H1 & H2 & H3 & H4 & H5).
  exact (laser_follows_rate board ramp [] (armed [ramp] []) (repeat quiet 10)
           H1 H2 H3 H4 H5).
Defined.

(** The raster line [lead_in] on [board], three step events into its ramp. *)
Lemma raster_ramp_laser_off_on_board :
  let st0 := armed [lead_in] pixels in
  let ins := repeat quiet 3 in
  (type lead_in = TYPE_RASTER_LINE /\ 1 <= step_event_count lead_in <= INT32_MAX /\
   waiting lead_in [] st0 /\ Forall (no_limit board) ins /\
   1 <= Z.of_nat (length ins) <= step_event_count lead_in /\
   Z.of_nat (length ins) < accelerate_until lead_in) /\
  laser_intensity (run_isr board ins st0) = 0.
Proof.
  under_hypotheses ltac:(conjuncts; try apply quiet_runs; evaluated).
  intros (H1 & H2 & H3 & H4 & H5 & H6).
  exact (raster_ramp_laser_off board lead_in [] (armed [lead_in] pixels) (repeat quiet 3)
           H1 H2 H3 H4 H5 H6).
Defined.

(** The raster line [lead_in] on [board], twenty step events in. *)
Lemma raster_reads_one_byte_per_pixel_on_board :
  let b := lead_in in
  let st0 := armed [lead_in] pixels in
  let ins := repeat quiet 20 in
  (type b = TYPE_RASTER_LINE /\ 1 <= step_event_count b <= INT32_MAX /\
   0 < pixel_steps b /\ accelerate_until b <= pixel_steps b /\
   waiting b [] st0 /\ Forall (no_limit board) ins /\
   1 <= Z.of_nat (length ins) < step_event_count b /\
   Z.of_nat (length ins) < decelerate_after b) /\
  let k := Z.of_nat (length ins) in
  let st := run_isr board ins st0 in
  raster_stream st = skipn (Z.to_nat (k / pixel_steps b)) (raster_stream st0) /\
  (k mod pixel_steps b = 0 ->
   laser_intensity st =
     uint8 (raster_intensity
              (nth (Z.to_nat (k / pixel_steps b - 1)) (raster_stream st0) 0)
              (nominal_laser_intensity b))).
Proof.
  under_hypotheses ltac:(conjuncts; try apply quiet_runs; evaluated).
  intros (H1 & H2 & H3 & H4 & H5 & H6 & H7 & H8).
  exact (raster_reads_one_byte_per_pixel board lead_in [] (armed [lead_in] pixels)
           (repeat quiet 20) H1 H2 H3 H4 H5 H6 H7 H8).
Defined.

(** The pulse the eighth run of the trapezoid block generates on [board]. *)
Lemma laser_pulse_length_on_board :
  let st := run_isr board (repeat quiet 7) (armed [ramp] []) in
  (STATIC_PWM_FREQ board = false /\
   CONFIG_BEAMDYNAMICS_EVERY board <= pwm_counter st /\
   1 <= laser_intensity st < 242 /\
   0 <= CONFIG_BEAMDYNAMICS_EVERY board * laser_intensity st <= 32767 /\
   0 <= cycles_per_step_event st /\
   CONFIG_BEAMDYNAMICS_EVERY board * laser_intensity st *
     (cycles_per_step_event st / 256) <= UINT32_MAX) /\
  let cycles := CONFIG_BEAMDYNAMICS_EVERY board * laser_intensity st *
                (cycles_per_step_event st / 256) in
  let st' := pulse_laser board st in
  let ticks := 256 - TCNT0 st' in
  let divider := timer_prescale (TCCR0B st') in
  (1 <= cycles ->
   1 <= ticks <= 255 /\ ticks * divider <= cycles /\
   (cycles < 262144 -> cycles < (ticks + 1) * divider)) /\
  (cycles = 0 -> ticks = 256 /\ divider = 1).
Proof.
  under_hypotheses ltac:(evaluated).
  intros (H1 & H2 & H3 & H4 & H5 & H6).
  exact (laser_pulse_length board (run_isr board (repeat quiet 7) (armed [ramp] []))
           H1 H2 H3 H4 H5 H6).
Defined.
